(** * Plinko: probability model and physics-engine lifecycle

    A shallow embedding of [src/plinko/src/utils/payouts.ts] (and the two
    other revisions of that file kept under [src/unnamed]) and of the
    [PlinkoEngine] class ([src/unnamed/part_006], with the older revision
    [src/plinko/src/lib/plinkoEngine.ts]).

    Conventions.
    - A JavaScript [number] is modelled by an exact rational ([Q]); equality
      of numbers is [Qeq] ([==]).  Decimal literals of the source (0.3,
      0.00002, ...) denote the exact decimal fractions.
    - [Math.random()], [Date.now()] and the chip identifier are inputs of
      the functions that call them.
    - [Math.sqrt(s) < c] with [0 <= c] is written [s < c * c].
    - Timers ([setTimeout], [setInterval]) are pending closures stored in the
      system state and fired by explicit events.
    - A body carries its label, position, velocity, accumulated force and
      angular velocity; shapes, materials and rendering are left out.

    The two revisions of the engine share the collision router (the older one
    without the random impulse on peg contact), the steering task, the facade
    and the teardown.  They differ in [calculateDimensions] (module [Legacy])
    and the older one has no stuck-chip recovery. *)

From Stdlib Require Import QArith Qminmax Lqa Lia ZArith List Ascii String DecimalString.
From stdpp Require Import gmap strings.

Open Scope Q_scope.

(** ** Numbers *)

Definition ofNat (n : nat) : Q := inject_Z (Z.of_nat n).

Definition Qltb (a b : Q) : bool := negb (Qle_bool b a).

(** [Math.max] and [Math.min] on two arguments. *)
Definition Math_max (a b : Q) : Q := if Qle_bool a b then b else a.
Definition Math_min (a b : Q) : Q := if Qle_bool a b then a else b.

(** [Math.abs]. *)
Definition Math_abs (a : Q) : Q := if Qle_bool 0 a then a else - a.

(** [arr.reduce((a, b) => a + b, 0)]. *)
Definition sumQ (l : list Q) : Q := fold_left Qplus l 0.

(** Pascal's triangle, the reference meaning of "C(n, k)". *)
Fixpoint choose (n k : nat) : nat :=
  match k with
  | O => 1%nat
  | S k' => match n with
            | O => 0%nat
            | S n' => (choose n' k' + choose n' k)%nat
            end
  end.

(** Partial sums of a row of the triangle: C(n,0) + ... + C(n,m-1). *)
Fixpoint chooseSum (n m : nat) : nat :=
  match m with
  | O => 0%nat
  | S m' => (chooseSum n m' + choose n m')%nat
  end.

(** The two closed forms met in the revisions of [getSlotProbabilities]:
    the binomial probability, and the same flattened with a uniform floor. *)
Definition binomialForm (n i : nat) : Q := ofNat (choose n i) / ofNat (2 ^ n).

Definition flattenedForm (n i : nat) : Q :=
  0.3 * (ofNat (choose n i) / ofNat (2 ^ n)) + 0.7 / ofNat (n + 1).

(** The row counts admitted by [type RowCount = 8 | 10 | 12 | 14 | 16]. *)
Definition validRowCount (n : nat) : bool :=
  existsb (Nat.eqb n) (8 :: 10 :: 12 :: 14 :: 16 :: nil)%nat.

(** ** payouts.ts: functions shared by all three revisions *)

Definition getSlotCount (rowCount : nat) : nat := (rowCount + 1)%nat.

(** The loop [for (let i = 0; i < k; i++) result = (result * (n - i)) / (i + 1)],
    started at index [i] with [steps] iterations to go. *)
Fixpoint binomialLoop (n i steps : nat) (result : Q) : Q :=
  match steps with
  | O => result
  | S steps' =>
      binomialLoop n (S i) steps' ((result * (ofNat n - ofNat i)) / (ofNat i + 1))
  end.

(** [binomialCoefficient(n, k)]; the arguments are array indices, hence
    natural numbers, and the test [k < 0] cannot succeed. *)
Definition binomialCoefficient (n k : nat) : Q :=
  if (n <? k)%nat then 0
  else if (k =? 0)%nat || (k =? n)%nat then 1
  else binomialLoop n 0 k 1.

(** The scan of [selectTargetSlot]: first index whose cumulative
    probability exceeds [random]. *)
Fixpoint selectLoop (random : Q) (probabilities : list Q) (i : nat)
    (cumulative : Q) : option nat :=
  match probabilities with
  | nil => None
  | p :: rest =>
      let cumulative' := cumulative + p in
      if Qltb random cumulative' then Some i
      else selectLoop random rest (S i) cumulative'
  end.

(** What the tests of [getSlotProbabilities] ask of a distribution over the
    slots of a board with [rowCount] rows: one entry per slot, total 1,
    mirror symmetry, and a maximum at [Math.floor(probs.length / 2)]. *)
Definition distributionLaws (rowCount : nat) (probs : list Q) : Prop :=
  let slotCount := getSlotCount rowCount in
  length probs = slotCount /\
  sumQ probs == 1 /\
  (forall i, (i < slotCount)%nat -> nth i probs 0 == nth (slotCount - 1 - i) probs 0) /\
  (forall i, (i < slotCount)%nat -> nth i probs 0 <= nth (slotCount / 2) probs 0).

(** ** src/plinko/src/utils/payouts.ts: binomial flattened with uniform *)

Module Payouts.

Definition mixRatio : Q := 0.3.

Definition getSlotProbabilities (rowCount : nat) : list Q :=
  let slotCount := getSlotCount rowCount in
  let binomialProbs := map (binomialCoefficient rowCount) (seq 0 slotCount) in
  let binomialTotal := sumQ binomialProbs in
  let normalizedBinomial := map (fun p => p / binomialTotal) binomialProbs in
  let uniformProb := 1 / ofNat slotCount in
  let uniformProbs := repeat uniformProb slotCount in
  let probabilities :=
    imap (fun i binProb => binProb * mixRatio + nth i uniformProbs 0 * (1 - mixRatio))
         normalizedBinomial in
  let total := sumQ probabilities in
  map (fun p => p / total) probabilities.

(** [random] is [seededRandom(seed)] or [Math.random()]. *)
Definition selectTargetSlot (rowCount : nat) (random : Q) : nat :=
  let probabilities := getSlotProbabilities rowCount in
  match selectLoop random probabilities 0 0 with
  | Some i => i
  | None => (length probabilities - 1)%nat
  end.

End Payouts.

(** ** src/unnamed/part_003: plain binomial distribution over 2^rowCount *)

Module PayoutsBinomial.

Definition getSlotProbabilities (rowCount : nat) : list Q :=
  let slotCount := getSlotCount rowCount in
  let total := ofNat (2 ^ rowCount) in
  map (fun i => binomialCoefficient rowCount i / total) (seq 0 slotCount).

End PayoutsBinomial.

(** ** src/unnamed/part_001: binomial coefficients divided by their sum *)

Module PayoutsNormalized.

Definition getSlotProbabilities (rowCount : nat) : list Q :=
  let slotCount := getSlotCount rowCount in
  let probabilities := map (binomialCoefficient rowCount) (seq 0 slotCount) in
  let total := sumQ probabilities in
  map (fun p => p / total) probabilities.

End PayoutsNormalized.

(** ** Strings used as body labels *)

Definition startsWith (s pat : string) : bool := String.prefix pat s.

Fixpoint dropChars (n : nat) (s : string) : string :=
  match n, s with
  | S n', String _ s' => dropChars n' s'
  | _, _ => s
  end.

(** [s.replace(pat, "")]: the first occurrence of [pat] is removed. *)
Fixpoint removeFirst (pat s : string) : string :=
  if String.prefix pat s then dropChars (String.length pat) s
  else match s with
       | EmptyString => EmptyString
       | String c s' => String c (removeFirst pat s')
       end.

(** Template literal [`${i}`] for a loop index. *)
Definition showNat (i : nat) : string := NilEmpty.string_of_uint (Nat.to_uint i).

Definition digitOf (c : ascii) : option nat :=
  let n := nat_of_ascii c in
  if (48 <=? n)%nat && (n <=? 57)%nat then Some (n - 48)%nat else None.

Fixpoint parseDigits (s : string) (acc : nat) : nat :=
  match s with
  | String c s' =>
      match digitOf c with
      | Some d => parseDigits s' (10 * acc + d)%nat
      | None => acc
      end
  | EmptyString => acc
  end.

(** [parseInt(s, 10)] on the suffix of a sensor label: the leading decimal
    digits, or [None] for NaN.  Sensor labels are built as [`slot-${i}`] with
    [i >= 0], so signs and leading blanks do not occur. *)
Definition parseInt (s : string) : option nat :=
  match s with
  | String c _ => match digitOf c with
                  | Some _ => Some (parseDigits s 0)
                  | None => None
                  end
  | EmptyString => None
  end.

(** ** Engine data *)

Record Vec := mkVec { vx : Q; vy : Q }.

(** The part of a [Matter.Body] the engine reads or writes. *)
Record Body := mkBody {
  label : string;
  position : Vec;
  velocity : Vec;
  force : Vec;
  angularVelocity : Q
}.

Record ChipData := mkChipData {
  chipId : string;
  targetSlot : option nat;
  hasLanded : bool;
  createdAt : Z;
  lastPosition : option Vec;
  stuckCheckTime : option Z
}.

(** [DOMRect] of the container, as far as [calculateDimensions] reads it. *)
Record Rect := mkRect { rectWidth : Q; rectHeight : Q }.

Record Engine := mkEngine {
  rows : nat;
  width : Q;
  height : Q;
  pegRadius : Q;
  chipRadius : Q;
  pegSpacingX : Q;
  pegSpacingY : Q;
  boardPadding : Q;
  slotHeight : Q;
  world : list Body;            (* bodies of [this.engine.world] *)
  pegs : list Body;
  walls : list Body;
  slotSensors : list Body;
  slotDividers : list Body;
  chips : gmap string ChipData;
  runnerActive : bool;          (* between [Runner.run] and [Runner.stop] *)
  isDestroyed : bool
}.

Definition withRows (e : Engine) (r : nat) : Engine :=
  mkEngine r (width e) (height e) (pegRadius e) (chipRadius e) (pegSpacingX e)
    (pegSpacingY e) (boardPadding e) (slotHeight e) (world e) (pegs e) (walls e)
    (slotSensors e) (slotDividers e) (chips e) (runnerActive e) (isDestroyed e).

Definition withWorld (e : Engine) (w : list Body) : Engine :=
  mkEngine (rows e) (width e) (height e) (pegRadius e) (chipRadius e) (pegSpacingX e)
    (pegSpacingY e) (boardPadding e) (slotHeight e) w (pegs e) (walls e)
    (slotSensors e) (slotDividers e) (chips e) (runnerActive e) (isDestroyed e).

Definition withChips (e : Engine) (c : gmap string ChipData) : Engine :=
  mkEngine (rows e) (width e) (height e) (pegRadius e) (chipRadius e) (pegSpacingX e)
    (pegSpacingY e) (boardPadding e) (slotHeight e) (world e) (pegs e) (walls e)
    (slotSensors e) (slotDividers e) c (runnerActive e) (isDestroyed e).

(** ** Matter.js primitives *)

Definition staticBody (lbl : string) (x y : Q) : Body :=
  mkBody lbl (mkVec x y) (mkVec 0 0) (mkVec 0 0) 0.

(** [Body.applyForce(body, body.position, f)]: the force accumulates; applied
    at the centre it adds no torque. *)
Definition applyForce (f : Vec) (b : Body) : Body :=
  mkBody (label b) (position b) (velocity b)
    (mkVec (vx (force b) + vx f) (vy (force b) + vy f)) (angularVelocity b).

Definition setVelocity (v : Vec) (b : Body) : Body :=
  mkBody (label b) (position b) v (force b) (angularVelocity b).

Definition setAngularVelocity (w : Q) (b : Body) : Body :=
  mkBody (label b) (position b) (velocity b) (force b) w.

(** [bodies.find((b) => b.label === lbl)]. *)
Definition findBody (lbl : string) (w : list Body) : option Body :=
  List.find (fun b => String.eqb (label b) lbl) w.

(** A mutation of the body that [findBody] returns, seen through the world. *)
Fixpoint updateBody (lbl : string) (f : Body -> Body) (w : list Body) : list Body :=
  match w with
  | nil => nil
  | b :: w' => if String.eqb (label b) lbl then f b :: w' else b :: updateBody lbl f w'
  end.

(** [Composite.remove(world, chip)] for the body that [findBody] returns. *)
Fixpoint removeBody (lbl : string) (w : list Body) : list Body :=
  match w with
  | nil => nil
  | b :: w' => if String.eqb (label b) lbl then w' else b :: removeBody lbl w'
  end.

(** ** World construction (src/unnamed/part_006) *)

Definition calculateDimensions (rect : Rect) (e : Engine) : Engine :=
  let width := rectWidth rect in
  let height := rectHeight rect in
  let minDimension := Math_min width height in
  let pegRadius := Math_max 3 (minDimension / (ofNat (rows e) * 4)) in
  let chipRadius := pegRadius * 0.9 in
  let boardPadding := width * 0.08 in
  let usableWidth := width - boardPadding * 2 in
  let pegSpacingX := usableWidth / (ofNat (rows e) + 1) in
  let pegSpacingY := (height * 0.75) / (ofNat (rows e) + 1) in
  let slotHeight := height * 0.12 in
  mkEngine (rows e) width height pegRadius chipRadius pegSpacingX pegSpacingY
    boardPadding slotHeight (world e) (pegs e) (walls e) (slotSensors e)
    (slotDividers e) (chips e) (runnerActive e) (isDestroyed e).

Definition createPegs (e : Engine) : list Body :=
  let startY := pegSpacingY e * 1.5 in
  flat_map (fun row =>
    let pegsInRow := (row + 3)%nat in
    let rowWidth := (ofNat pegsInRow - 1) * pegSpacingX e in
    let startX := (width e - rowWidth) / 2 in
    map (fun col =>
           let x := startX + ofNat col * pegSpacingX e in
           let y := startY + ofNat row * pegSpacingY e in
           staticBody "peg" x y)
        (seq 0 pegsInRow))
    (seq 0 (rows e)).

Definition createWalls (e : Engine) : list Body :=
  let wallThickness := 20 in
  let leftWall := staticBody "wall" (- wallThickness / 2) (height e / 2) in
  let rightWall := staticBody "wall" (width e + wallThickness / 2) (height e / 2) in
  let topWall := staticBody "topWall" (width e / 2) (- wallThickness / 2) in
  let bottomWall := staticBody "bottom" (width e / 2) (height e + wallThickness / 2) in
  leftWall :: rightWall :: topWall :: bottomWall :: nil.

Definition slotLabel (i : nat) : string := String.append "slot-" (showNat i).

Definition chipLabel (id : string) : string := String.append "chip-" id.

(** Sensors, then dividers. *)
Definition createSlots (e : Engine) : list Body * list Body :=
  let slotCount := (rows e + 1)%nat in
  let slotWidth := (width e - boardPadding e * 2) / ofNat slotCount in
  let slotY := height e - slotHeight e / 2 in
  (map (fun i => staticBody (slotLabel i) (boardPadding e + slotWidth / 2 + ofNat i * slotWidth) slotY)
       (seq 0 slotCount),
   map (fun i => staticBody "divider" (boardPadding e + ofNat i * slotWidth) slotY)
       (seq 0 (slotCount + 1))).

(** [World.clear] empties the world; the four collections are rebuilt and
    added.  The chip registry is not touched. *)
Definition buildWorld (e : Engine) : Engine :=
  let newPegs := createPegs e in
  let newWalls := createWalls e in
  let '(newSensors, newDividers) := createSlots e in
  mkEngine (rows e) (width e) (height e) (pegRadius e) (chipRadius e)
    (pegSpacingX e) (pegSpacingY e) (boardPadding e) (slotHeight e)
    (newPegs ++ newWalls ++ newSensors ++ newDividers)
    newPegs newWalls newSensors newDividers
    (chips e) (runnerActive e) (isDestroyed e).

(** ** The older revision, src/plinko/src/lib/plinkoEngine.ts *)

Module Legacy.

Definition calculateDimensions (rect : Rect) (e : Engine) : Engine :=
  let width := rectWidth rect in
  let height := rectHeight rect in
  let minDimension := Math_min width height in
  let pegRadius := Math_max 3 (minDimension / (ofNat (rows e) * 4)) in
  let chipRadius := pegRadius * 1.5 in
  let boardPadding := width * 0.08 in
  let usableWidth := width - boardPadding * 2 in
  let pegSpacingX := usableWidth / (ofNat (rows e) + 1) in
  let pegSpacingY := (height * 0.75) / (ofNat (rows e) + 1) in
  let slotHeight := height * 0.12 in
  mkEngine (rows e) width height pegRadius chipRadius pegSpacingX pegSpacingY
    boardPadding slotHeight (world e) (pegs e) (walls e) (slotSensors e)
    (slotDividers e) (chips e) (runnerActive e) (isDestroyed e).

End Legacy.

(** ** Callbacks and timers *)

Inductive Callback :=
| OnSlotLanded (chipId : string) (slotIndex : option nat)
| OnPegHit (chipId : string)
| OnChipCreated (chipId : string).

(** The closure handed to [setTimeout] on a sensor contact. *)
Record Timeout := mkTimeout { toChipId : string; toSlotIndex : option nat }.

(** The closure handed to [setInterval] by [applyDeterministicNudges]:
    what it captured and its counter; [nCleared] once [clearInterval] ran. *)
Record NudgeTask := mkNudgeTask {
  nChipLabel : string;
  nTargetX : Q;
  nSlotWidth : Q;
  nMaxNudges : nat;
  nNudgeCount : nat;
  nCleared : bool
}.

Record System := mkSystem {
  engine : Engine;
  timeouts : list Timeout;
  intervals : list NudgeTask;
  callbackLog : list Callback     (* oldest first *)
}.

Definition withEngine (s : System) (e : Engine) : System :=
  mkSystem e (timeouts s) (intervals s) (callbackLog s).

Definition emit (c : Callback) (s : System) : System :=
  mkSystem (engine s) (timeouts s) (intervals s) (callbackLog s ++ c :: nil).

(** ** Collision router *)

(** One entry of [event.pairs]: the two labels and the three [Math.random()]
    values [applyCollisionRandomness] would draw. *)
Record CollisionPair := mkPair {
  bodyA : string;
  bodyB : string;
  randMagnitude : Q;
  randDirection : Q;
  randSpin : Q
}.

Definition collisionForceMin : Q := 0.00003.
Definition collisionForceMax : Q := 0.00012.

Definition applyCollisionRandomness (e : Engine) (p : CollisionPair) (chip : Body) : Body :=
  let forceMagnitude :=
    collisionForceMin + randMagnitude p * (collisionForceMax - collisionForceMin) in
  let centerX := width e / 2 in
  let chipX := vx (position chip) in
  let positionBias := (centerX - chipX) / width e * 0.3 in
  let direction := if Qltb (randDirection p) (0.5 + positionBias) then 1 else - (1) in
  let chip1 := applyForce (mkVec (forceMagnitude * direction) 0) chip in
  setAngularVelocity (angularVelocity chip1 + (randSpin p - 0.5) * 0.1) chip1.

(** [a.startsWith(pat) ? a : b.startsWith(pat) ? b : null], on labels. *)
Definition pickLabel (pat : string) (p : CollisionPair) : option string :=
  if startsWith (bodyA p) pat then Some (bodyA p)
  else if startsWith (bodyB p) pat then Some (bodyB p)
  else None.

Definition markLanded (c : ChipData) : ChipData :=
  mkChipData (chipId c) (targetSlot c) true (createdAt c) (lastPosition c) (stuckCheckTime c).

(** The peg branch of the handler body. *)
Definition handlePegContact (p : CollisionPair) (s : System) : System :=
  if String.eqb (bodyA p) "peg" || String.eqb (bodyB p) "peg" then
    match pickLabel "chip-" p with
    | Some chip =>
        let chipId := removeFirst "chip-" chip in
        let s1 := emit (OnPegHit chipId) s in
        withEngine s1
          (withWorld (engine s1)
             (updateBody chip (applyCollisionRandomness (engine s1) p) (world (engine s1))))
    | None => s
    end
  else s.

(** The sensor branch of the handler body. *)
Definition handleSlotContact (p : CollisionPair) (s : System) : System :=
  match pickLabel "slot-" p, pickLabel "chip-" p with
  | Some slotBody, Some chipBody =>
      let chipId := removeFirst "chip-" chipBody in
      match chips (engine s) !! chipId with
      | Some chipData =>
          if negb (hasLanded chipData) then
            let slotIndex := parseInt (removeFirst "slot-" slotBody) in
            mkSystem
              (withChips (engine s) (<[chipId := markLanded chipData]> (chips (engine s))))
              (timeouts s ++ mkTimeout chipId slotIndex :: nil)
              (intervals s)
              (callbackLog s)
          else s
      | None => s
      end
  | _, _ => s
  end.

(** The ["collisionStart"] handler installed by [setupCollisionDetection]. *)
Definition onCollisionStart (pairs : list CollisionPair) (s : System) : System :=
  fold_left (fun s p => handleSlotContact p (handlePegContact p s)) pairs s.

Definition removeChip (chipId : string) (e : Engine) : Engine :=
  mkEngine (rows e) (width e) (height e) (pegRadius e) (chipRadius e)
    (pegSpacingX e) (pegSpacingY e) (boardPadding e) (slotHeight e)
    (removeBody (chipLabel chipId) (world e))
    (pegs e) (walls e) (slotSensors e) (slotDividers e)
    (delete chipId (chips e)) (runnerActive e) (isDestroyed e).

(** The body of the delayed closure: report the landing, drop the chip. *)
Definition fireTimeout (t : Timeout) (s : System) : System :=
  let s1 := emit (OnSlotLanded (toChipId t) (toSlotIndex t)) s in
  withEngine s1 (removeChip (toChipId t) (engine s1)).

(** ** Stuck-chip recovery *)

(** The four random quantities of one intervention: [Math.cos(angle)] and
    [Math.sin(angle)] of the random angle, and the two [Math.random()] values of
    the velocity boost. *)
Record UnstickDraws := mkUnstickDraws {
  cosAngle : Q;
  sinAngle : Q;
  randBoostX : Q;
  randBoostY : Q
}.

Definition stuckThreshold : Z := 500.
Definition minMovement : Q := 1.5.

Definition setStuckCheck (c : ChipData) (pos : option Vec) (t : option Z) : ChipData :=
  mkChipData (chipId c) (targetSlot c) (hasLanded c) (createdAt c) pos t.

(** Truthiness of [chipData.stuckCheckTime]: [undefined] and [0] are falsy. *)
Definition truthyTime (t : option Z) : bool :=
  match t with
  | Some z => negb (z =? 0)%Z
  | None => false
  end.

Definition squaredNorm (x y : Q) : Q := x * x + y * y.

(** The velocity handed to [Body.setVelocity] by an intervention. *)
Definition boostedVelocity (d : UnstickDraws) (currentVel : Vec) : Vec :=
  mkVec (vx currentVel + (randBoostX d - 0.5) * 0.3)
        (vy currentVel + 0.5 + randBoostY d * 0.5).

(** The body of the [forEach] callback once the chip is known not to have
    landed and its body was found. *)
Definition unstickChip (now : Z) (d : UnstickDraws) (chipData : ChipData) (chip : Body)
    : ChipData * Body :=
  let currentPos := position chip in
  match lastPosition chipData with
  | None => (setStuckCheck chipData (Some currentPos) (Some now), chip)
  | Some last =>
      let distance2 := squaredNorm (vx currentPos - vx last) (vy currentPos - vy last) in
      if Qltb distance2 (minMovement * minMovement) then
        if negb (truthyTime (stuckCheckTime chipData)) then
          (setStuckCheck chipData (lastPosition chipData) (Some now), chip)
        else if (stuckThreshold <? now - default 0%Z (stuckCheckTime chipData))%Z then
          let speed2 := squaredNorm (vx (velocity chip)) (vy (velocity chip)) in
          if Qltb speed2 (0.2 * 0.2) then
            let force := 0.001 in
            let chip1 :=
              applyForce (mkVec (cosAngle d * force) (sinAngle d * force + 0.0008)) chip in
            let chip2 := setVelocity (boostedVelocity d (velocity chip1)) chip1 in
            (setStuckCheck chipData (Some currentPos) (Some now), chip2)
          else (chipData, chip)
        else (chipData, chip)
      else (setStuckCheck chipData (Some currentPos) None, chip)
  end.

Definition unstickStep (now : Z) (draws : string -> UnstickDraws) (e : Engine)
    (id : string) : Engine :=
  match chips e !! id with
  | None => e
  | Some chipData =>
      if hasLanded chipData then e
      else match findBody (chipLabel id) (world e) with
           | None => e
           | Some chip =>
               let '(chipData', chip') := unstickChip now (draws id) chipData chip in
               withWorld (withChips e (<[id := chipData']> (chips e)))
                         (updateBody (chipLabel id) (fun _ => chip') (world e))
           end
  end.

(** [this.chips.forEach(...)] with [Date.now()] read once before the loop. *)
Definition checkAndUnstickBalls (now : Z) (draws : string -> UnstickDraws) (e : Engine)
    : Engine :=
  fold_left (unstickStep now draws) (map fst (map_to_list (chips e))) e.

(** ** Drop controller *)

Inductive SimulationMode := Physics | Deterministic.

(** What [dropChip] reads from its environment: the generated identifier,
    [Date.now()] and one [Math.random()] value per use. *)
Record DropDraws := mkDropDraws {
  dropId : string;
  dropNow : Z;
  randPosition : Q;
  randTarget : Q;
  randBias : Q;
  randVelX : Q;
  randVelY : Q;
  randSpinInit : Q
}.

Definition clamp (lo hi x : Q) : Q := Math_max lo (Math_min hi x).

Definition slotWidthOf (e : Engine) : Q :=
  (width e - boardPadding e * 2) / ofNat (rows e + 1).

Definition targetXOf (e : Engine) (slot : nat) : Q :=
  boardPadding e + slotWidthOf e / 2 + ofNat slot * slotWidthOf e.

(** The closure state created by [applyDeterministicNudges]. *)
Definition applyDeterministicNudges (e : Engine) (chip : Body) (slot : nat) : NudgeTask :=
  mkNudgeTask (label chip) (targetXOf e slot) (slotWidthOf e) (rows e / 2) 0 false.

Definition clearInterval (t : NudgeTask) : NudgeTask :=
  mkNudgeTask (nChipLabel t) (nTargetX t) (nSlotWidth t) (nMaxNudges t) (nNudgeCount t) true.

Definition countNudge (t : NudgeTask) : NudgeTask :=
  mkNudgeTask (nChipLabel t) (nTargetX t) (nSlotWidth t) (nMaxNudges t)
    (S (nNudgeCount t)) (nCleared t).

(** [chipData && !chipData.hasLanded] for the chip the task steers. *)
Definition chipInFlight (e : Engine) (t : NudgeTask) : bool :=
  match chips e !! removeFirst "chip-" (nChipLabel t) with
  | Some chipData => negb (hasLanded chipData)
  | None => false
  end.

Definition nudgeProgress (e : Engine) (chip : Body) : Q :=
  vy (position chip) / (height e - slotHeight e).

(** One firing of the interval callback.  [chip] is the captured body in its
    current state; the result is the closure state afterwards and the
    horizontal force handed to [Body.applyForce], if any. *)
Definition nudgeTick (e : Engine) (chip : Body) (random : Q) (t : NudgeTask)
    : NudgeTask * option Q :=
  if isDestroyed e || (nMaxNudges t <=? nNudgeCount t)%nat then (clearInterval t, None)
  else if negb (chipInFlight e t) then (clearInterval t, None)
  else
    let progress := nudgeProgress e chip in
    let applied :=
      if Qltb 0.3 progress && Qltb progress 0.85 then
        let currentX := vx (position chip) in
        let diff := nTargetX t - currentX in
        if Qltb (nSlotWidth t * 0.3) (Math_abs diff)
        then Some (diff * 0.00002 * (random + 0.5))
        else None
      else None in
    (countNudge t, applied).

(** The environment of one firing: engine state, chip state, random value. *)
Record TickEnv := mkTickEnv { tickEngine : Engine; tickChip : Body; tickRandom : Q }.

(** The interval over a sequence of firings; firing stops with
    [clearInterval].  Returns the final closure state, the number of firings
    that ran to the end of the callback, and the forces applied. *)
Fixpoint runNudges (t : NudgeTask) (envs : list TickEnv) : NudgeTask * nat * list Q :=
  match envs with
  | nil => (t, O, nil)
  | env :: rest =>
      if nCleared t then (t, O, nil)
      else
        let '(t1, applied) := nudgeTick (tickEngine env) (tickChip env) (tickRandom env) t in
        if nCleared t1 then (t1, O, nil)
        else
          let '(t2, n, forces) := runNudges t1 rest in
          (t2, S n, match applied with Some f => f :: forces | None => forces end)
  end.

Definition dropChip (d : DropDraws) (xPosition : option Q) (simulationMode : SimulationMode)
    (targetSlot : option nat) (s : System) : System * string :=
  let e := engine s in
  let id := dropId d in
  let safeMargin := chipRadius e + pegRadius e + 10 in
  let minX := boardPadding e + safeMargin in
  let maxX := width e - boardPadding e - safeMargin in
  let dropX0 :=
    match xPosition with
    | Some x => minX + x * (maxX - minX)
    | None =>
        let centerX := width e / 2 in
        let dropRange := (maxX - minX) * 0.7 in
        centerX + (randPosition d - 0.5) * dropRange
    end in
  let dropX1 := clamp minX maxX dropX0 in
  let firstPegY := pegSpacingY e * 1.5 in
  let dropY := Math_max (chipRadius e * 1.5) (firstPegY - chipRadius e * 4) in
  let finalTargetSlot :=
    match simulationMode, targetSlot with
    | Deterministic, None => Some (Payouts.selectTargetSlot (rows e) (randTarget d))
    | _, _ => targetSlot
    end in
  let dropX :=
    match simulationMode, finalTargetSlot with
    | Deterministic, Some slot =>
        let bias := (targetXOf e slot - width e / 2) * 0.15 in
        clamp minX maxX (width e / 2 + bias + (randBias d - 0.5) * pegSpacingX e * 0.3)
    | _, _ => dropX1
    end in
  let chip :=
    mkBody (chipLabel id) (mkVec dropX dropY)
      (mkVec ((randVelX d - 0.5) * 2.0) (1.5 + randVelY d * 1.5))
      (mkVec 0 0) ((randSpinInit d - 0.5) * 0.15) in
  let chipData := mkChipData id finalTargetSlot false (dropNow d) None None in
  let e1 := withWorld (withChips e (<[id := chipData]> (chips e))) (world e ++ chip :: nil) in
  let newIntervals :=
    match simulationMode, finalTargetSlot with
    | Deterministic, Some slot => applyDeterministicNudges e1 chip slot :: nil
    | _, _ => nil
    end in
  (mkSystem e1 (timeouts s) (intervals s ++ newIntervals)
     (callbackLog s ++ OnChipCreated id :: nil), id).

(** ** Engine facade *)

Definition resize (rect : Rect) (e : Engine) : Engine :=
  buildWorld (calculateDimensions rect e).

Definition setRows (n : nat) (rect : Rect) (e : Engine) : Engine :=
  buildWorld (calculateDimensions rect (withRows e n)).

Definition getActiveChipCount (e : Engine) : nat := size (chips e).

Definition destroy (e : Engine) : Engine :=
  mkEngine (rows e) (width e) (height e) (pegRadius e) (chipRadius e)
    (pegSpacingX e) (pegSpacingY e) (boardPadding e) (slotHeight e)
    nil (pegs e) (walls e) (slotSensors e) (slotDividers e)
    ∅ false true.

(** [new PlinkoEngine(config)]: the fields start at their initialisers, the
    dimensions are computed from the container, the world is built and the
    runner started.  No pending timers, no callbacks so far. *)
Definition PlinkoEngine_new (configRows : nat) (rect : Rect) : System :=
  let e0 := mkEngine configRows 0 0 0 0 0 0 0 0 nil nil nil nil nil ∅ false false in
  let e1 := buildWorld (calculateDimensions rect e0) in
  mkSystem
    (mkEngine (rows e1) (width e1) (height e1) (pegRadius e1) (chipRadius e1)
       (pegSpacingX e1) (pegSpacingY e1) (boardPadding e1) (slotHeight e1)
       (world e1) (pegs e1) (walls e1) (slotSensors e1) (slotDividers e1)
       (chips e1) true (isDestroyed e1))
    nil nil nil.

(** How a call ends: with its result, or by raising. *)
Inductive Completion (A : Type) :=
| Normal (a : A)
| Throws (message : string).
Arguments Normal {A} a.
Arguments Throws {A} message.

(** Neither the constructor nor [setRows] (nor anything they call) contains a
    [throw] or a guard on its arguments: both always complete normally. *)
Definition construct (configRows : nat) (rect : Rect) : Completion System :=
  Normal (PlinkoEngine_new configRows rect).

Definition reconfigure (n : nat) (rect : Rect) (e : Engine) : Completion Engine :=
  Normal (setRows n rect e).

(** ** The engine in its environment *)

(** Everything that can happen to a running engine: calls of the public
    interface, and the host firing a timer, a frame or a physics update. *)
Inductive Event :=
| EvDrop (d : DropDraws) (xPosition : option Q) (mode : SimulationMode)
         (targetSlot : option nat)
| EvCollision (pairs : list CollisionPair)
| EvTimeout (k : nat)
| EvInterval (k : nat) (detached : Vec) (random : Q)
| EvFrame (now : Z) (draws : string -> UnstickDraws)
| EvPhysics (integrate : Body -> Body)
| EvResize (rect : Rect)
| EvSetRows (n : nat) (rect : Rect)
| EvDestroy.

(** A physics update moves bodies; it neither relabels nor adds nor removes. *)
Definition integrateBody (integrate : Body -> Body) (b : Body) : Body :=
  let b' := integrate b in
  mkBody (label b) (position b') (velocity b') (force b') (angularVelocity b').

Fixpoint removeNth {A} (k : nat) (l : list A) : list A :=
  match l, k with
  | nil, _ => nil
  | _ :: l', O => l'
  | x :: l', S k' => x :: removeNth k' l'
  end.

Fixpoint replaceNth {A} (k : nat) (x : A) (l : list A) : list A :=
  match l, k with
  | nil, _ => nil
  | _ :: l', O => x :: l'
  | y :: l', S k' => y :: replaceNth k' x l'
  end.

(** Firing of the [k]-th interval.  The captured body is read from the world;
    once it has left the world it is a detached object whose position is
    whatever it was ([detached]). *)
Definition fireInterval (k : nat) (detached : Vec) (random : Q) (s : System) : System :=
  match nth_error (intervals s) k with
  | None => s
  | Some t =>
      if nCleared t then s
      else
        let chip :=
          match findBody (nChipLabel t) (world (engine s)) with
          | Some b => b
          | None => mkBody (nChipLabel t) detached (mkVec 0 0) (mkVec 0 0) 0
          end in
        let '(t', applied) := nudgeTick (engine s) chip random t in
        let w :=
          match applied with
          | Some fx => updateBody (nChipLabel t) (applyForce (mkVec fx 0)) (world (engine s))
          | None => world (engine s)
          end in
        mkSystem (withWorld (engine s) w) (timeouts s)
                 (replaceNth k t' (intervals s)) (callbackLog s)
  end.

(** One event.  Contact reports and physics updates come from the runner and
    stop with it; the frame callback returns at once on a destroyed engine;
    timers fire regardless. *)
Definition step (s : System) (ev : Event) : System :=
  match ev with
  | EvDrop d xPosition mode targetSlot => fst (dropChip d xPosition mode targetSlot s)
  | EvCollision pairs =>
      if runnerActive (engine s) then onCollisionStart pairs s else s
  | EvTimeout k =>
      match nth_error (timeouts s) k with
      | Some t =>
          fireTimeout t (mkSystem (engine s) (removeNth k (timeouts s)) (intervals s)
                                  (callbackLog s))
      | None => s
      end
  | EvInterval k detached random => fireInterval k detached random s
  | EvFrame now draws =>
      if isDestroyed (engine s) then s
      else withEngine s (checkAndUnstickBalls now draws (engine s))
  | EvPhysics integrate =>
      if runnerActive (engine s)
      then withEngine s (withWorld (engine s) (map (integrateBody integrate) (world (engine s))))
      else s
  | EvResize rect => withEngine s (resize rect (engine s))
  | EvSetRows n rect => withEngine s (setRows n rect (engine s))
  | EvDestroy => withEngine s (destroy (engine s))
  end.

Definition run (s : System) (trace : list Event) : System := fold_left step trace s.

(** Identifiers handed out by the drops of a trace. *)
Definition droppedIds (trace : list Event) : list string :=
  flat_map (fun ev => match ev with
                      | EvDrop d _ _ _ => dropId d :: nil
                      | _ => nil
                      end) trace.

Definition isLandingOf (id : string) (c : Callback) : bool :=
  match c with
  | OnSlotLanded id' _ => String.eqb id' id
  | _ => false
  end.

Definition isPegHitOf (id : string) (c : Callback) : bool :=
  match c with
  | OnPegHit id' => String.eqb id' id
  | _ => false
  end.

(** Number of [onSlotLanded(id, _)] calls recorded in a log. *)
Definition landingCount (id : string) (log : list Callback) : nat :=
  length (List.filter (isLandingOf id) log).

Definition pendingCount (id : string) (ts : list Timeout) : nat :=
  length (List.filter (fun t => String.eqb (toChipId t) id) ts).

(** The bodies in the world that carry a chip label. *)
Definition chipBodies (e : Engine) : list Body :=
  List.filter (fun b => startsWith (label b) "chip-") (world e).

(** A contact can only be reported between bodies that are in the world. *)
Definition pairInWorld (e : Engine) (p : CollisionPair) : bool :=
  existsb (fun b => String.eqb (label b) (bodyA p)) (world e)
  && existsb (fun b => String.eqb (label b) (bodyB p)) (world e).

(** A trace whose contact reports all concern bodies present at that time. *)
Fixpoint contactsInWorld (s : System) (trace : list Event) : bool :=
  match trace with
  | nil => true
  | ev :: rest =>
      match ev with
      | EvCollision pairs => forallb (pairInWorld (engine s)) pairs
      | _ => true
      end && contactsInWorld (step s ev) rest
  end.

Definition isDestroy (ev : Event) : bool :=
  match ev with
  | EvDestroy => true
  | _ => false
  end.

(** [resize()] and [setRows()], the two calls that rebuild the world. *)
Definition isRebuild (ev : Event) : bool :=
  match ev with
  | EvResize _ | EvSetRows _ _ => true
  | _ => false
  end.

(** ** What the lifecycle of one chip can see of the system *)

(** For a chip identifier: its landed flag in the registry (if registered),
    the number of pending landing closures, the number of landings reported. *)
Definition viewOf (id : string) (s : System) : option bool * nat * nat :=
  (hasLanded <$> (chips (engine s) !! id),
   pendingCount id (timeouts s),
   landingCount id (callbackLog s)).

(** Does a body labelled as the chip [id] sit in the world? *)
Definition isBodyOf (id : string) (lbl : string) : bool :=
  startsWith lbl "chip-" && String.eqb (removeFirst "chip-" lbl) id.

Definition chipInWorld (id : string) (e : Engine) : bool :=
  existsb (fun b => isBodyOf id (label b)) (world e).

(** The identifier was never handed out: no registry entry, no closure, no
    report. *)
Definition unusedId (id : string) (s : System) : Prop :=
  viewOf id s = (None, O, O).

(** At most one landing is pending or reported, and none as long as the chip
    is registered as not landed. *)
Definition withinBudget (v : option bool * nat * nat) : Prop :=
  let '(landed, pending, reported) := v in
  (pending + reported <= 1)%nat /\
  (landed = Some false -> (pending + reported = 0)%nat).

Definition landingBudget (id : string) (s : System) : Prop := withinBudget (viewOf id s).

(** A chip that is registered and in flight but has lost its body. *)
Definition orphaned (id : string) (s : System) : Prop :=
  viewOf id s = (Some false, O, O) /\ chipInWorld id (engine s) = false.

(** The only ways an event changes the view of a chip. *)
Inductive viewChange (id : string) (ev : Event)
    : option bool * nat * nat -> option bool * nat * nat -> Prop :=
| vcSame v : viewChange id ev v v
| vcDrop d x mode target landed pending reported :
    ev = EvDrop d x mode target -> dropId d = id ->
    viewChange id ev (landed, pending, reported) (Some false, pending, reported)
| vcLand pairs pair pending reported :
    ev = EvCollision pairs -> In pair pairs ->
    isBodyOf id (bodyA pair) = true \/ isBodyOf id (bodyB pair) = true ->
    viewChange id ev (Some false, pending, reported) (Some true, S pending, reported)
| vcFire k landed pending reported :
    ev = EvTimeout k ->
    viewChange id ev (landed, S pending, reported) (None, pending, S reported)
| vcDestroy landed pending reported :
    ev = EvDestroy ->
    viewChange id ev (landed, pending, reported) (None, pending, reported).

Definition noDestroy (trace : list Event) : bool :=
  forallb (fun ev => negb (isDestroy ev)) trace.

(** A body that does not carry a chip label. *)
Definition notChip (b : Body) : Prop := startsWith (label b) "chip-" = false.

(** ** Sample inputs used by the concrete scenarios *)

Definition sampleRect : Rect := mkRect 600 800.

Definition sampleDrop (id : string) : DropDraws :=
  mkDropDraws id 1000 0.5 0.5 0.5 0.5 0.5 0.5.

Definition samplePair (a b : string) : CollisionPair := mkPair a b 0.5 0.5 0.5.

From Stdlib Require Import Qround.
From Stdlib Require DecimalNat DecimalFacts Finite.

(** ** Payout tables *)

Inductive RiskMode := Low | Balanced | High.

(** [type RowCount = 8 | 10 | 12 | 14 | 16]. *)
Inductive RowCount := Rows8 | Rows10 | Rows12 | Rows14 | Rows16.

Definition rowsOf (rowCount : RowCount) : nat :=
  match rowCount with
  | Rows8 => 8
  | Rows10 => 10
  | Rows12 => 12
  | Rows14 => 14
  | Rows16 => 16
  end.

(** The body of [calculatePayout] once the slot values are known.  A slot
    value is represented by its multiplier (the label is display text made
    with [toFixed]). *)
Definition payoutAt (slots : list Q) (betAmount : Q) (slotIndex : Z) : Q :=
  if (slotIndex <? 0)%Z || (Z.of_nat (length slots) <=? slotIndex)%Z then 0
  else betAmount * nth (Z.to_nat slotIndex) slots 0.

(** The inner [seededRandom] of [shuffleArray] advances the seed by
    [(currentSeed * 9301 + 49297) % 233280] and returns it over 233280.
    JavaScript's [%] takes the sign of the dividend, like [Z.rem]. *)
Definition nextSeed (currentSeed : Z) : Z := Z.rem (currentSeed * 9301 + 49297) 233280.

(** [Math.floor(seededRandom() * (i + 1))] for the seed just advanced. *)
Definition shuffleIndex (currentSeed : Z) (i : nat) : Z :=
  Qfloor (inject_Z currentSeed / 233280 * (ofNat i + 1)).

(** [[shuffled[i], shuffled[j]] = [shuffled[j], shuffled[i]]].  With a seed
    that is not negative both indices are inside the array; an index outside
    the array (negative seed) is not modelled and leaves the list as it is. *)
Definition swapEntries {A} (i : nat) (j : Z) (shuffled : list A) : list A :=
  match shuffled !! i, (if (j <? 0)%Z then None else shuffled !! Z.to_nat j) with
  | Some a, Some b => <[Z.to_nat j := a]> (<[i := b]> shuffled)
  | _, _ => shuffled
  end.

(** The loop [for (let i = shuffled.length - 1; i > 0; i--)], at index [i]. *)
Fixpoint shuffleLoop {A} (i : nat) (currentSeed : Z) (shuffled : list A) : list A :=
  match i with
  | O => shuffled
  | S i' =>
      let currentSeed' := nextSeed currentSeed in
      let j := shuffleIndex currentSeed' i in
      shuffleLoop i' currentSeed' (swapEntries i j shuffled)
  end.

(** [shuffleArray(array, seed)]. *)
Definition shuffleArray {A} (array : list A) (seed : Z) : list A :=
  shuffleLoop (length array - 1) seed array.

(** ** src/plinko/src/utils/payouts.ts: shuffled multipliers *)

Module ShuffledPayouts.

(** [BASE_SLOT_VALUES]; the row for high risk and 16 rows has 16 entries. *)
Definition BASE_SLOT_VALUES (riskMode : RiskMode) (rowCount : RowCount) : list Q :=
  match riskMode, rowCount with
  | Low, Rows8 =>
      2.1 :: 1.6 :: 1.4 :: 1.2 :: 1.1 :: 1.2 :: 1.4 :: 1.6 :: 2.1 :: nil
  | Low, Rows10 =>
      1.8 :: 1.5 :: 1.3 :: 1.2 :: 1.1 :: 1.1 :: 1.1 :: 1.2 :: 1.3 :: 1.5 :: 1.8 :: nil
  | Low, Rows12 =>
      2.0 :: 1.5 :: 1.3 :: 1.2 :: 1.1 :: 1.1 :: 1.1 :: 1.1 :: 1.1 :: 1.2 :: 1.3 :: 1.5 ::
      2.0 :: nil
  | Low, Rows14 =>
      2.0 :: 1.5 :: 1.3 :: 1.2 :: 1.1 :: 1.1 :: 1.1 :: 1.0 :: 1.1 :: 1.1 :: 1.1 :: 1.2 ::
      1.3 :: 1.5 :: 2.0 :: nil
  | Low, Rows16 =>
      2.0 :: 1.5 :: 1.3 :: 1.2 :: 1.1 :: 1.1 :: 1.1 :: 1.0 :: 1.0 :: 1.0 :: 1.1 :: 1.1 ::
      1.1 :: 1.2 :: 1.3 :: 1.5 :: 2.0 :: nil
  | Balanced, Rows8 =>
      5.0 :: 2.5 :: 1.5 :: 1.0 :: 0.5 :: 1.0 :: 1.5 :: 2.5 :: 5.0 :: nil
  | Balanced, Rows10 =>
      5.0 :: 2.5 :: 1.5 :: 1.0 :: 0.7 :: 0.4 :: 0.7 :: 1.0 :: 1.5 :: 2.5 :: 5.0 :: nil
  | Balanced, Rows12 =>
      5.0 :: 2.5 :: 1.5 :: 1.0 :: 0.8 :: 0.5 :: 0.3 :: 0.5 :: 0.8 :: 1.0 :: 1.5 :: 2.5 ::
      5.0 :: nil
  | Balanced, Rows14 =>
      5.0 :: 2.5 :: 1.5 :: 1.0 :: 0.8 :: 0.6 :: 0.4 :: 0.2 :: 0.4 :: 0.6 :: 0.8 :: 1.0 ::
      1.5 :: 2.5 :: 5.0 :: nil
  | Balanced, Rows16 =>
      5.0 :: 2.5 :: 1.5 :: 1.0 :: 0.8 :: 0.6 :: 0.4 :: 0.3 :: 0.2 :: 0.3 :: 0.4 :: 0.6 ::
      0.8 :: 1.0 :: 1.5 :: 2.5 :: 5.0 :: nil
  | High, Rows8 =>
      15.0 :: 2.0 :: 0.5 :: 0.3 :: 0.2 :: 0.3 :: 0.5 :: 2.0 :: 15.0 :: nil
  | High, Rows10 =>
      25.0 :: 2.0 :: 0.5 :: 0.3 :: 0.2 :: 0.1 :: 0.2 :: 0.3 :: 0.5 :: 2.0 :: 25.0 :: nil
  | High, Rows12 =>
      50.0 :: 2.0 :: 0.5 :: 0.3 :: 0.2 :: 0.1 :: 0.1 :: 0.1 :: 0.2 :: 0.3 :: 0.5 :: 2.0 ::
      50.0 :: nil
  | High, Rows14 =>
      100.0 :: 2.0 :: 0.5 :: 0.3 :: 0.2 :: 0.1 :: 0.1 :: 0.1 :: 0.1 :: 0.1 :: 0.2 :: 0.3
      :: 0.5 :: 2.0 :: 100.0 :: nil
  | High, Rows16 =>
      200.0 :: 2.0 :: 0.5 :: 0.3 :: 0.2 :: 0.1 :: 0.1 :: 0.1 :: 0.1 :: 0.1 :: 0.1 :: 0.2
      :: 0.3 :: 0.5 :: 2.0 :: 200.0 :: nil
  end.

Definition generateSeed (riskMode : RiskMode) (rowCount : RowCount) : Z :=
  let modeSeed := match riskMode with Low => 100 | Balanced => 200 | High => 300 end%Z in
  (modeSeed + Z.of_nat (rowsOf rowCount))%Z.

Definition getSlotValues (riskMode : RiskMode) (rowCount : RowCount) : list Q :=
  let baseValues := BASE_SLOT_VALUES riskMode rowCount in
  let seed := generateSeed riskMode rowCount in
  shuffleArray baseValues seed.

Definition calculatePayout (betAmount : Q) (slotIndex : Z) (riskMode : RiskMode)
    (rowCount : RowCount) : Q :=
  payoutAt (getSlotValues riskMode rowCount) betAmount slotIndex.

End ShuffledPayouts.

(** ** src/unnamed/part_003: edge-heavy multipliers and expected return *)

Module EdgePayouts.

(** [SLOT_VALUES]: high multipliers on the edges, low in the centre. *)
Definition SLOT_VALUES (riskMode : RiskMode) (rowCount : RowCount) : list Q :=
  match riskMode, rowCount with
  | Low, Rows8 =>
      1.5 :: 1.2 :: 1.1 :: 1.0 :: 0.9 :: 1.0 :: 1.1 :: 1.2 :: 1.5 :: nil
  | Low, Rows10 =>
      1.6 :: 1.3 :: 1.1 :: 1.0 :: 0.9 :: 0.9 :: 0.9 :: 1.0 :: 1.1 :: 1.3 :: 1.6 :: nil
  | Low, Rows12 =>
      1.7 :: 1.4 :: 1.2 :: 1.0 :: 0.9 :: 0.8 :: 0.8 :: 0.8 :: 0.9 :: 1.0 :: 1.2 :: 1.4 ::
      1.7 :: nil
  | Low, Rows14 =>
      1.8 :: 1.4 :: 1.2 :: 1.1 :: 0.9 :: 0.8 :: 0.8 :: 0.7 :: 0.8 :: 0.8 :: 0.9 :: 1.1 ::
      1.2 :: 1.4 :: 1.8 :: nil
  | Low, Rows16 =>
      1.9 :: 1.5 :: 1.2 :: 1.1 :: 1.0 :: 0.9 :: 0.8 :: 0.7 :: 0.7 :: 0.7 :: 0.8 :: 0.9 ::
      1.0 :: 1.1 :: 1.2 :: 1.5 :: 1.9 :: nil
  | Balanced, Rows8 =>
      5.6 :: 2.1 :: 1.1 :: 0.5 :: 0.3 :: 0.5 :: 1.1 :: 2.1 :: 5.6 :: nil
  | Balanced, Rows10 =>
      8.9 :: 3.0 :: 1.4 :: 0.7 :: 0.4 :: 0.3 :: 0.4 :: 0.7 :: 1.4 :: 3.0 :: 8.9 :: nil
  | Balanced, Rows12 =>
      13.0 :: 4.0 :: 1.6 :: 0.9 :: 0.5 :: 0.3 :: 0.2 :: 0.3 :: 0.5 :: 0.9 :: 1.6 :: 4.0 ::
      13.0 :: nil
  | Balanced, Rows14 =>
      18.0 :: 5.2 :: 2.0 :: 1.0 :: 0.6 :: 0.3 :: 0.2 :: 0.2 :: 0.2 :: 0.3 :: 0.6 :: 1.0 ::
      2.0 :: 5.2 :: 18.0 :: nil
  | Balanced, Rows16 =>
      24.0 :: 6.5 :: 2.5 :: 1.2 :: 0.7 :: 0.4 :: 0.2 :: 0.2 :: 0.2 :: 0.2 :: 0.2 :: 0.4 ::
      0.7 :: 1.2 :: 2.5 :: 6.5 :: 24.0 :: nil
  | High, Rows8 =>
      29.0 :: 4.0 :: 0.6 :: 0.2 :: 0.1 :: 0.2 :: 0.6 :: 4.0 :: 29.0 :: nil
  | High, Rows10 =>
      76.0 :: 10.0 :: 1.0 :: 0.3 :: 0.1 :: 0.1 :: 0.1 :: 0.3 :: 1.0 :: 10.0 :: 76.0 :: nil
  | High, Rows12 =>
      170.0 :: 24.0 :: 2.0 :: 0.5 :: 0.2 :: 0.1 :: 0.1 :: 0.1 :: 0.2 :: 0.5 :: 2.0 :: 24.0
      :: 170.0 :: nil
  | High, Rows14 =>
      420.0 :: 56.0 :: 4.0 :: 0.8 :: 0.2 :: 0.1 :: 0.1 :: 0.1 :: 0.1 :: 0.1 :: 0.2 :: 0.8
      :: 4.0 :: 56.0 :: 420.0 :: nil
  | High, Rows16 =>
      1000.0 :: 130.0 :: 8.0 :: 1.2 :: 0.4 :: 0.1 :: 0.1 :: 0.1 :: 0.1 :: 0.1 :: 0.1 ::
      0.1 :: 0.4 :: 1.2 :: 8.0 :: 130.0 :: 1000.0 :: nil
  end.

Definition getSlotValues (riskMode : RiskMode) (rowCount : RowCount) : list Q :=
  SLOT_VALUES riskMode rowCount.

Definition calculatePayout (betAmount : Q) (slotIndex : Z) (riskMode : RiskMode)
    (rowCount : RowCount) : Q :=
  payoutAt (getSlotValues riskMode rowCount) betAmount slotIndex.

(** [ev += probabilities[i] * multipliers[i]] for [i < probabilities.length]. *)
Definition calculateExpectedReturn (riskMode : RiskMode) (rowCount : RowCount) : Q :=
  let probabilities := PayoutsBinomial.getSlotProbabilities (rowsOf rowCount) in
  let multipliers := SLOT_VALUES riskMode rowCount in
  fold_left (fun ev i => ev + nth i probabilities 0 * nth i multipliers 0)
            (seq 0 (length probabilities)) 0.

End EdgePayouts.

(** ** src/unnamed/part_001: centre-heavy multipliers *)

Module CentrePayouts.

(** [SLOT_VALUES]: high multipliers in the centre. *)
Definition SLOT_VALUES (riskMode : RiskMode) (rowCount : RowCount) : list Q :=
  match riskMode, rowCount with
  | Low, Rows8 =>
      1.1 :: 1.2 :: 1.4 :: 1.6 :: 2.1 :: 1.6 :: 1.4 :: 1.2 :: 1.1 :: nil
  | Low, Rows10 =>
      1.1 :: 1.1 :: 1.2 :: 1.3 :: 1.5 :: 1.8 :: 1.5 :: 1.3 :: 1.2 :: 1.1 :: 1.1 :: nil
  | Low, Rows12 =>
      1.1 :: 1.1 :: 1.1 :: 1.2 :: 1.3 :: 1.5 :: 2.0 :: 1.5 :: 1.3 :: 1.2 :: 1.1 :: 1.1 ::
      1.1 :: nil
  | Low, Rows14 =>
      1.0 :: 1.1 :: 1.1 :: 1.1 :: 1.2 :: 1.3 :: 1.5 :: 2.0 :: 1.5 :: 1.3 :: 1.2 :: 1.1 ::
      1.1 :: 1.1 :: 1.0 :: nil
  | Low, Rows16 =>
      1.0 :: 1.0 :: 1.1 :: 1.1 :: 1.1 :: 1.2 :: 1.3 :: 1.5 :: 2.0 :: 1.5 :: 1.3 :: 1.2 ::
      1.1 :: 1.1 :: 1.1 :: 1.0 :: 1.0 :: nil
  | Balanced, Rows8 =>
      0.5 :: 1.0 :: 1.5 :: 2.5 :: 5.0 :: 2.5 :: 1.5 :: 1.0 :: 0.5 :: nil
  | Balanced, Rows10 =>
      0.4 :: 0.7 :: 1.0 :: 1.5 :: 2.5 :: 5.0 :: 2.5 :: 1.5 :: 1.0 :: 0.7 :: 0.4 :: nil
  | Balanced, Rows12 =>
      0.3 :: 0.5 :: 0.8 :: 1.0 :: 1.5 :: 2.5 :: 5.0 :: 2.5 :: 1.5 :: 1.0 :: 0.8 :: 0.5 ::
      0.3 :: nil
  | Balanced, Rows14 =>
      0.2 :: 0.4 :: 0.6 :: 0.8 :: 1.0 :: 1.5 :: 2.5 :: 5.0 :: 2.5 :: 1.5 :: 1.0 :: 0.8 ::
      0.6 :: 0.4 :: 0.2 :: nil
  | Balanced, Rows16 =>
      0.2 :: 0.3 :: 0.4 :: 0.6 :: 0.8 :: 1.0 :: 1.5 :: 2.5 :: 5.0 :: 2.5 :: 1.5 :: 1.0 ::
      0.8 :: 0.6 :: 0.4 :: 0.3 :: 0.2 :: nil
  | High, Rows8 =>
      0.2 :: 0.3 :: 0.5 :: 2.0 :: 15.0 :: 2.0 :: 0.5 :: 0.3 :: 0.2 :: nil
  | High, Rows10 =>
      0.1 :: 0.2 :: 0.3 :: 0.5 :: 2.0 :: 25.0 :: 2.0 :: 0.5 :: 0.3 :: 0.2 :: 0.1 :: nil
  | High, Rows12 =>
      0.1 :: 0.1 :: 0.2 :: 0.3 :: 0.5 :: 2.0 :: 50.0 :: 2.0 :: 0.5 :: 0.3 :: 0.2 :: 0.1 ::
      0.1 :: nil
  | High, Rows14 =>
      0.1 :: 0.1 :: 0.1 :: 0.2 :: 0.3 :: 0.5 :: 2.0 :: 100.0 :: 2.0 :: 0.5 :: 0.3 :: 0.2
      :: 0.1 :: 0.1 :: 0.1 :: nil
  | High, Rows16 =>
      0.1 :: 0.1 :: 0.1 :: 0.1 :: 0.2 :: 0.3 :: 0.5 :: 2.0 :: 200.0 :: 2.0 :: 0.5 :: 0.3
      :: 0.2 :: 0.1 :: 0.1 :: 0.1 :: 0.1 :: nil
  end.

Definition getSlotValues (riskMode : RiskMode) (rowCount : RowCount) : list Q :=
  SLOT_VALUES riskMode rowCount.

Definition calculatePayout (betAmount : Q) (slotIndex : Z) (riskMode : RiskMode)
    (rowCount : RowCount) : Q :=
  payoutAt (getSlotValues riskMode rowCount) betAmount slotIndex.

End CentrePayouts.

(** ** Decidable shapes of a multiplier row *)

(** Every entry is at most the one before it. *)
Fixpoint nonIncreasing (l : list Q) : bool :=
  match l with
  | a :: (b :: _) as rest => Qle_bool b a && nonIncreasing rest
  | _ => true
  end.

(** The row reads the same from both ends. *)
Definition mirrored (l : list Q) : bool :=
  forallb (fun i => Qeq_bool (nth i l 0) (nth (length l - 1 - i) l 0)) (seq 0 (length l)).

(** No entry of the row exceeds the one at index [c]. *)
Definition peaksAt (c : nat) (l : list Q) : bool :=
  forallb (fun x => Qle_bool x (nth c l 0)) l.

(** ** Query surface of the engine (src/unnamed/part_006) *)

Record SlotPosition := mkSlotPosition { slotX : Q; slotSpan : Q }.

(** [getSlotPositions()]: [{ x, width }] per slot. *)
Definition getSlotPositions (e : Engine) : list SlotPosition :=
  let slotCount := (rows e + 1)%nat in
  let slotWidth := (width e - boardPadding e * 2) / ofNat slotCount in
  map (fun i => mkSlotPosition (boardPadding e + ofNat i * slotWidth) slotWidth)
      (seq 0 slotCount).

Record DropZone := mkDropZone { zoneX : Q; zoneY : Q; zoneWidth : Q }.

Definition getDropZone (e : Engine) : DropZone :=
  let safeMargin := chipRadius e + pegRadius e + 10 in
  let minX := boardPadding e + safeMargin in
  let maxX := width e - boardPadding e - safeMargin in
  let firstPegY := pegSpacingY e * 1.5 in
  let dropY := Math_max (chipRadius e * 1.5) (firstPegY - chipRadius e * 4) in
  mkDropZone minX dropY (maxX - minX).

Definition getDimensions (e : Engine) : Q * Q := (width e, height e).

(** [getRandomizedChipPhysics()] from its two [Math.random()] values:
    restitution and friction. *)
Definition getRandomizedChipPhysics (randRestitution randFriction : Q) : Q * Q :=
  let restitution := 0.65 + (randRestitution - 0.5) * 2 * 0.15 in
  let friction := 0.08 + (randFriction - 0.5) * 2 * 0.04 in
  (Math_max 0.3 (Math_min 0.9 restitution), Math_max 0.02 (Math_min 0.15 friction)).

(** Number of pegs in the rows above [row]: row r holds r + 3 pegs. *)
Fixpoint pegsBefore (row : nat) : nat :=
  match row with
  | O => O
  | S r => (pegsBefore r + (r + 3))%nat
  end.

(** Frames and interval firings, the two host callbacks that check
    [isDestroyed] themselves. *)
Definition isGuardedCallback (ev : Event) : bool :=
  match ev with
  | EvFrame _ _ | EvInterval _ _ _ => true
  | _ => false
  end.

(** A chip at rest for a second, and the draws of one intervention. *)
Definition sampleStuckData : ChipData :=
  mkChipData "a" None false 0 (Some (mkVec 100 200)) (Some 1000%Z).

Definition sampleStuckBody : Body :=
  mkBody (chipLabel "a") (mkVec 100 200) (mkVec 0 0) (mkVec 0 0) 0.

Definition sampleUnstickDraws : UnstickDraws := mkUnstickDraws 1 0 0.5 0.5.

(** Bodies that are not the body of a registered chip in flight. *)
Definition outOfPlay (e : Engine) (b : Body) : Prop :=
  forall id chipData,
    chips e !! id = Some chipData -> hasLanded chipData = false -> label b <> chipLabel id.


(** ** Game store (src/unnamed/part_007) *)

Module GameStore.

Record GameSettings := mkGameSettings {
  soundEnabled : bool;
  reducedMotion : bool;
  deterministicMode : bool;
  darkMode : bool
}.

(** [Partial<GameSettings>]. *)
Record SettingsPatch := mkSettingsPatch {
  patchSound : option bool;
  patchMotion : option bool;
  patchDeterministic : option bool;
  patchDark : option bool
}.

Record DropResult := mkDropResult {
  resultId : string;
  timestamp : Z;
  slotIndex : nat;
  multiplier : Q;
  resultBet : Q;
  payout : Q;
  resultRiskMode : RiskMode;
  resultRowCount : RowCount;
  sessionId : string
}.

Record GameStats := mkGameStats {
  totalDrops : nat;
  totalWon : Q;
  totalBet : Q;
  bestPayout : Q;
  slotHistory : list nat
}.

Record BatchDropState := mkBatchDropState {
  isRunning : bool;
  batchTotal : Z;
  completedDrops : nat;
  results : list DropResult
}.

Record GameState := mkGameState {
  balance : Q;
  betAmount : Q;
  riskMode : RiskMode;
  rowCount : RowCount;
  settings : GameSettings;
  stats : GameStats;
  history : list DropResult;       (* newest first *)
  batchDrop : BatchDropState;
  activeChips : nat;
  lastResult : option DropResult;
  highlightedSlot : option nat;
  currentSessionId : option string;
  sessionChipCount : Z
}.

Definition MAX_HISTORY_LENGTH : nat := 50.
Definition MAX_ACTIVE_CHIPS : nat := 200.
Definition INITIAL_BALANCE : Q := 10000.

Definition getSlotCount (rowCount : RowCount) : nat := (rowsOf rowCount + 1)%nat.

Definition initialState : GameState :=
  mkGameState INITIAL_BALANCE 100 Balanced Rows12
    (mkGameSettings false false false false)
    (mkGameStats 0 0 0 0 nil) nil
    (mkBatchDropState false 0 0 nil)
    0 None None None 0.

Definition withBalance (s : GameState) (b : Q) : GameState :=
  mkGameState b (betAmount s) (riskMode s) (rowCount s) (settings s) (stats s) (history s)
    (batchDrop s) (activeChips s) (lastResult s) (highlightedSlot s) (currentSessionId s)
    (sessionChipCount s).

Definition withStats (s : GameState) (st : GameStats) : GameState :=
  mkGameState (balance s) (betAmount s) (riskMode s) (rowCount s) (settings s) st (history s)
    (batchDrop s) (activeChips s) (lastResult s) (highlightedSlot s) (currentSessionId s)
    (sessionChipCount s).

Definition withBatchDrop (s : GameState) (b : BatchDropState) : GameState :=
  mkGameState (balance s) (betAmount s) (riskMode s) (rowCount s) (settings s) (stats s)
    (history s) b (activeChips s) (lastResult s) (highlightedSlot s) (currentSessionId s)
    (sessionChipCount s).

Definition withActiveChips (s : GameState) (n : nat) : GameState :=
  mkGameState (balance s) (betAmount s) (riskMode s) (rowCount s) (settings s) (stats s)
    (history s) (batchDrop s) n (lastResult s) (highlightedSlot s) (currentSessionId s)
    (sessionChipCount s).

Definition setBalance (b : Q) (s : GameState) : GameState := withBalance s b.

Definition setBetAmount (amount : Q) (s : GameState) : GameState :=
  mkGameState (balance s) (Math_max 1 amount) (riskMode s) (rowCount s) (settings s) (stats s)
    (history s) (batchDrop s) (activeChips s) (lastResult s) (highlightedSlot s)
    (currentSessionId s) (sessionChipCount s).

Definition setRiskMode (mode : RiskMode) (s : GameState) : GameState :=
  mkGameState (balance s) (betAmount s) mode (rowCount s) (settings s) (stats s)
    (history s) (batchDrop s) (activeChips s) (lastResult s) (highlightedSlot s)
    (currentSessionId s) (sessionChipCount s).

Definition setRowCount (count : RowCount) (s : GameState) : GameState :=
  let st := stats s in
  mkGameState (balance s) (betAmount s) (riskMode s) count (settings s)
    (mkGameStats (totalDrops st) (totalWon st) (totalBet st) (bestPayout st)
       (repeat O (getSlotCount count)))
    (history s) (batchDrop s) (activeChips s) (lastResult s) (highlightedSlot s)
    (currentSessionId s) (sessionChipCount s).

Definition updateSettings (p : SettingsPatch) (s : GameState) : GameState :=
  let old := settings s in
  mkGameState (balance s) (betAmount s) (riskMode s) (rowCount s)
    (mkGameSettings (default (soundEnabled old) (patchSound p))
                    (default (reducedMotion old) (patchMotion p))
                    (default (deterministicMode old) (patchDeterministic p))
                    (default (darkMode old) (patchDark p)))
    (stats s) (history s) (batchDrop s) (activeChips s) (lastResult s) (highlightedSlot s)
    (currentSessionId s) (sessionChipCount s).

(** [startNewSession(chipCount)]; [newId] is the identifier it generates. *)
Definition startNewSession (newId : string) (chipCount : Z) (s : GameState)
    : GameState * string :=
  (mkGameState (balance s) (betAmount s) (riskMode s) (rowCount s) (settings s) (stats s)
     (history s) (batchDrop s) (activeChips s) (lastResult s) (highlightedSlot s)
     (Some newId) chipCount,
   newId).

Definition placeBet (s : GameState) : GameState * bool :=
  if Qltb (balance s) (betAmount s) then (s, false)
  else if (MAX_ACTIVE_CHIPS <=? activeChips s)%nat then (s, false)
  else (withBalance s (balance s - betAmount s), true).

(** What [recordResult] generates: a session identifier (used when there is
    no current one), the result identifier and [Date.now()]. *)
Record ResultDraws := mkResultDraws {
  drawSessionId : string;
  drawResultId : string;
  drawNow : Z
}.

(** Truthiness of [currentSessionId]: [null] and the empty string are falsy. *)
Definition sessionOr (current : option string) (generated : string) : string :=
  match current with
  | Some (String c rest) => String c rest
  | _ => generated
  end.

(** The copy of [slotHistory], padded with zeros up to [slotIndex], with the
    entry at [slotIndex] incremented. *)
Definition bumpSlot (slotHistory : list nat) (slotIndex : nat) : list nat :=
  let padded := slotHistory ++ repeat O (S slotIndex - length slotHistory) in
  <[slotIndex := S (nth slotIndex padded O)]> padded.

Section WithPayouts.

(** [calculatePayout] as imported from "@/utils/payouts". *)
Variable calculatePayout : Q -> Z -> RiskMode -> RowCount -> Q.

Definition recordResult (d : ResultDraws) (slotIdx : nat) (s : GameState)
    : GameState * DropResult :=
  let st := stats s in
  let pay := calculatePayout (betAmount s) (Z.of_nat slotIdx) (riskMode s) (rowCount s) in
  let session := sessionOr (currentSessionId s) (drawSessionId d) in
  let result :=
    mkDropResult (drawResultId d) (drawNow d) slotIdx (pay / betAmount s) (betAmount s) pay
      (riskMode s) (rowCount s) session in
  let newSlotHistory := bumpSlot (slotHistory st) slotIdx in
  let remainingChips := Z.max 0 (sessionChipCount s - 1) in
  (mkGameState (balance s + pay) (betAmount s) (riskMode s) (rowCount s) (settings s)
     (mkGameStats (S (totalDrops st)) (totalWon st + pay) (totalBet st + betAmount s)
        (Math_max (bestPayout st) pay) newSlotHistory)
     (firstn MAX_HISTORY_LENGTH (result :: history s))
     (batchDrop s) (activeChips s) (Some result) (highlightedSlot s)
     (if (remainingChips =? 0)%Z then None else currentSessionId s)
     remainingChips,
   result).

End WithPayouts.

Definition incrementActiveChips (s : GameState) : GameState :=
  withActiveChips s (activeChips s + 1).

Definition decrementActiveChips (s : GameState) : GameState :=
  withActiveChips s (Nat.max 0 (activeChips s - 1)).

Definition setHighlightedSlot (slot : option nat) (s : GameState) : GameState :=
  mkGameState (balance s) (betAmount s) (riskMode s) (rowCount s) (settings s) (stats s)
    (history s) (batchDrop s) (activeChips s) (lastResult s) slot (currentSessionId s)
    (sessionChipCount s).

Definition startBatchDrop (newId : string) (count : Z) (s : GameState) : GameState :=
  withBatchDrop (fst (startNewSession newId count s)) (mkBatchDropState true count 0 nil).

Definition updateBatchProgress (s : GameState) : GameState :=
  let b := batchDrop s in
  withBatchDrop s (mkBatchDropState (isRunning b) (batchTotal b) (completedDrops b + 1)
                                    (results b)).

Definition endBatchDrop (s : GameState) : GameState :=
  let b := batchDrop s in
  withBatchDrop s (mkBatchDropState false (batchTotal b) (completedDrops b) (results b)).

Definition addBatchResult (r : DropResult) (s : GameState) : GameState :=
  let b := batchDrop s in
  withBatchDrop s (mkBatchDropState (isRunning b) (batchTotal b) (completedDrops b)
                                    (results b ++ r :: nil)).

Definition clearHistory (s : GameState) : GameState :=
  mkGameState (balance s) (betAmount s) (riskMode s) (rowCount s) (settings s) (stats s)
    nil (batchDrop s) (activeChips s) (lastResult s) (highlightedSlot s) (currentSessionId s)
    (sessionChipCount s).

Definition resetStats (s : GameState) : GameState :=
  withStats s (mkGameStats 0 0 0 0 (repeat O (getSlotCount (rowCount s)))).

Definition getSimulationMode (s : GameState) : SimulationMode :=
  if deterministicMode (settings s) then Deterministic else Physics.

(** The actions of the store, and the two places that pair them:
    the drop handlers of the control panel ([placeBet] and, if it accepts,
    [incrementActiveChips]) and the landing handler of the board
    ([recordResult], [decrementActiveChips], [setHighlightedSlot]). *)
Inductive Action :=
| SetBalance (b : Q)
| SetBetAmount (amount : Q)
| SetRiskMode (mode : RiskMode)
| SetRowCount (count : RowCount)
| UpdateSettings (p : SettingsPatch)
| StartNewSession (newId : string) (chipCount : Z)
| PlaceBet
| RecordResult (d : ResultDraws) (slotIdx : nat)
| IncrementActiveChips
| DecrementActiveChips
| SetHighlightedSlot (slot : option nat)
| StartBatchDrop (newId : string) (count : Z)
| UpdateBatchProgress
| EndBatchDrop
| AddBatchResult (r : DropResult)
| ClearHistory
| ResetStats
| PanelDropChip (newId : string)
| PanelDropNext
| BoardSlotLanded (d : ResultDraws) (slotIdx : nat).

(** [dropChip] of the control panel, as far as the store is concerned. *)
Definition panelDropChip (newId : string) (s : GameState) : GameState :=
  if negb (Qle_bool (betAmount s) (balance s)) then s
  else
    let s1 := fst (startNewSession newId 1 s) in
    let '(s2, accepted) := placeBet s1 in
    if accepted then incrementActiveChips s2 else s2.

(** One round of [dropNext] of the control panel before the batch is
    complete. *)
Definition panelDropNext (s : GameState) : GameState :=
  let '(s1, accepted) := placeBet s in
  if accepted then updateBatchProgress (incrementActiveChips s1) else endBatchDrop s1.

Definition dispatch (calculatePayout : Q -> Z -> RiskMode -> RowCount -> Q)
    (s : GameState) (a : Action) : GameState :=
  match a with
  | SetBalance b => setBalance b s
  | SetBetAmount amount => setBetAmount amount s
  | SetRiskMode mode => setRiskMode mode s
  | SetRowCount count => setRowCount count s
  | UpdateSettings p => updateSettings p s
  | StartNewSession newId chipCount => fst (startNewSession newId chipCount s)
  | PlaceBet => fst (placeBet s)
  | RecordResult d slotIdx => fst (recordResult calculatePayout d slotIdx s)
  | IncrementActiveChips => incrementActiveChips s
  | DecrementActiveChips => decrementActiveChips s
  | SetHighlightedSlot slot => setHighlightedSlot slot s
  | StartBatchDrop newId count => startBatchDrop newId count s
  | UpdateBatchProgress => updateBatchProgress s
  | EndBatchDrop => endBatchDrop s
  | AddBatchResult r => addBatchResult r s
  | ClearHistory => clearHistory s
  | ResetStats => resetStats s
  | PanelDropChip newId => panelDropChip newId s
  | PanelDropNext => panelDropNext s
  | BoardSlotLanded d slotIdx =>
      setHighlightedSlot (Some slotIdx)
        (decrementActiveChips (fst (recordResult calculatePayout d slotIdx s)))
  end.

Definition runStore (calculatePayout : Q -> Z -> RiskMode -> RowCount -> Q)
    (s : GameState) (trace : list Action) : GameState :=
  fold_left (dispatch calculatePayout) trace s.

Definition isSetBalance (a : Action) : bool :=
  match a with SetBalance _ => true | _ => false end.

Definition isSetRowCount (a : Action) : bool :=
  match a with SetRowCount _ => true | _ => false end.

Definition isIncrement (a : Action) : bool :=
  match a with IncrementActiveChips => true | _ => false end.

Definition sumNat (l : list nat) : nat := fold_right Nat.add O l.

(** A run of landings, with the results [recordResult] returned, oldest
    first. *)
Fixpoint recordAll (calculatePayout : Q -> Z -> RiskMode -> RowCount -> Q)
    (landings : list (ResultDraws * nat)) (s : GameState) : GameState * list DropResult :=
  match landings with
  | nil => (s, nil)
  | (d, slotIdx) :: rest =>
      let '(s1, r) := recordResult calculatePayout d slotIdx s in
      let '(s2, rs) := recordAll calculatePayout rest s1 in
      (s2, r :: rs)
  end.

Definition sampleDraws : ResultDraws := mkResultDraws "session-x" "r1" 1000.

End GameStore.

(** * Properties *)

(** ** Pascal's triangle *)

Section Choose.

Local Open Scope nat_scope.

Lemma choose_0_r n : choose n 0 = 1.
Proof. destruct n; reflexivity. Qed.

Lemma choose_gt n : forall k, n < k -> choose n k = 0.
Proof.
  induction n as [|n IH]; intros [|k] Hk; simpl; try lia.
  rewrite !IH by lia. reflexivity.
Qed.

Lemma choose_diag n : choose n n = 1.
Proof.
  induction n as [|n IH]; simpl; [reflexivity|].
  rewrite IH, choose_gt by lia. reflexivity.
Qed.

Lemma choose_pos n : forall k, k <= n -> 0 < choose n k.
Proof.
  induction n as [|n IH]; intros [|k] Hk; simpl; try lia.
  specialize (IH k). lia.
Qed.

(** The absorption identity behind the multiplicative loop. *)
Lemma choose_absorb n : forall k, choose n (S k) * S k = choose n k * (n - k).
Proof.
  induction n as [|n IH]; intros k.
  - simpl. lia.
  - destruct k as [|k].
    + pose proof (IH 0) as H0. rewrite choose_0_r in *.
      change (choose (S n) 1) with (choose n 0 + choose n 1).
      rewrite choose_0_r. lia.
    + change (choose (S n) (S (S k))) with (choose n (S k) + choose n (S (S k))).
      change (choose (S n) (S k)) with (choose n k + choose n (S k)).
      pose proof (IH k) as H1. pose proof (IH (S k)) as H2.
      destruct (Nat.le_gt_cases n k) as [Hle|Hlt].
      * rewrite (choose_gt n (S k)), (choose_gt n (S (S k))) in * by lia.
        replace (S n - S k) with 0 by lia. lia.
      * replace (S n - S k) with (n - k) by lia.
        replace (n - k) with (S (n - S k)) in * by lia. nia.
Qed.

Lemma choose_sym n : forall k, k <= n -> choose n (n - k) = choose n k.
Proof.
  induction n as [|n IH]; intros k Hk.
  - replace k with 0 by lia. reflexivity.
  - destruct k as [|k].
    + rewrite Nat.sub_0_r, choose_diag. reflexivity.
    + destruct (Nat.eq_dec k n) as [->|Hne].
      * rewrite Nat.sub_diag, choose_diag. reflexivity.
      * replace (S n - S k) with (S (n - S k)) by lia.
        simpl. rewrite (IH (S k)) by lia.
        replace (S (n - S k)) with (n - k) by lia.
        rewrite (IH k) by lia. lia.
Qed.

(** Rows of the triangle increase up to the middle. *)
Lemma choose_step_le n k : 2 * k + 1 <= n -> choose n k <= choose n (S k).
Proof.
  intros Hk. pose proof (choose_absorb n k) as H.
  assert (Hge : S k <= n - k) by lia. nia.
Qed.

Lemma choose_mono_left n : forall j k, k <= j -> 2 * j <= n + 1 -> choose n k <= choose n j.
Proof.
  induction j as [|j IH]; intros k Hkj Hj.
  - replace k with 0 by lia. lia.
  - destruct (Nat.eq_dec k (S j)) as [->|Hne]; [lia|].
    transitivity (choose n j); [apply IH; lia | apply choose_step_le; lia].
Qed.

Lemma choose_center_max n k : choose n k <= choose n ((n + 1) / 2).
Proof.
  pose proof (Nat.div_mod_eq (n + 1) 2) as Hd.
  pose proof (Nat.mod_upper_bound (n + 1) 2) as Hm.
  destruct (Nat.le_gt_cases k ((n + 1) / 2)) as [Hle|Hgt].
  - apply choose_mono_left; lia.
  - destruct (Nat.le_gt_cases k n) as [Hkn|Hkn].
    + rewrite <- (choose_sym n k) by lia. apply choose_mono_left; lia.
    + rewrite choose_gt by lia. lia.
Qed.

(** Partial row sums and the row total 2^n. *)
Lemma chooseSum_succ n : forall m, chooseSum (S n) (S m) = chooseSum n m + chooseSum n (S m).
Proof.
  induction m as [|m IH].
  - simpl. rewrite choose_0_r. reflexivity.
  - change (chooseSum (S n) (S (S m))) with (chooseSum (S n) (S m) + choose (S n) (S m)).
    rewrite IH. simpl. lia.
Qed.

Lemma chooseSum_row n : chooseSum n (S n) = 2 ^ n.
Proof.
  induction n as [|n IH]; [reflexivity|].
  rewrite chooseSum_succ.
  change (chooseSum n (S (S n))) with (chooseSum n (S n) + choose n (S n)).
  rewrite IH, choose_gt by lia. simpl. lia.
Qed.

End Choose.

(** ** Exact arithmetic helpers *)

Lemma ofNat_add a b : ofNat (a + b) == ofNat a + ofNat b.
Proof. unfold ofNat. rewrite Nat2Z.inj_add, inject_Z_plus. reflexivity. Qed.

Lemma ofNat_mul a b : ofNat (a * b) == ofNat a * ofNat b.
Proof. unfold ofNat. rewrite Nat2Z.inj_mul, inject_Z_mult. reflexivity. Qed.

Lemma ofNat_sub a b : (b <= a)%nat -> ofNat (a - b) == ofNat a - ofNat b.
Proof.
  intros H. unfold ofNat. rewrite Nat2Z.inj_sub by exact H.
  unfold Z.sub. rewrite inject_Z_plus, inject_Z_opp. reflexivity.
Qed.

Lemma ofNat_S a : ofNat (S a) == ofNat a + 1.
Proof. replace (S a) with (a + 1)%nat by lia. rewrite ofNat_add. reflexivity. Qed.

Lemma ofNat_nonneg a : 0 <= ofNat a.
Proof. unfold ofNat. change 0 with (inject_Z 0). rewrite <- Zle_Qle. lia. Qed.

Lemma ofNat_le a b : (a <= b)%nat -> ofNat a <= ofNat b.
Proof. intros H. unfold ofNat. rewrite <- Zle_Qle. lia. Qed.

Lemma ofNat_pos a : (0 < a)%nat -> 0 < ofNat a.
Proof. intros H. unfold ofNat. change 0 with (inject_Z 0). rewrite <- Zlt_Qlt. lia. Qed.

Lemma ofNat_pow2_pos n : 0 < ofNat (2 ^ n).
Proof. apply ofNat_pos. apply Nat.neq_0_lt_0, Nat.pow_nonzero. discriminate. Qed.

Lemma sumQ_snoc l x : sumQ (l ++ x :: nil) = sumQ l + x.
Proof. unfold sumQ. rewrite fold_left_app. reflexivity. Qed.

Lemma seq_snoc m : seq 0 (S m) = seq 0 m ++ m :: nil.
Proof. rewrite seq_S. reflexivity. Qed.

Lemma sumQ_seq_S (f : nat -> Q) m :
  sumQ (map f (seq 0 (S m))) = sumQ (map f (seq 0 m)) + f m.
Proof. rewrite seq_snoc, map_app. simpl. apply sumQ_snoc. Qed.

(** A list whose entries are known pointwise sums like the pointwise values. *)
Lemma sumQ_pointwise (f : nat -> Q) : forall l,
  (forall i, (i < length l)%nat -> nth i l 0 == f i) ->
  sumQ l == sumQ (map f (seq 0 (length l))).
Proof.
  induction l as [|x l IH] using rev_ind; intros H.
  - reflexivity.
  - rewrite length_app, Nat.add_comm. simpl length. change (1 + length l)%nat with (S (length l)).
    rewrite sumQ_seq_S, sumQ_snoc.
    rewrite IH.
    + rewrite <- (H (length l)).
      * rewrite app_nth2, Nat.sub_diag by lia. reflexivity.
      * rewrite length_app. simpl. lia.
    + intros i Hi. rewrite <- H.
      * rewrite app_nth1 by lia. reflexivity.
      * rewrite length_app. simpl. lia.
Qed.

Lemma sumQ_seq_ext (f g : nat -> Q) m :
  (forall i, (i < m)%nat -> f i == g i) ->
  sumQ (map f (seq 0 m)) == sumQ (map g (seq 0 m)).
Proof.
  induction m as [|m IH]; intros H; [reflexivity|].
  rewrite !sumQ_seq_S, IH, (H m) by (intros; auto with arith). reflexivity.
Qed.

Lemma sumQ_seq_affine (f : nat -> Q) a c m :
  sumQ (map (fun i => a * f i + c) (seq 0 m)) == a * sumQ (map f (seq 0 m)) + ofNat m * c.
Proof.
  induction m as [|m IH].
  - unfold sumQ, ofNat. simpl. ring.
  - rewrite !sumQ_seq_S, IH, ofNat_S. ring.
Qed.

Lemma sumQ_choose n m : sumQ (map (fun i => ofNat (choose n i)) (seq 0 m)) == ofNat (chooseSum n m).
Proof.
  induction m as [|m IH]; [reflexivity|].
  rewrite sumQ_seq_S, IH. simpl chooseSum. rewrite ofNat_add. reflexivity.
Qed.

(** ** [binomialCoefficient] computes Pascal's triangle exactly *)

Lemma binomialLoop_compat n : forall steps i r1 r2,
  r1 == r2 -> binomialLoop n i steps r1 == binomialLoop n i steps r2.
Proof.
  induction steps as [|s IH]; intros i r1 r2 H; simpl; [exact H|].
  apply IH. rewrite H. reflexivity.
Qed.

Lemma binomialLoop_choose n : forall steps i,
  (i + steps <= n)%nat ->
  binomialLoop n i steps (ofNat (choose n i)) == ofNat (choose n (i + steps)).
Proof.
  induction steps as [|s IH]; intros i H; simpl.
  - rewrite Nat.add_0_r. reflexivity.
  - replace (i + S s)%nat with (S i + s)%nat by lia.
    rewrite <- IH by lia. apply binomialLoop_compat.
    assert (Hab : ofNat (choose n (S i)) * (ofNat i + 1) == ofNat (choose n i) * (ofNat n - ofNat i)).
    { rewrite <- ofNat_S, <- ofNat_sub, <- !ofNat_mul by lia.
      rewrite choose_absorb. reflexivity. }
    rewrite <- Hab. field.
    pose proof (ofNat_nonneg i). lra.
Qed.

Lemma binomialCoefficient_choose n k : binomialCoefficient n k == ofNat (choose n k).
Proof.
  unfold binomialCoefficient.
  destruct (Nat.ltb_spec n k) as [Hlt|Hle].
  - rewrite choose_gt by exact Hlt. reflexivity.
  - destruct (Nat.eqb_spec k 0) as [->|Hk0]; simpl.
    + rewrite choose_0_r. reflexivity.
    + destruct (Nat.eqb_spec k n) as [->|Hkn].
      * rewrite choose_diag. reflexivity.
      * pose proof (binomialLoop_choose n k 0) as H.
        rewrite choose_0_r in H. apply H. lia.
Qed.

Lemma sumQ_binomialCoefficient n :
  sumQ (map (binomialCoefficient n) (seq 0 (getSlotCount n))) == ofNat (2 ^ n).
Proof.
  rewrite (sumQ_seq_ext _ (fun i => ofNat (choose n i))) by (intros; apply binomialCoefficient_choose).
  rewrite sumQ_choose. unfold getSlotCount. rewrite Nat.add_1_r, chooseSum_row. reflexivity.
Qed.

(** ** Closed forms of the three revisions of [getSlotProbabilities] *)

Lemma nth_map_seq (f : nat -> Q) m i : (i < m)%nat -> nth i (map f (seq 0 m)) 0 = f i.
Proof.
  intros H. rewrite (nth_indep _ 0 (f O)) by (rewrite length_map, length_seq; exact H).
  rewrite map_nth, seq_nth by exact H. reflexivity.
Qed.

Lemma imap_map_seq {A B} (f : nat -> A -> B) (g : nat -> A) m :
  imap f (map g (seq 0 m)) = map (fun i => f i (g i)) (seq 0 m).
Proof.
  induction m as [|m IH]; [reflexivity|].
  rewrite seq_snoc, !map_app, imap_app, IH, length_map, length_seq.
  simpl. rewrite Nat.add_0_r. reflexivity.
Qed.

Lemma nth_repeat_lt (u : Q) m i : (i < m)%nat -> nth i (repeat u m) 0 = u.
Proof.
  revert i. induction m as [|m IH]; intros [|i] H; simpl; try lia; auto with arith.
Qed.

Lemma PayoutsBinomial_length n :
  length (PayoutsBinomial.getSlotProbabilities n) = getSlotCount n.
Proof. unfold PayoutsBinomial.getSlotProbabilities. rewrite length_map, length_seq. reflexivity. Qed.

Lemma PayoutsBinomial_nth n i : (i <= n)%nat ->
  nth i (PayoutsBinomial.getSlotProbabilities n) 0 == binomialForm n i.
Proof.
  intros H. unfold PayoutsBinomial.getSlotProbabilities, getSlotCount, binomialForm.
  rewrite nth_map_seq by lia. rewrite binomialCoefficient_choose. reflexivity.
Qed.

Lemma PayoutsNormalized_length n :
  length (PayoutsNormalized.getSlotProbabilities n) = getSlotCount n.
Proof.
  unfold PayoutsNormalized.getSlotProbabilities. rewrite !length_map, length_seq. reflexivity.
Qed.

Lemma PayoutsNormalized_nth n i : (i <= n)%nat ->
  nth i (PayoutsNormalized.getSlotProbabilities n) 0 == binomialForm n i.
Proof.
  intros H. unfold PayoutsNormalized.getSlotProbabilities, binomialForm.
  rewrite map_map, nth_map_seq by (unfold getSlotCount; lia).
  rewrite sumQ_binomialCoefficient, binomialCoefficient_choose. reflexivity.
Qed.

Lemma Payouts_unfold n :
  Payouts.getSlotProbabilities n =
  let mixed := fun i =>
    binomialCoefficient n i / sumQ (map (binomialCoefficient n) (seq 0 (getSlotCount n)))
      * Payouts.mixRatio + 1 / ofNat (getSlotCount n) * (1 - Payouts.mixRatio) in
  map (fun i => mixed i / sumQ (map mixed (seq 0 (getSlotCount n)))) (seq 0 (getSlotCount n)).
Proof.
  unfold Payouts.getSlotProbabilities. cbv zeta.
  rewrite map_map, imap_map_seq.
  set (T := sumQ (map (binomialCoefficient n) (seq 0 (getSlotCount n)))).
  set (u := 1 / ofNat (getSlotCount n)).
  assert (E : map (fun i => binomialCoefficient n i / T * Payouts.mixRatio
                            + nth i (repeat u (getSlotCount n)) 0 * (1 - Payouts.mixRatio))
                  (seq 0 (getSlotCount n))
              = map (fun i => binomialCoefficient n i / T * Payouts.mixRatio
                            + u * (1 - Payouts.mixRatio)) (seq 0 (getSlotCount n))).
  { apply map_ext_in. intros i Hi. apply in_seq in Hi.
    rewrite nth_repeat_lt by lia. reflexivity. }
  rewrite E, map_map. reflexivity.
Qed.

Lemma Payouts_length n : length (Payouts.getSlotProbabilities n) = getSlotCount n.
Proof. rewrite Payouts_unfold. cbv zeta. rewrite length_map, length_seq. reflexivity. Qed.

Lemma Payouts_mixed_total n :
  sumQ (map (fun i =>
    binomialCoefficient n i / sumQ (map (binomialCoefficient n) (seq 0 (getSlotCount n)))
      * Payouts.mixRatio + 1 / ofNat (getSlotCount n) * (1 - Payouts.mixRatio))
    (seq 0 (getSlotCount n))) == 1.
Proof.
  pose proof (ofNat_pow2_pos n) as Hp.
  assert (Hs : 0 < ofNat (getSlotCount n)) by (apply ofNat_pos; unfold getSlotCount; lia).
  rewrite (sumQ_seq_ext _ (fun i => (Payouts.mixRatio / ofNat (2 ^ n)) * binomialCoefficient n i
                                    + 1 / ofNat (getSlotCount n) * (1 - Payouts.mixRatio))).
  - rewrite sumQ_seq_affine, sumQ_binomialCoefficient. unfold Payouts.mixRatio. field. lra.
  - intros i _. rewrite sumQ_binomialCoefficient. field. lra.
Qed.

Lemma Payouts_nth n i : (i <= n)%nat ->
  nth i (Payouts.getSlotProbabilities n) 0 == flattenedForm n i.
Proof.
  intros H. rewrite Payouts_unfold. cbv zeta.
  rewrite nth_map_seq by (unfold getSlotCount; lia). cbv beta.
  rewrite Payouts_mixed_total, sumQ_binomialCoefficient, binomialCoefficient_choose.
  unfold flattenedForm, Payouts.mixRatio, getSlotCount.
  pose proof (ofNat_pow2_pos n) as Hp.
  assert (Hs : 0 < ofNat (n + 1)) by (apply ofNat_pos; lia).
  field. lra.
Qed.

(** ** Laws shared by every distribution of the form [a * C(n,i)/2^n + c] *)

Lemma binomialForm_total n : sumQ (map (binomialForm n) (seq 0 (n + 1))) == 1.
Proof.
  pose proof (ofNat_pow2_pos n) as Hp.
  rewrite (sumQ_seq_ext _ (fun i => (1 / ofNat (2 ^ n)) * ofNat (choose n i) + 0)).
  - rewrite sumQ_seq_affine, sumQ_choose, Nat.add_1_r, chooseSum_row. field. lra.
  - intros i _. unfold binomialForm. field. lra.
Qed.

Lemma binomialForm_sym n i : (i <= n)%nat -> binomialForm n (n - i) == binomialForm n i.
Proof. intros H. unfold binomialForm. rewrite choose_sym by exact H. reflexivity. Qed.

Lemma binomialForm_center n i : binomialForm n i <= binomialForm n ((n + 1) / 2).
Proof.
  unfold binomialForm, Qdiv. apply Qmult_le_compat_r.
  - apply ofNat_le, choose_center_max.
  - apply Qinv_le_0_compat, Qlt_le_weak, ofNat_pow2_pos.
Qed.

Lemma affine_binomial_laws n probs a c :
  length probs = getSlotCount n ->
  (forall i, (i <= n)%nat -> nth i probs 0 == a * binomialForm n i + c) ->
  0 <= a -> a + ofNat (n + 1) * c == 1 ->
  distributionLaws n probs.
Proof.
  intros Hlen Hnth Ha Hac. unfold distributionLaws, getSlotCount in *. cbv zeta.
  split; [exact Hlen|]. split; [|split].
  - rewrite (sumQ_pointwise (fun i => a * binomialForm n i + c)).
    + rewrite Hlen, sumQ_seq_affine, binomialForm_total.
      transitivity (a + ofNat (n + 1) * c); [ring | exact Hac].
    + intros i Hi. apply Hnth. lia.
  - intros i Hi. rewrite !Hnth by lia.
    replace (n + 1 - 1 - i)%nat with (n - i)%nat by lia.
    rewrite binomialForm_sym by lia. reflexivity.
  - intros i Hi.
    assert (Hc : ((n + 1) / 2 <= n)%nat).
    { pose proof (Nat.div_mod_eq (n + 1) 2). pose proof (Nat.mod_upper_bound (n + 1) 2).
      destruct n; [reflexivity | lia]. }
    rewrite !Hnth by lia.
    pose proof (binomialForm_center n i) as Hm. nra.
Qed.

(** ** The probability model (claims C5, C6) *)

(** C5, as amended.  The revision of [src/unnamed/part_003] (and the one of
    [src/unnamed/part_001]) returns at slot [i] exactly C(n,i) / 2^n; the
    revision of [src/plinko/src/utils/payouts.ts] flattens that value on
    purpose and returns 0.3 * C(n,i) / 2^n + 0.7 / (n + 1). *)
Theorem getSlotProbabilities_closed_form (n i : nat) :
  (i <= n)%nat ->
  nth i (PayoutsBinomial.getSlotProbabilities n) 0 == ofNat (choose n i) / ofNat (2 ^ n) /\
  nth i (PayoutsNormalized.getSlotProbabilities n) 0 == ofNat (choose n i) / ofNat (2 ^ n) /\
  nth i (Payouts.getSlotProbabilities n) 0
    == 0.3 * (ofNat (choose n i) / ofNat (2 ^ n)) + 0.7 / ofNat (n + 1).
Proof.
  intros H. split; [|split].
  - apply PayoutsBinomial_nth, H.
  - apply PayoutsNormalized_nth, H.
  - apply Payouts_nth, H.
Qed.

Lemma getSlotProbabilities_closed_form_witness :
  (0 <= 8)%nat /\
  nth 0 (PayoutsBinomial.getSlotProbabilities 8) 0 == ofNat (choose 8 0) / ofNat (2 ^ 8) /\
  nth 0 (PayoutsNormalized.getSlotProbabilities 8) 0 == ofNat (choose 8 0) / ofNat (2 ^ 8) /\
  nth 0 (Payouts.getSlotProbabilities 8) 0
    == 0.3 * (ofNat (choose 8 0) / ofNat (2 ^ 8)) + 0.7 / ofNat (8 + 1).
Proof. split; [lia | apply (getSlotProbabilities_closed_form 8 0); lia]. Defined.

(** C5, as stated, fails on [payouts.ts]: with 8 rows the leftmost slot gets
    (0.3/256 + 0.7/9), not 1/256. *)
Lemma getSlotProbabilities_not_binomial :
  ~ (forall n i, validRowCount n = true -> (i <= n)%nat ->
       nth i (Payouts.getSlotProbabilities n) 0 == ofNat (choose n i) / ofNat (2 ^ n)).
Proof.
  intros H. specialize (H 8%nat 0%nat eq_refl (Nat.le_0_l 8)).
  vm_compute in H. discriminate H.
Qed.

(** C6.  For every row count, each revision of [getSlotProbabilities]
    returns rowCount + 1 entries that sum to exactly 1, read the same from
    both ends, and are largest at the centre slot. *)
Theorem getSlotProbabilities_distribution_laws (rowCount : nat) :
  distributionLaws rowCount (Payouts.getSlotProbabilities rowCount) /\
  distributionLaws rowCount (PayoutsBinomial.getSlotProbabilities rowCount) /\
  distributionLaws rowCount (PayoutsNormalized.getSlotProbabilities rowCount).
Proof.
  assert (Hs : 0 < ofNat (rowCount + 1)) by (apply ofNat_pos; lia).
  split; [|split].
  - apply (affine_binomial_laws _ _ 0.3 (0.7 / ofNat (rowCount + 1))).
    + apply Payouts_length.
    + intros i Hi. rewrite Payouts_nth by exact Hi. reflexivity.
    + lra.
    + field. lra.
  - apply (affine_binomial_laws _ _ 1 0).
    + apply PayoutsBinomial_length.
    + intros i Hi. rewrite PayoutsBinomial_nth by exact Hi. ring.
    + lra.
    + ring.
  - apply (affine_binomial_laws _ _ 1 0).
    + apply PayoutsNormalized_length.
    + intros i Hi. rewrite PayoutsNormalized_nth by exact Hi. ring.
    + lra.
    + ring.
Qed.

(** ** Comparisons *)

Lemma Qltb_lt a b : Qltb a b = true <-> a < b.
Proof.
  unfold Qltb. rewrite negb_true_iff, <- not_true_iff_false, Qle_bool_iff.
  split; [apply Qnot_le_lt | apply Qlt_not_le].
Qed.

Lemma Math_max_lower a b : a <= Math_max a b.
Proof.
  unfold Math_max. destruct (Qle_bool a b) eqn:E.
  - apply Qle_bool_iff, E.
  - apply Qle_refl.
Qed.

Lemma Math_abs_spec a : (0 <= a /\ Math_abs a = a) \/ (a < 0 /\ Math_abs a = - a).
Proof.
  unfold Math_abs. destruct (Qle_bool 0 a) eqn:E.
  - left. split; [apply Qle_bool_iff, E | reflexivity].
  - right. split; [|reflexivity].
    apply Qnot_le_lt. intros H. apply Qle_bool_iff in H. congruence.
Qed.

(** ** Board dimensions (claims C9, C4) *)

Lemma calculateDimensions_pegRadius rect e : 3 <= pegRadius (calculateDimensions rect e).
Proof. apply Math_max_lower. Qed.

(** In the revision of src/unnamed/part_006 the chip is 0.9 of the peg. *)
Lemma calculateDimensions_chip_lt_peg rect e :
  chipRadius (calculateDimensions rect e) < pegRadius (calculateDimensions rect e).
Proof.
  pose proof (calculateDimensions_pegRadius rect e) as H.
  change (chipRadius (calculateDimensions rect e))
    with (pegRadius (calculateDimensions rect e) * 0.9).
  lra.
Qed.

Lemma buildWorld_radii e :
  chipRadius (buildWorld e) = chipRadius e /\ pegRadius (buildWorld e) = pegRadius e.
Proof. unfold buildWorld. destruct (createSlots e). split; reflexivity. Qed.

Lemma rebuild_chip_lt_peg rect e n :
  chipRadius (resize rect e) < pegRadius (resize rect e) /\
  chipRadius (setRows n rect e) < pegRadius (setRows n rect e) /\
  chipRadius (engine (PlinkoEngine_new n rect)) < pegRadius (engine (PlinkoEngine_new n rect)).
Proof.
  unfold resize, setRows, PlinkoEngine_new. cbn [engine chipRadius pegRadius].
  repeat split;
    match goal with
    | |- chipRadius (buildWorld ?x) < _ =>
        destruct (buildWorld_radii x) as [-> ->]; apply calculateDimensions_chip_lt_peg
    end.
Qed.

(** C9, on [src/plinko/src/lib/plinkoEngine.ts].  That revision derives the
    chip radius as 1.5 times the peg radius, so after every recomputation of
    the dimensions the chip is strictly larger than the peg, for every row
    count and every viewport. *)
Theorem Legacy_calculateDimensions_chip_exceeds_peg (rect : Rect) (e : Engine) :
  pegRadius (Legacy.calculateDimensions rect e)
    < chipRadius (Legacy.calculateDimensions rect e).
Proof.
  assert (H : 3 <= pegRadius (Legacy.calculateDimensions rect e)) by apply Math_max_lower.
  change (chipRadius (Legacy.calculateDimensions rect e))
    with (pegRadius (Legacy.calculateDimensions rect e) * 1.5).
  lra.
Qed.

Lemma buildWorld_frame e :
  rows (buildWorld e) = rows e /\ width (buildWorld e) = width e /\
  height (buildWorld e) = height e /\ chips (buildWorld e) = chips e /\
  isDestroyed (buildWorld e) = isDestroyed e /\
  runnerActive (buildWorld e) = runnerActive e.
Proof. unfold buildWorld. destruct (createSlots e). repeat split. Qed.



(** ** Stuck-chip recovery (claim C8) *)

Lemma findBody_updateBody lbl b b' : forall w,
  findBody lbl w = Some b -> label b' = lbl ->
  findBody lbl (updateBody lbl (fun _ => b') w) = Some b'.
Proof.
  unfold findBody. induction w as [|x w IH]; intros Hf Hl; simpl in *.
  - discriminate.
  - destruct (String.eqb (label x) lbl) eqn:E; simpl.
    + rewrite Hl, String.eqb_refl. reflexivity.
    + rewrite E. apply IH; assumption.
Qed.

Lemma findBody_label lbl b : forall w, findBody lbl w = Some b -> label b = lbl.
Proof.
  unfold findBody. intros w H. apply find_some in H. destruct H as [_ H].
  apply String.eqb_eq, H.
Qed.

Lemma squaredNorm_bound x y c : squaredNorm x y < c * c -> 0 <= c -> - c < y.
Proof. unfold squaredNorm. intros. nra. Qed.

(** C8.  When the recovery pass reaches a registered chip that has not
    landed, whose body moved less than 1.5 pixels since the last check, whose
    stuck timer is more than 500 ms old and whose speed is below 0.2, the body
    it leaves in the world has the old vertical velocity plus a boost between
    0.5 and 1, and that velocity is strictly positive (downward). *)
Theorem unstick_pushes_downward (now : Z) (draws : string -> UnstickDraws) (e : Engine)
    (id : string) (chipData : ChipData) (chip : Body) (last : Vec) (since : Z) :
  chips e !! id = Some chipData ->
  hasLanded chipData = false ->
  findBody (chipLabel id) (world e) = Some chip ->
  lastPosition chipData = Some last ->
  squaredNorm (vx (position chip) - vx last) (vy (position chip) - vy last)
    < minMovement * minMovement ->
  stuckCheckTime chipData = Some since ->
  since <> 0%Z ->
  (stuckThreshold < now - since)%Z ->
  squaredNorm (vx (velocity chip)) (vy (velocity chip)) < 0.2 * 0.2 ->
  0 <= randBoostY (draws id) < 1 ->
  exists chip',
    findBody (chipLabel id) (world (unstickStep now draws e id)) = Some chip' /\
    0.5 <= 0.5 + randBoostY (draws id) * 0.5 <= 1 /\
    vy (velocity chip') == vy (velocity chip) + (0.5 + randBoostY (draws id) * 0.5) /\
    0 < vy (velocity chip').
Proof.
  intros Hreg Hfly Hbody Hlast Hmove Hsince Hnz Hold Hslow [Hr0 Hr1].
  unfold unstickStep. rewrite Hreg, Hfly, Hbody.
  unfold unstickChip. rewrite Hlast.
  apply Qltb_lt in Hmove. rewrite Hmove.
  rewrite Hsince. cbn [truthyTime]. change (default 0%Z (Some since)) with since.
  apply Z.eqb_neq in Hnz. rewrite Hnz. cbn [negb].
  apply Z.ltb_lt in Hold. rewrite Hold.
  pose proof Hslow as Hslow'. apply Qltb_lt in Hslow'. rewrite Hslow'.
  eexists. split.
  - cbn [world withWorld withChips]. eapply findBody_updateBody; [exact Hbody|].
    cbn [label setVelocity applyForce]. eapply findBody_label, Hbody.
  - apply squaredNorm_bound in Hslow; [|lra].
    cbn [velocity setVelocity applyForce boostedVelocity vy]. repeat split; lra.
Qed.

Lemma unstick_pushes_downward_witness :
  exists chip',
    findBody "chip-a"
      (world (unstickStep 2000 (fun _ => mkUnstickDraws 1 0 0.5 0.5)
                (mkEngine 8 600 800 18.75 16.875 56 66 48 96
                   (mkBody "chip-a" (mkVec 300 400) (mkVec 0.1 (-0.1)) (mkVec 0 0) 0 :: nil)
                   nil nil nil nil
                   (<["a" := mkChipData "a" None false 0 (Some (mkVec 300 400)) (Some 1000%Z)]> ∅)
                   true false)
                "a"))
      = Some chip' /\
    0.5 <= 0.5 + 0.5 * 0.5 <= 1 /\
    vy (velocity chip') == -0.1 + (0.5 + 0.5 * 0.5) /\
    0 < vy (velocity chip').
Proof.
  apply (unstick_pushes_downward 2000 (fun _ => mkUnstickDraws 1 0 0.5 0.5)
           (mkEngine 8 600 800 18.75 16.875 56 66 48 96
              (mkBody "chip-a" (mkVec 300 400) (mkVec 0.1 (-0.1)) (mkVec 0 0) 0 :: nil)
              nil nil nil nil
              (<["a" := mkChipData "a" None false 0 (Some (mkVec 300 400)) (Some 1000%Z)]> ∅)
              true false)
           "a"
           (mkChipData "a" None false 0 (Some (mkVec 300 400)) (Some 1000%Z))
           (mkBody "chip-a" (mkVec 300 400) (mkVec 0.1 (-0.1)) (mkVec 0 0) 0)
           (mkVec 300 400) 1000%Z).
  - reflexivity.
  - reflexivity.
  - reflexivity.
  - reflexivity.
  - vm_compute. reflexivity.
  - reflexivity.
  - discriminate.
  - reflexivity.
  - vm_compute. reflexivity.
  - split; vm_compute; [discriminate | reflexivity].
Defined.

(** ** Deterministic steering (claim C7) *)

Lemma nudgeTick_cleared_or_counted e chip random t :
  (fst (nudgeTick e chip random t) = clearInterval t /\ snd (nudgeTick e chip random t) = None) \/
  (fst (nudgeTick e chip random t) = countNudge t /\
   isDestroyed e = false /\ (nNudgeCount t < nMaxNudges t)%nat /\ chipInFlight e t = true).
Proof.
  unfold nudgeTick.
  destruct (isDestroyed e); [left; split; reflexivity|].
  destruct (Nat.leb_spec (nMaxNudges t) (nNudgeCount t)); [left; split; reflexivity|].
  destruct (chipInFlight e t); [|left; split; reflexivity].
  right. repeat split. assumption.
Qed.

(** Firings that run to the end never outnumber what the counter allows. *)
Lemma runNudges_bound : forall envs t,
  (snd (fst (runNudges t envs)) + nNudgeCount t <= Nat.max (nNudgeCount t) (nMaxNudges t))%nat /\
  (length (snd (runNudges t envs)) <= snd (fst (runNudges t envs)))%nat.
Proof.
  induction envs as [|env rest IH]; intros t; simpl.
  - split; lia.
  - destruct (nCleared t) eqn:Hc; simpl; [split; lia|].
    destruct (nudgeTick_cleared_or_counted (tickEngine env) (tickChip env) (tickRandom env) t)
      as [[Ht Ha]|[Ht [_ [Hlt _]]]];
      destruct (nudgeTick (tickEngine env) (tickChip env) (tickRandom env) t) as [t1 applied];
      simpl in Ht; subst t1.
    + simpl. split; lia.
    + change (nCleared (countNudge t)) with (nCleared t). rewrite Hc.
      specialize (IH (countNudge t)).
      destruct (runNudges (countNudge t) rest) as [[t2 n] forces].
      simpl in *. destruct applied; simpl; split; lia.
Qed.

(** C7.  The steering task started by a deterministic drop
    - runs its callback to the end at most floor(rows / 2) times, and applies
      at most that many forces, whatever the engine and the chip do meanwhile;
    - applies a force only when the chip's progress down the board (its y over
      the height above the slots) lies strictly between 0.3 and 0.85 and its
      distance from the target slot centre exceeds 0.3 slot widths, and that
      force is the offset times 0.00002 * (random + 0.5);
    - is cleared, without a force and for good, at the first firing that
      finds the engine destroyed or the chip landed or gone. *)
Theorem steering_task_contract (e0 : Engine) (chip0 : Body) (slot : nat)
    (envs : list TickEnv) (e : Engine) (chip : Body) (random : Q) (t : NudgeTask)
    (env : TickEnv) :
  let task := applyDeterministicNudges e0 chip0 slot in
  ((snd (fst (runNudges task envs)) <= rows e0 / 2)%nat /\
   (length (snd (runNudges task envs)) <= rows e0 / 2)%nat) /\
  (forall fx, snd (nudgeTick e chip random t) = Some fx ->
     let progress := vy (position chip) / (height e - slotHeight e) in
     let diff := nTargetX t - vx (position chip) in
     0.3 < progress /\ progress < 0.85 /\
     nSlotWidth t * 0.3 < Math_abs diff /\
     fx == diff * (0.00002 * (random + 0.5)) /\
     isDestroyed e = false /\ chipInFlight e t = true) /\
  (nCleared t = false ->
   isDestroyed (tickEngine env) = true \/ chipInFlight (tickEngine env) t = false ->
   runNudges t (env :: envs) = (clearInterval t, O, nil)).
Proof.
  cbv zeta. split; [|split].
  - destruct (runNudges_bound envs (applyDeterministicNudges e0 chip0 slot)) as [H1 H2].
    cbn [applyDeterministicNudges nNudgeCount nMaxNudges] in H1. lia.
  - intros fx Hfx.
    destruct (nudgeTick_cleared_or_counted e chip random t) as [[_ Hn]|[_ [Hd [Hlt Hin]]]];
      [congruence|].
    unfold nudgeTick in Hfx. rewrite Hd, Hin in Hfx.
    destruct (Nat.leb_spec (nMaxNudges t) (nNudgeCount t)); [lia|].
    cbn [orb negb snd] in Hfx. unfold nudgeProgress in Hfx.
    destruct (Qltb 0.3 _) eqn:E1; [|discriminate].
    destruct (Qltb _ 0.85) eqn:E2; [|discriminate].
    cbn [andb] in Hfx.
    destruct (Qltb (nSlotWidth t * 0.3) _) eqn:E3; [|discriminate].
    injection Hfx as <-.
    apply Qltb_lt in E1, E2, E3. repeat split; try assumption. ring.
  - intros Hc Hstop. cbn [runNudges]. rewrite Hc.
    assert (Ht : nudgeTick (tickEngine env) (tickChip env) (tickRandom env) t
                 = (clearInterval t, None)).
    { unfold nudgeTick. destruct Hstop as [-> | ->]; [reflexivity|].
      destruct (isDestroyed (tickEngine env) || (nMaxNudges t <=? nNudgeCount t)%nat);
        reflexivity. }
    rewrite Ht. reflexivity.
Qed.

Lemma steering_task_contract_witness :
  let s := fst (dropChip (mkDropDraws "a" 1000 0.5 0.5 0.5 0.5 0.5 0.5) None Deterministic
                  (Some 4%nat) (PlinkoEngine_new 8 (mkRect 600 800))) in
  let t := applyDeterministicNudges (engine s)
             (mkBody "chip-a" (mkVec 300 32.5) (mkVec 0 0) (mkVec 0 0) 0) 4 in
  let chip := mkBody "chip-a" (mkVec 100 400) (mkVec 0 2) (mkVec 0 0) 0 in
  (exists fx, snd (nudgeTick (engine s) chip 0.5 t) = Some fx /\
     0.3 < 400 / (height (engine s) - slotHeight (engine s)) /\
     400 / (height (engine s) - slotHeight (engine s)) < 0.85 /\
     nSlotWidth t * 0.3 < Math_abs (nTargetX t - 100) /\
     fx == (nTargetX t - 100) * (0.00002 * (0.5 + 0.5))) /\
  runNudges t (mkTickEnv (destroy (engine s)) chip 0.5 :: nil) = (clearInterval t, O, nil).
Proof.
  intros s t chip.
  pose proof (steering_task_contract (engine s) chip 4 nil (engine s) chip 0.5 t
                (mkTickEnv (destroy (engine s)) chip 0.5)) as [_ [Hforce Hstop]].
  split.
  - eexists. split; [vm_compute; reflexivity|].
    destruct (Hforce _ ltac:(vm_compute; reflexivity)) as (H1 & H2 & H3 & H4 & _).
    repeat split; assumption.
  - apply Hstop; [reflexivity | left; reflexivity].
Defined.

(** ** Lifecycle of a chip: how each operation changes its view *)

Lemma landingCount_snoc id log c :
  landingCount id (log ++ c :: nil)
  = (landingCount id log + if isLandingOf id c then 1 else 0)%nat.
Proof.
  unfold landingCount. rewrite List.filter_app, length_app. simpl.
  destruct (isLandingOf id c); reflexivity.
Qed.

Lemma pendingCount_snoc id ts t :
  pendingCount id (ts ++ t :: nil)
  = (pendingCount id ts + if String.eqb (toChipId t) id then 1 else 0)%nat.
Proof.
  unfold pendingCount. rewrite List.filter_app, length_app. simpl.
  destruct (String.eqb (toChipId t) id); reflexivity.
Qed.

Lemma pendingCount_removeNth id : forall ts k t,
  nth_error ts k = Some t ->
  pendingCount id ts
  = (pendingCount id (removeNth k ts) + if String.eqb (toChipId t) id then 1 else 0)%nat.
Proof.
  unfold pendingCount. induction ts as [|x ts IH]; intros [|k] t H; simpl in *; try discriminate.
  - injection H as ->. destruct (String.eqb (toChipId t) id); simpl; lia.
  - specialize (IH k t H). destruct (String.eqb (toChipId x) id); simpl; lia.
Qed.

Lemma viewOf_dropChip id d x mode target s :
  viewOf id (fst (dropChip d x mode target s))
  = if String.eqb (dropId d) id
    then (Some false, snd (fst (viewOf id s)), snd (viewOf id s))
    else viewOf id s.
Proof.
  unfold viewOf, dropChip. cbn [fst snd engine timeouts callbackLog chips withWorld withChips].
  rewrite landingCount_snoc. cbn [isLandingOf]. rewrite Nat.add_0_r.
  destruct (String.eqb_spec (dropId d) id) as [->|Hne].
  - rewrite lookup_insert_eq. reflexivity.
  - rewrite lookup_insert_ne by exact Hne. reflexivity.
Qed.

Lemma viewOf_handlePegContact id p s : viewOf id (handlePegContact p s) = viewOf id s.
Proof.
  unfold handlePegContact.
  destruct (_ || _); [|reflexivity].
  destruct (pickLabel "chip-" p); [|reflexivity].
  unfold viewOf. cbn [engine timeouts callbackLog chips withEngine withWorld emit].
  rewrite landingCount_snoc. cbn [isLandingOf]. rewrite Nat.add_0_r. reflexivity.
Qed.

Lemma pickLabel_spec pat p lbl :
  pickLabel pat p = Some lbl ->
  (lbl = bodyA p \/ lbl = bodyB p) /\ startsWith lbl pat = true.
Proof.
  unfold pickLabel. destruct (startsWith (bodyA p) pat) eqn:Ea.
  - intros [= <-]. auto.
  - destruct (startsWith (bodyB p) pat) eqn:Eb; [|discriminate].
    intros [= <-]. auto.
Qed.

(** A sensor contact either changes nothing for [id], or it is the landing of
    [id]: the chip was registered in flight, is now marked landed, one more
    closure is pending, and the contact named a body of that chip. *)
Lemma viewOf_handleSlotContact id p s :
  viewOf id (handleSlotContact p s) = viewOf id s \/
  (exists pending reported,
     viewOf id s = (Some false, pending, reported) /\
     viewOf id (handleSlotContact p s) = (Some true, S pending, reported) /\
     (isBodyOf id (bodyA p) = true \/ isBodyOf id (bodyB p) = true)).
Proof.
  unfold handleSlotContact.
  destruct (pickLabel "slot-" p) as [slotBody|]; [|left; reflexivity].
  destruct (pickLabel "chip-" p) as [chipBody|] eqn:Hchip; [|left; reflexivity].
  destruct (chips (engine s) !! removeFirst "chip-" chipBody) as [chipData|] eqn:Hreg;
    [|left; reflexivity].
  destruct (hasLanded chipData) eqn:Hl; [left; reflexivity|].
  cbn [negb]. unfold viewOf.
  cbn [engine timeouts callbackLog chips withChips].
  rewrite pendingCount_snoc. cbn [toChipId].
  destruct (String.eqb_spec (removeFirst "chip-" chipBody) id) as [E|Hne].
  - right. subst id. rewrite lookup_insert_eq, Hreg. cbn [fmap option_fmap option_map markLanded hasLanded].
    rewrite Hl. eexists _, _. split; [reflexivity|]. split; [f_equal; f_equal; lia|].
    apply pickLabel_spec in Hchip. destruct Hchip as [[->| ->] Hs]; [left|right];
      unfold isBodyOf; rewrite Hs, String.eqb_refl; reflexivity.
  - left. rewrite lookup_insert_ne by exact Hne. rewrite Nat.add_0_r. reflexivity.
Qed.

Lemma viewOf_fireTimeout id k t s :
  nth_error (timeouts s) k = Some t ->
  let s' := fireTimeout t (mkSystem (engine s) (removeNth k (timeouts s)) (intervals s)
                                    (callbackLog s)) in
  (toChipId t <> id /\ viewOf id s' = viewOf id s) \/
  (toChipId t = id /\
   exists landed pending reported,
     viewOf id s = (landed, S pending, reported) /\
     viewOf id s' = (None, pending, S reported)).
Proof.
  intros Hk. cbv zeta. unfold viewOf, fireTimeout.
  cbn [engine timeouts callbackLog chips withEngine emit removeChip].
  rewrite landingCount_snoc, (pendingCount_removeNth id _ _ _ Hk). cbn [isLandingOf].
  destruct (String.eqb_spec (toChipId t) id) as [E|Hne].
  - right. split; [exact E|]. rewrite E, lookup_delete_eq.
    eexists _, _, _. split; f_equal; f_equal; lia.
  - left. split; [exact Hne|]. rewrite lookup_delete_ne by exact Hne.
    rewrite !Nat.add_0_r. reflexivity.
Qed.

Lemma viewOf_onCollisionStart id : forall pairs s,
  viewOf id (onCollisionStart pairs s) = viewOf id s \/
  (exists pair pending reported,
     In pair pairs /\
     (isBodyOf id (bodyA pair) = true \/ isBodyOf id (bodyB pair) = true) /\
     viewOf id s = (Some false, pending, reported) /\
     viewOf id (onCollisionStart pairs s) = (Some true, S pending, reported)).
Proof.
  unfold onCollisionStart.
  induction pairs as [|p pairs IH]; intros s; simpl; [left; reflexivity|].
  destruct (viewOf_handleSlotContact id p (handlePegContact p s))
    as [Hsame | (pending & reported & Hbefore & Hafter & Hbody)];
    rewrite viewOf_handlePegContact in *.
  - destruct (IH (handleSlotContact p (handlePegContact p s)))
      as [Hrest | (pair & pd & rp & Hin & Hb & Hv & Hv')].
    + left. congruence.
    + right. exists pair, pd, rp. rewrite <- Hsame. auto.
  - destruct (IH (handleSlotContact p (handlePegContact p s)))
      as [Hrest | (pair & pd & rp & Hin & Hb & Hv & Hv')].
    + right. exists p, pending, reported. repeat split; auto. congruence.
    + congruence.
Qed.

(** The frame pass rewrites stuck-check fields and body kinematics only. *)
Lemma unstickChip_frame now d chipData chip :
  hasLanded (fst (unstickChip now d chipData chip)) = hasLanded chipData /\
  label (snd (unstickChip now d chipData chip)) = label chip.
Proof.
  unfold unstickChip.
  repeat match goal with
         | |- context [match ?x with _ => _ end] => destruct x
         end; split; reflexivity.
Qed.

Lemma updateBody_labels lbl f : forall w,
  (forall b, label b = lbl -> label (f b) = lbl) ->
  map label (updateBody lbl f w) = map label w.
Proof.
  intros w Hf. induction w as [|b w IH]; simpl; [reflexivity|].
  destruct (String.eqb_spec (label b) lbl) as [E|Hne]; simpl.
  - rewrite (Hf b E), E. reflexivity.
  - rewrite IH. reflexivity.
Qed.

Lemma unstickStep_frame now draws e k :
  (forall id, hasLanded <$> chips (unstickStep now draws e k) !! id
              = hasLanded <$> chips e !! id) /\
  map label (world (unstickStep now draws e k)) = map label (world e) /\
  isDestroyed (unstickStep now draws e k) = isDestroyed e /\
  runnerActive (unstickStep now draws e k) = runnerActive e.
Proof.
  unfold unstickStep.
  destruct (chips e !! k) as [chipData|] eqn:Hreg; [|auto].
  destruct (hasLanded chipData) eqn:Hl; [auto|].
  destruct (findBody (chipLabel k) (world e)) as [chip|] eqn:Hbody; [|auto].
  destruct (unstickChip_frame now (draws k) chipData chip) as [H1 H2].
  destruct (unstickChip now (draws k) chipData chip) as [chipData' chip'].
  cbn [fst snd] in H1, H2. cbn [chips world isDestroyed runnerActive withWorld withChips].
  repeat split.
  - intros id. destruct (String.eqb_spec k id) as [<-|Hne].
    + rewrite lookup_insert_eq, Hreg. simpl. congruence.
    + rewrite lookup_insert_ne by exact Hne. reflexivity.
  - apply updateBody_labels. intros _ _. rewrite H2. eapply findBody_label, Hbody.
Qed.

Lemma checkAndUnstickBalls_frame now draws e :
  (forall id, hasLanded <$> chips (checkAndUnstickBalls now draws e) !! id
              = hasLanded <$> chips e !! id) /\
  map label (world (checkAndUnstickBalls now draws e)) = map label (world e).
Proof.
  unfold checkAndUnstickBalls. generalize (map fst (map_to_list (chips e))) as keys.
  intros keys. revert e. induction keys as [|k keys IH]; intros e; simpl; [auto|].
  destruct (IH (unstickStep now draws e k)) as [H1 H2].
  destruct (unstickStep_frame now draws e k) as (H3 & H4 & _).
  split.
  - intros id. rewrite H1. apply H3.
  - rewrite H2. exact H4.
Qed.

Lemma viewOf_fireInterval id k detached random s :
  viewOf id (fireInterval k detached random s) = viewOf id s.
Proof.
  unfold fireInterval.
  destruct (nth_error (intervals s) k) as [t|]; [|reflexivity].
  destruct (nCleared t); [reflexivity|].
  destruct (nudgeTick _ _ _ _) as [t' applied]. reflexivity.
Qed.

Lemma calculateDimensions_chips rect e : chips (calculateDimensions rect e) = chips e.
Proof. reflexivity. Qed.

Lemma resize_chips rect e : chips (resize rect e) = chips e.
Proof. unfold resize. destruct (buildWorld_frame (calculateDimensions rect e)) as (_ & _ & _ & -> & _). reflexivity. Qed.

Lemma setRows_chips n rect e : chips (setRows n rect e) = chips e.
Proof.
  unfold setRows.
  destruct (buildWorld_frame (calculateDimensions rect (withRows e n))) as (_ & _ & _ & -> & _).
  reflexivity.
Qed.

(** Every event changes the view of a chip in one of five ways. *)
Lemma viewOf_step id s ev : viewChange id ev (viewOf id s) (viewOf id (step s ev)).
Proof.
  destruct ev as [d x mode target|pairs|k|k detached random|now draws|integrate|rect|n rect|];
    cbn [step].
  - rewrite viewOf_dropChip. destruct (String.eqb_spec (dropId d) id) as [E|Hne].
    + destruct (viewOf id s) as [[landed pending] reported]. cbn [fst snd].
      eapply vcDrop; [reflexivity | exact E].
    + apply vcSame.
  - destruct (runnerActive (engine s)); [|apply vcSame].
    destruct (viewOf_onCollisionStart id pairs s)
      as [-> | (pair & pd & rp & Hin & Hb & -> & ->)].
    + apply vcSame.
    + eapply vcLand; [reflexivity | exact Hin | exact Hb].
  - destruct (nth_error (timeouts s) k) as [t|] eqn:Hk; [|apply vcSame].
    destruct (viewOf_fireTimeout id k t s Hk)
      as [[_ ->] | (_ & landed & pd & rp & -> & ->)].
    + apply vcSame.
    + eapply vcFire. reflexivity.
  - rewrite viewOf_fireInterval. apply vcSame.
  - destruct (isDestroyed (engine s)); [apply vcSame|].
    unfold viewOf. cbn [engine timeouts callbackLog withEngine].
    destruct (checkAndUnstickBalls_frame now draws (engine s)) as [-> _]. apply vcSame.
  - destruct (runnerActive (engine s)); apply vcSame.
  - unfold viewOf. cbn [engine timeouts callbackLog withEngine].
    rewrite resize_chips. apply vcSame.
  - unfold viewOf. cbn [engine timeouts callbackLog withEngine].
    rewrite setRows_chips. apply vcSame.
  - unfold viewOf. cbn [engine timeouts callbackLog withEngine destroy chips].
    rewrite lookup_empty. cbn [fmap option_fmap option_map].
    eapply vcDestroy. reflexivity.
Qed.

(** ** At most one landing per chip (claim C1) *)

Lemma unusedId_new n rect id : unusedId id (PlinkoEngine_new n rect).
Proof.
  unfold unusedId, viewOf, PlinkoEngine_new. cbn [engine timeouts callbackLog chips].
  destruct (buildWorld_frame (calculateDimensions rect
    (mkEngine n 0 0 0 0 0 0 0 0 nil nil nil nil nil ∅ false false))) as (_ & _ & _ & -> & _).
  reflexivity.
Qed.

Lemma droppedIds_cons ev trace :
  droppedIds (ev :: trace)
  = match ev with EvDrop d _ _ _ => dropId d :: droppedIds trace | _ => droppedIds trace end.
Proof. destruct ev; reflexivity. Qed.

Lemma withinBudget_change id ev v v' :
  viewChange id ev v v' ->
  withinBudget v ->
  (In id (droppedIds (ev :: nil)) -> v = (None, O, O)) ->
  withinBudget v'.
Proof.
  intros Hc Hb Hfresh.
  destruct Hc as [v | d x mode target landed pd rp Hev Hid | pairs pair pd rp _ _ _
                  | k landed pd rp _ | landed pd rp _]; cbn [withinBudget] in *.
  - exact Hb.
  - subst ev. specialize (Hfresh ltac:(simpl; auto)).
    injection Hfresh as -> -> ->. split; lia.
  - destruct Hb as [_ Hb]. specialize (Hb eq_refl). split; [lia | discriminate].
  - destruct Hb as [Hb _]. split; [lia | discriminate].
  - destruct Hb as [Hb _]. split; [lia | discriminate].
Qed.

Lemma unused_change id ev v' :
  viewChange id ev (None, O, O) v' ->
  ~ In id (droppedIds (ev :: nil)) ->
  v' = (None, O, O).
Proof.
  intros Hc Hnot. inversion Hc as [v | d x mode target landed pd rp Hev Hid | | |];
    subst; try reflexivity.
  exfalso. apply Hnot. simpl. auto.
Qed.

Lemma landingBudget_step id s ev :
  landingBudget id s ->
  (In id (droppedIds (ev :: nil)) -> unusedId id s) ->
  landingBudget id (step s ev).
Proof.
  unfold landingBudget, unusedId. intros Hb Hfresh.
  exact (withinBudget_change id ev _ _ (viewOf_step id s ev) Hb Hfresh).
Qed.

Lemma unusedId_step id s ev :
  unusedId id s -> ~ In id (droppedIds (ev :: nil)) -> unusedId id (step s ev).
Proof.
  unfold unusedId. intros Hu Hnot.
  pose proof (viewOf_step id s ev) as Hc. rewrite Hu in Hc.
  exact (unused_change id ev _ Hc Hnot).
Qed.

Lemma droppedIds_head ev trace :
  List.NoDup (droppedIds (ev :: trace)) ->
  List.NoDup (droppedIds trace) /\
  (forall id, In id (droppedIds (ev :: nil)) -> ~ In id (droppedIds trace)).
Proof.
  destruct ev; simpl; intros H; try (split; [exact H | intros ? []]).
  apply List.NoDup_cons_iff in H. destruct H as [Hnot Hnd].
  split; [exact Hnd|]. intros id [<-|[]]. exact Hnot.
Qed.

Lemma droppedIds_split ev trace id :
  In id (droppedIds (ev :: trace)) <-> In id (droppedIds (ev :: nil)) \/ In id (droppedIds trace).
Proof.
  unfold droppedIds. simpl. rewrite app_nil_r. apply in_app_iff.
Qed.

Lemma landingBudget_run id : forall trace s,
  List.NoDup (droppedIds trace) ->
  (In id (droppedIds trace) -> unusedId id s) ->
  landingBudget id s ->
  landingBudget id (run s trace).
Proof.
  induction trace as [|ev trace IH]; intros s Hnd Hfresh Hb; [exact Hb|].
  change (run s (ev :: trace)) with (run (step s ev) trace).
  destruct (droppedIds_head ev trace Hnd) as [Hnd' Hdisj].
  apply IH.
  - exact Hnd'.
  - intros Hin. apply unusedId_step.
    + apply Hfresh, droppedIds_split. right. exact Hin.
    + intros Hhere. exact (Hdisj id Hhere Hin).
  - apply landingBudget_step; [exact Hb|].
    intros Hin. apply Hfresh, droppedIds_split. left. exact Hin.
Qed.

Lemma handleSlotContact_landed_ignored p s chipBody chipData :
  pickLabel "chip-" p = Some chipBody ->
  chips (engine s) !! removeFirst "chip-" chipBody = Some chipData ->
  hasLanded chipData = true ->
  handleSlotContact p s = s.
Proof.
  intros Hc Hreg Hl. unfold handleSlotContact. rewrite Hc, Hreg, Hl.
  destruct (pickLabel "slot-" p); reflexivity.
Qed.

Lemma handleSlotContact_first_contact p s slotBody chipBody chipData :
  pickLabel "slot-" p = Some slotBody ->
  pickLabel "chip-" p = Some chipBody ->
  chips (engine s) !! removeFirst "chip-" chipBody = Some chipData ->
  hasLanded chipData = false ->
  hasLanded <$> chips (engine (handleSlotContact p s)) !! removeFirst "chip-" chipBody
    = Some true /\
  timeouts (handleSlotContact p s)
    = timeouts s ++ mkTimeout (removeFirst "chip-" chipBody)
                              (parseInt (removeFirst "slot-" slotBody)) :: nil /\
  callbackLog (handleSlotContact p s) = callbackLog s.
Proof.
  intros Hs Hc Hreg Hl. unfold handleSlotContact. rewrite Hs, Hc, Hreg, Hl.
  cbn [negb engine chips withChips timeouts callbackLog].
  rewrite lookup_insert_eq. repeat split.
Qed.

(** C1.  Over any sequence of events of an engine in which every drop got a
    different identifier, [onSlotLanded] is reported for a given chip at most
    once.  At the contact level: the first sensor contact of a registered
    chip in flight marks it landed and schedules exactly one report, without
    reporting yet; a sensor contact of a chip already marked landed changes
    nothing. *)
Theorem onSlotLanded_at_most_once (n : nat) (rect : Rect) (trace : list Event)
    (id : string) (p : CollisionPair) (s : System) (slotBody chipBody : string)
    (chipData : ChipData) :
  List.NoDup (droppedIds trace) ->
  (landingCount id (callbackLog (run (PlinkoEngine_new n rect) trace)) <= 1)%nat /\
  (pickLabel "slot-" p = Some slotBody ->
   pickLabel "chip-" p = Some chipBody ->
   chips (engine s) !! removeFirst "chip-" chipBody = Some chipData ->
   if hasLanded chipData
   then handleSlotContact p s = s
   else hasLanded <$> chips (engine (handleSlotContact p s)) !! removeFirst "chip-" chipBody
          = Some true /\
        timeouts (handleSlotContact p s)
          = timeouts s ++ mkTimeout (removeFirst "chip-" chipBody)
                                    (parseInt (removeFirst "slot-" slotBody)) :: nil /\
        callbackLog (handleSlotContact p s) = callbackLog s).
Proof.
  intros Hnd. split.
  - assert (Hb : landingBudget id (run (PlinkoEngine_new n rect) trace)).
    { apply landingBudget_run; [exact Hnd | intros _; apply unusedId_new |].
      unfold landingBudget. rewrite (unusedId_new n rect id). simpl. split; [lia | discriminate]. }
    unfold landingBudget, viewOf, withinBudget in Hb. lia.
  - intros Hs Hc Hreg. destruct (hasLanded chipData) eqn:Hl.
    + eapply handleSlotContact_landed_ignored; eassumption.
    + eapply handleSlotContact_first_contact; eassumption.
Qed.

Lemma onSlotLanded_at_most_once_witness :
  let trace :=
    EvDrop (sampleDrop "a") None Physics None
    :: EvCollision (samplePair "chip-a" "slot-4" :: samplePair "slot-5" "chip-a" :: nil)
    :: EvTimeout 0
    :: EvCollision (samplePair "chip-a" "slot-4" :: nil) :: nil in
  let s := run (PlinkoEngine_new 8 sampleRect)
               (EvDrop (sampleDrop "a") None Physics None
                :: EvCollision (samplePair "chip-a" "slot-4" :: nil) :: nil) in
  List.NoDup (droppedIds trace) /\
  (landingCount "a" (callbackLog (run (PlinkoEngine_new 8 sampleRect) trace)) <= 1)%nat /\
  handleSlotContact (samplePair "slot-5" "chip-a") s = s.
Proof.
  intros trace s.
  assert (Hnd : List.NoDup (droppedIds trace)).
  { constructor; [intros [] | constructor]. }
  destruct (onSlotLanded_at_most_once 8 sampleRect trace "a" (samplePair "slot-5" "chip-a") s
              "slot-5" "chip-a" (mkChipData "a" None true 1000 None None) Hnd) as [Hcount Hcontact].
  split; [exact Hnd|]. split; [exact Hcount|].
  apply Hcontact; vm_compute; reflexivity.
Defined.

(** ** Peg hits of a landed chip (claim C2) *)

(** C2, at the failing input.  A chip touches the sensor of slot 4 and is
    marked landed; before the delayed removal a contact of the same chip with
    a peg is reported: the router still calls [onPegHit] for it. *)
Theorem onPegHit_after_landing :
  let s := run (PlinkoEngine_new 8 sampleRect)
               (EvDrop (sampleDrop "a") None Physics None
                :: EvCollision (samplePair "chip-a" "slot-4" :: nil) :: nil) in
  hasLanded <$> chips (engine s) !! "a" = Some true /\
  callbackLog (step s (EvCollision (samplePair "peg" "chip-a" :: nil)))
    = callbackLog s ++ OnPegHit "a" :: nil.
Proof. split; vm_compute; reflexivity. Qed.

(** The peg branch never consults the registry. *)
Lemma handlePegContact_reports p s chip :
  String.eqb (bodyA p) "peg" || String.eqb (bodyB p) "peg" = true ->
  pickLabel "chip-" p = Some chip ->
  callbackLog (handlePegContact p s) = callbackLog s ++ OnPegHit (removeFirst "chip-" chip) :: nil.
Proof. intros Hp Hc. unfold handlePegContact. rewrite Hp, Hc. reflexivity. Qed.

(** ** Callbacks after [destroy()] (claim C3) *)

(** C3, at the failing input.  A chip touches a sensor, [destroy()] is called
    before the 100 ms closure runs, then the closure runs: [onSlotLanded] is
    still called on the destroyed engine. *)
Theorem onSlotLanded_after_destroy :
  let s := run (PlinkoEngine_new 8 sampleRect)
               (EvDrop (sampleDrop "a") None Physics None
                :: EvCollision (samplePair "chip-a" "slot-4" :: nil)
                :: EvDestroy :: nil) in
  isDestroyed (engine s) = true /\
  callbackLog (step s (EvTimeout 0)) = callbackLog s ++ OnSlotLanded "a" (Some 4%nat) :: nil.
Proof. split; vm_compute; reflexivity. Qed.

(** The delayed closure runs whatever the state of the engine. *)
Lemma fireTimeout_reports t s :
  callbackLog (fireTimeout t s) = callbackLog s ++ OnSlotLanded (toChipId t) (toSlotIndex t) :: nil.
Proof. reflexivity. Qed.

(** [dropChip] does not look at [isDestroyed] either. *)
Lemma dropChip_after_destroy :
  let s := run (PlinkoEngine_new 8 sampleRect) (EvDestroy :: nil) in
  callbackLog (step s (EvDrop (sampleDrop "b") None Physics None)) = OnChipCreated "b" :: nil.
Proof. vm_compute. reflexivity. Qed.

(** ** Chip bodies in the world *)

Lemma chipInWorld_labels id e1 e2 :
  map label (world e1) = map label (world e2) -> chipInWorld id e1 = chipInWorld id e2.
Proof.
  unfold chipInWorld.
  assert (H : forall w, existsb (fun b => isBodyOf id (label b)) w
                        = existsb (isBodyOf id) (map label w)).
  { induction w as [|b w IH]; simpl; [reflexivity | rewrite IH; reflexivity]. }
  intros E. rewrite !H, E. reflexivity.
Qed.

Lemma prefix_append pat s : String.prefix pat (String.append pat s) = true.
Proof.
  induction pat as [|c pat IH]; simpl.
  - destruct s; reflexivity.
  - destruct (ascii_dec c c) as [_|Hne]; [exact IH | congruence].
Qed.

Lemma dropChars_append pat s : dropChars (String.length pat) (String.append pat s) = s.
Proof. induction pat as [|c pat IH]; simpl; [destruct s; reflexivity | exact IH]. Qed.

Lemma removeFirst_unfold pat s :
  removeFirst pat s
  = if String.prefix pat s then dropChars (String.length pat) s
    else match s with
         | EmptyString => EmptyString
         | String c s' => String c (removeFirst pat s')
         end.
Proof. destruct s; reflexivity. Qed.

Lemma removeFirst_append pat s : removeFirst pat (String.append pat s) = s.
Proof. rewrite removeFirst_unfold, prefix_append. apply dropChars_append. Qed.

Lemma removeFirst_chipLabel id : removeFirst "chip-" (chipLabel id) = id.
Proof. apply removeFirst_append. Qed.

Lemma isBodyOf_chipLabel id id' : isBodyOf id (chipLabel id') = true -> id' = id.
Proof.
  unfold isBodyOf. rewrite removeFirst_chipLabel. intros H.
  apply andb_true_iff in H. destruct H as [_ H]. apply String.eqb_eq, H.
Qed.

Lemma removeBody_incl lbl : forall w b, In b (removeBody lbl w) -> In b w.
Proof.
  induction w as [|x w IH]; intros b H; simpl in *; [exact H|].
  destruct (String.eqb (label x) lbl); [right; exact H|].
  destruct H as [<-|H]; [left; reflexivity | right; apply IH, H].
Qed.

Lemma createPegs_notChip e : Forall notChip (createPegs e).
Proof.
  apply List.Forall_forall. intros b Hb. unfold createPegs in Hb.
  apply in_flat_map in Hb. destruct Hb as (row & _ & Hb).
  apply in_map_iff in Hb. destruct Hb as (col & <- & _). reflexivity.
Qed.

Lemma createWalls_notChip e : Forall notChip (createWalls e).
Proof. unfold createWalls. repeat constructor. Qed.

Lemma createSlots_notChip e :
  Forall notChip (fst (createSlots e)) /\ Forall notChip (snd (createSlots e)).
Proof.
  unfold createSlots. cbn [fst snd]. split; apply List.Forall_forall; intros b Hb;
    apply in_map_iff in Hb; destruct Hb as (i & <- & _); reflexivity.
Qed.

Lemma buildWorld_notChip e : Forall notChip (world (buildWorld e)).
Proof.
  unfold buildWorld. destruct (createSlots_notChip e) as [Hs Hd].
  destruct (createSlots e) as [sensors dividers]. cbn [world fst snd] in *.
  repeat (apply Forall_app; split); auto using createPegs_notChip, createWalls_notChip.
Qed.

Lemma notChip_no_bodies w : Forall notChip w ->
  List.filter (fun b => startsWith (label b) "chip-") w = nil /\
  forall id, existsb (fun b => isBodyOf id (label b)) w = false.
Proof.
  induction 1 as [|b w Hb _ [IH1 IH2]]; [split; reflexivity|].
  unfold notChip in Hb. split.
  - simpl. rewrite Hb. exact IH1.
  - intros id. simpl. unfold isBodyOf at 1. rewrite Hb. apply IH2.
Qed.

Lemma rebuild_clears_chips ev s :
  isRebuild ev = true ->
  chipBodies (engine (step s ev)) = nil /\
  (forall id, chipInWorld id (engine (step s ev)) = false) /\
  chips (engine (step s ev)) = chips (engine s) /\
  timeouts (step s ev) = timeouts s /\
  callbackLog (step s ev) = callbackLog s.
Proof.
  destruct ev; try discriminate; intros _; cbn [step engine withEngine timeouts callbackLog];
    unfold chipBodies, chipInWorld, resize, setRows.
  - destruct (notChip_no_bodies _ (buildWorld_notChip (calculateDimensions rect (engine s))))
      as [H1 H2].
    repeat split; auto.
  - destruct (notChip_no_bodies _
                (buildWorld_notChip (calculateDimensions rect (withRows (engine s) n))))
      as [H1 H2].
    repeat split; auto.
Qed.

Lemma onCollisionStart_labels : forall pairs s,
  map label (world (engine (onCollisionStart pairs s))) = map label (world (engine s)).
Proof.
  unfold onCollisionStart. induction pairs as [|p pairs IH]; intros s; simpl; [reflexivity|].
  rewrite IH. clear IH.
  assert (Hslot : forall s0, world (engine (handleSlotContact p s0)) = world (engine s0)).
  { intros s0. unfold handleSlotContact.
    repeat match goal with
           | |- context [match ?x with _ => _ end] => destruct x
           end; reflexivity. }
  rewrite Hslot. unfold handlePegContact.
  destruct (_ || _); [|reflexivity].
  destruct (pickLabel "chip-" p) as [chip|]; [|reflexivity].
  cbn [engine withEngine world withWorld emit].
  apply updateBody_labels. intros b Hb. exact Hb.
Qed.

(** A body of chip [id] is in the world after an event only if it was there
    before or the event is the drop that created it. *)
Lemma chipInWorld_step id s ev :
  chipInWorld id (engine (step s ev)) = true ->
  chipInWorld id (engine s) = true \/ In id (droppedIds (ev :: nil)).
Proof.
  destruct ev as [d x mode target|pairs|k|k detached random|now draws|integrate|rect|n rect|];
    cbn [step].
  - unfold dropChip, chipInWorld. cbn [fst engine world withWorld withChips].
    rewrite existsb_app. cbn [existsb label]. rewrite orb_false_r.
    intros H. apply orb_true_iff in H. destruct H as [H|H]; [left; exact H|].
    right. left. apply isBodyOf_chipLabel, H.
  - destruct (runnerActive (engine s)); [|auto].
    rewrite (chipInWorld_labels id _ (engine s)) by apply onCollisionStart_labels. auto.
  - destruct (nth_error (timeouts s) k) as [t|]; [|auto].
    unfold chipInWorld, fireTimeout. cbn [engine withEngine emit removeChip world].
    intros H. left. apply existsb_exists in H. destruct H as (b & Hin & Hb).
    apply existsb_exists. exists b. split; [eapply removeBody_incl, Hin | exact Hb].
  - unfold fireInterval.
    destruct (nth_error (intervals s) k) as [t|]; [|auto].
    destruct (nCleared t); [auto|].
    destruct (nudgeTick _ _ _ _) as [t' [fx|]]; [|auto].
    rewrite (chipInWorld_labels id _ (engine s)); [auto|].
    cbn [engine world withWorld]. apply updateBody_labels. intros b Hb. exact Hb.
  - destruct (isDestroyed (engine s)); [auto|].
    rewrite (chipInWorld_labels id _ (engine s)); [auto|].
    cbn [engine withEngine]. apply checkAndUnstickBalls_frame.
  - destruct (runnerActive (engine s)); [|auto].
    rewrite (chipInWorld_labels id _ (engine s)); [auto|].
    cbn [engine withEngine world withWorld]. rewrite map_map. reflexivity.
  - destruct (rebuild_clears_chips (EvResize rect) s eq_refl) as (_ & H & _).
    cbn [step] in H. rewrite H. discriminate.
  - destruct (rebuild_clears_chips (EvSetRows n rect) s eq_refl) as (_ & H & _).
    cbn [step] in H. rewrite H. discriminate.
  - discriminate.
Qed.

(** ** Chips discarded by a rebuild (claim C10) *)

Lemma pairInWorld_chipInWorld id e p :
  pairInWorld e p = true ->
  isBodyOf id (bodyA p) = true \/ isBodyOf id (bodyB p) = true ->
  chipInWorld id e = true.
Proof.
  unfold pairInWorld, chipInWorld. intros Hw Hb.
  apply andb_true_iff in Hw. destruct Hw as [Ha Hb'].
  apply existsb_exists in Ha. destruct Ha as (a & Hain & Ha).
  apply existsb_exists in Hb'. destruct Hb' as (b & Hbin & Hb').
  apply String.eqb_eq in Ha, Hb'. apply existsb_exists.
  destruct Hb as [H|H]; [exists a | exists b]; split; auto; congruence.
Qed.

Lemma orphan_change id ev v' :
  viewChange id ev (Some false, O, O) v' ->
  ~ In id (droppedIds (ev :: nil)) ->
  isDestroy ev = false ->
  (forall pairs pair, ev = EvCollision pairs -> In pair pairs ->
     isBodyOf id (bodyA pair) = true \/ isBodyOf id (bodyB pair) = true -> False) ->
  v' = (Some false, O, O).
Proof.
  intros Hch Hnot Hd Hland.
  inversion Hch as [v | d x mode target landed pd rp Hev Hid | pairs pair pd rp Hev Hin Hb
                    | k landed pd rp Hev | landed pd rp Hev]; subst.
  - reflexivity.
  - exfalso. apply Hnot. simpl. auto.
  - exfalso. eapply Hland; [reflexivity | exact Hin | exact Hb].
  - discriminate.
Qed.

Lemma orphaned_step id s ev :
  orphaned id s ->
  contactsInWorld s (ev :: nil) = true ->
  isDestroy ev = false ->
  ~ In id (droppedIds (ev :: nil)) ->
  orphaned id (step s ev).
Proof.
  unfold orphaned. intros [Hv Hw] Hc Hd Hnot. split.
  - pose proof (viewOf_step id s ev) as Hch. rewrite Hv in Hch.
    apply (orphan_change id ev _ Hch Hnot Hd).
    intros pairs pair -> Hin Hb.
    simpl in Hc. rewrite andb_true_r in Hc.
    rewrite forallb_forall in Hc. specialize (Hc pair Hin).
    rewrite (pairInWorld_chipInWorld id _ pair Hc Hb) in Hw. discriminate.
  - destruct (chipInWorld id (engine (step s ev))) eqn:E; [|reflexivity].
    apply chipInWorld_step in E. destruct E as [E|E]; [congruence | contradiction].
Qed.

Lemma orphaned_run id : forall trace s,
  orphaned id s ->
  contactsInWorld s trace = true ->
  noDestroy trace = true ->
  ~ In id (droppedIds trace) ->
  orphaned id (run s trace).
Proof.
  induction trace as [|ev trace IH]; intros s Ho Hc Hd Hnot; [exact Ho|].
  change (run s (ev :: trace)) with (run (step s ev) trace).
  cbn [contactsInWorld] in Hc. apply andb_true_iff in Hc. destruct Hc as [Hc1 Hc2].
  cbn [noDestroy forallb] in Hd. apply andb_true_iff in Hd. destruct Hd as [Hd1 Hd2].
  apply negb_true_iff in Hd1.
  apply IH; [|exact Hc2 | exact Hd2 |].
  - apply orphaned_step; [exact Ho | | exact Hd1 |].
    + cbn [contactsInWorld]. rewrite Hc1. reflexivity.
    + intros H. apply Hnot, droppedIds_split. left. exact H.
  - intros H. apply Hnot, droppedIds_split. right. exact H.
Qed.

(** C10, as stated, fails: the entry of a chip that was in flight when the
    world was rebuilt is deleted by a later [destroy()]. *)
Lemma rebuild_entry_cleared_by_destroy :
  ~ (forall n0 rect0 before rebuild after id,
       let s := run (PlinkoEngine_new n0 rect0) before in
       let s' := step s rebuild in
       isRebuild rebuild = true ->
       List.NoDup (droppedIds before) ->
       hasLanded <$> chips (engine s) !! id = Some false ->
       contactsInWorld s' after = true ->
       ~ In id (droppedIds after) ->
       getActiveChipCount (engine s') = getActiveChipCount (engine s) /\
       is_Some (chips (engine (run s' after)) !! id) /\
       landingCount id (callbackLog (run s' after)) = O).
Proof.
  intros H.
  specialize (H 8%nat sampleRect (EvDrop (sampleDrop "a") None Physics None :: nil)
                (EvResize sampleRect) (EvDestroy :: nil) "a").
  cbv zeta in H.
  destruct H as (_ & [cd Hcd] & _).
  - reflexivity.
  - constructor; [intros [] | constructor].
  - vm_compute. reflexivity.
  - reflexivity.
  - intros [].
  - vm_compute in Hcd. discriminate Hcd.
Qed.

(** A chip whose body is wiped between its sensor contact and the delayed
    closure still gets its landing reported, and is then deregistered. *)
Lemma rebuild_keeps_pending_landing :
  let s := run (PlinkoEngine_new 8 sampleRect)
               (EvDrop (sampleDrop "a") None Physics None
                :: EvCollision (samplePair "chip-a" "slot-4" :: nil)
                :: EvResize sampleRect
                :: EvTimeout 0 :: nil) in
  callbackLog s = OnChipCreated "a" :: OnSlotLanded "a" (Some 4%nat) :: nil /\
  chips (engine s) !! "a" = None.
Proof. split; vm_compute; reflexivity. Qed.

(** C10, as amended.  [resize()] and [setRows()] leave no chip body in the
    world and do not touch the registry, so [getActiveChipCount()] is
    unchanged.  A chip that was registered and in flight at that moment stays
    registered and in flight, and no landing is ever reported for it, over
    every later sequence of events in which contacts are reported between
    bodies of the world only, its identifier is not handed out again and
    [destroy()] is not called. *)
Theorem rebuild_orphans_chips_in_flight (n0 : nat) (rect0 : Rect)
    (before after : list Event) (rebuild : Event) (id : string) :
  let s := run (PlinkoEngine_new n0 rect0) before in
  let s' := step s rebuild in
  isRebuild rebuild = true ->
  List.NoDup (droppedIds before) ->
  hasLanded <$> chips (engine s) !! id = Some false ->
  contactsInWorld s' after = true ->
  noDestroy after = true ->
  ~ In id (droppedIds after) ->
  chipBodies (engine s') = nil /\
  chips (engine s') = chips (engine s) /\
  getActiveChipCount (engine s') = getActiveChipCount (engine s) /\
  hasLanded <$> chips (engine (run s' after)) !! id = Some false /\
  landingCount id (callbackLog (run s' after)) = O.
Proof.
  intros s s' Hr Hnd Hfly Hc Hd Hnot.
  destruct (rebuild_clears_chips rebuild s Hr) as (Hbodies & Hworld & Hchips & Hto & Hlog).
  fold s' in Hbodies, Hworld, Hchips, Hto, Hlog.
  split; [exact Hbodies|]. split; [exact Hchips|].
  split; [unfold getActiveChipCount; rewrite Hchips; reflexivity|].
  assert (Hb : landingBudget id s).
  { apply landingBudget_run; [exact Hnd | intros _; apply unusedId_new |].
    unfold landingBudget. rewrite (unusedId_new n0 rect0 id). simpl. split; [lia | discriminate]. }
  assert (Ho : orphaned id s').
  { unfold orphaned. split; [|apply Hworld].
    unfold landingBudget, withinBudget, viewOf in Hb. rewrite Hfly in Hb.
    destruct Hb as [_ Hb]. specialize (Hb eq_refl).
    unfold viewOf. rewrite Hchips, Hto, Hlog, Hfly. f_equal; [f_equal|]; lia. }
  pose proof (orphaned_run id after s' Ho Hc Hd Hnot) as [Hv _].
  unfold viewOf in Hv. injection Hv as Hv1 _ Hv3. split; assumption.
Qed.

Lemma rebuild_orphans_chips_in_flight_witness :
  let before := EvDrop (sampleDrop "a") None Deterministic (Some 4%nat) :: nil in
  let after :=
    EvPhysics (fun b => b)
    :: EvInterval 0 (mkVec 300 400) 0.5
    :: EvDrop (sampleDrop "b") None Physics None
    :: EvCollision (samplePair "chip-b" "slot-2" :: nil)
    :: EvTimeout 0
    :: EvSetRows 12 sampleRect :: nil in
  let s := run (PlinkoEngine_new 8 sampleRect) before in
  let s' := step s (EvResize sampleRect) in
  chipBodies (engine s') = nil /\
  chips (engine s') = chips (engine s) /\
  getActiveChipCount (engine s') = getActiveChipCount (engine s) /\
  hasLanded <$> chips (engine (run s' after)) !! "a" = Some false /\
  landingCount "a" (callbackLog (run s' after)) = O.
Proof.
  intros before after s s'.
  apply (rebuild_orphans_chips_in_flight 8 sampleRect before after (EvResize sampleRect) "a").
  - reflexivity.
  - constructor; [intros [] | constructor].
  - vm_compute. reflexivity.
  - vm_compute. reflexivity.
  - reflexivity.
  - cbn. intros [H|[]]. discriminate H.
Defined.

(** * Further properties of the code *)

(** ** [shuffleArray] *)

Lemma nextSeed_range s : (0 <= s)%Z -> (0 <= nextSeed s < 233280)%Z.
Proof. intros H. unfold nextSeed. apply Z.rem_bound_pos; lia. Qed.

Lemma shuffleIndex_range s i :
  (0 <= s < 233280)%Z -> (0 <= shuffleIndex s i <= Z.of_nat i)%Z.
Proof.
  intros [H0 H1]. unfold shuffleIndex.
  set (x := inject_Z s / 233280 * (ofNat i + 1)).
  assert (Hs0 : 0 <= inject_Z s) by (change 0 with (inject_Z 0); rewrite <- Zle_Qle; exact H0).
  assert (Hs1 : inject_Z s < 233280)
    by (change 233280 with (inject_Z 233280); rewrite <- Zlt_Qlt; exact H1).
  pose proof (ofNat_nonneg i) as Hi.
  assert (Hx0 : 0 <= x).
  { unfold x. apply Qmult_le_0_compat; [|lra].
    apply Qle_shift_div_l; lra. }
  assert (Hx1 : x < ofNat i + 1).
  { assert (Hq : inject_Z s / 233280 < 1) by (apply Qlt_shift_div_r; lra).
    unfold x. set (q := inject_Z s / 233280) in *. nra. }
  split.
  - change 0%Z with (Qfloor 0). apply Qfloor_resp_le, Hx0.
  - pose proof (Qfloor_le x) as Hf.
    assert (Hlt : inject_Z (Qfloor x) < inject_Z (Z.of_nat i + 1)).
    { rewrite inject_Z_plus. fold (ofNat i). change (inject_Z 1) with 1. lra. }
    rewrite <- Zlt_Qlt in Hlt. lia.
Qed.

Lemma swapEntries_spec {A} (i : nat) (j : Z) (l : list A) :
  (i < length l)%nat -> (0 <= j <= Z.of_nat i)%Z ->
  swapEntries i j l ≡ₚ l /\ length (swapEntries i j l) = length l.
Proof.
  intros Hi [Hj0 Hj1]. unfold swapEntries.
  destruct (lookup_lt_is_Some_2 l i Hi) as [a Ha]. rewrite Ha.
  destruct (Z.ltb_spec j 0) as [Hneg|_]; [lia|].
  destruct (lookup_lt_is_Some_2 l (Z.to_nat j) ltac:(lia)) as [b Hb]. rewrite Hb.
  split.
  - apply Permutation_insert_swap; assumption.
  - rewrite !length_insert. reflexivity.
Qed.

Lemma shuffleLoop_spec {A} : forall (i : nat) (s : Z) (l : list A),
  (0 <= s)%Z -> (i < length l)%nat \/ i = O ->
  shuffleLoop i s l ≡ₚ l /\ length (shuffleLoop i s l) = length l.
Proof.
  induction i as [|i IH]; intros s l Hs Hi; [split; reflexivity|].
  destruct Hi as [Hi|Hi]; [|discriminate]. cbn [shuffleLoop].
  pose proof (nextSeed_range s Hs) as Hn.
  destruct (swapEntries_spec (S i) (shuffleIndex (nextSeed s) (S i)) l Hi
              (shuffleIndex_range _ _ Hn)) as [Hp Hl].
  destruct (IH (nextSeed s) (swapEntries (S i) (shuffleIndex (nextSeed s) (S i)) l))
    as [Hp' Hl']; [lia | left; lia |].
  split; [rewrite Hp'; exact Hp | rewrite Hl'; exact Hl].
Qed.

(** X1.  For a seed that is not negative, [shuffleArray] returns a
    rearrangement of its argument: the same entries with the same
    multiplicities, hence the same length. *)
Theorem shuffleArray_permutation {A} (array : list A) (seed : Z) :
  (0 <= seed)%Z ->
  shuffleArray array seed ≡ₚ array /\ length (shuffleArray array seed) = length array.
Proof.
  intros Hs. unfold shuffleArray. apply shuffleLoop_spec; [exact Hs|].
  destruct array; [right; reflexivity | left; simpl; lia].
Qed.

Lemma shuffleArray_permutation_witness :
  (0 <= 208)%Z /\
  shuffleArray (5.0 :: 2.5 :: 1.5 :: 1.0 :: 0.5 :: nil) 208
    ≡ₚ (5.0 :: 2.5 :: 1.5 :: 1.0 :: 0.5 :: nil) /\
  length (shuffleArray (5.0 :: 2.5 :: 1.5 :: 1.0 :: 0.5 :: nil) 208) = 5%nat.
Proof.
  assert (H : (0 <= 208)%Z) by lia.
  destruct (shuffleArray_permutation (5.0 :: 2.5 :: 1.5 :: 1.0 :: 0.5 :: nil) 208 H) as [H1 H2].
  split; [exact H|]. split; [exact H1 | exact H2].
Defined.

(** ** Payout tables *)

Lemma generateSeed_nonneg riskMode rowCount :
  (0 <= ShuffledPayouts.generateSeed riskMode rowCount)%Z.
Proof. unfold ShuffledPayouts.generateSeed. destruct riskMode; lia. Qed.

(** X2.  In [payouts.ts] the slot values of a configuration are a
    rearrangement of its base row.  There is one value per slot in every
    configuration but high risk with 16 rows, whose base row has 16 entries
    for 17 slots: whatever the bet, landing in slot 16 of that board pays 0. *)
Theorem ShuffledPayouts_getSlotValues_shape (riskMode : RiskMode) (rowCount : RowCount)
    (betAmount : Q) :
  ShuffledPayouts.getSlotValues riskMode rowCount
    ≡ₚ ShuffledPayouts.BASE_SLOT_VALUES riskMode rowCount /\
  length (ShuffledPayouts.getSlotValues riskMode rowCount)
    = match riskMode, rowCount with
      | High, Rows16 => 16%nat
      | _, _ => getSlotCount (rowsOf rowCount)
      end /\
  ShuffledPayouts.calculatePayout betAmount 16 High Rows16 = 0.
Proof.
  unfold ShuffledPayouts.getSlotValues.
  destruct (shuffleArray_permutation (ShuffledPayouts.BASE_SLOT_VALUES riskMode rowCount)
              (ShuffledPayouts.generateSeed riskMode rowCount)
              (generateSeed_nonneg riskMode rowCount)) as [Hp Hl].
  split; [exact Hp|]. split.
  - rewrite Hl. destruct riskMode, rowCount; reflexivity.
  - unfold ShuffledPayouts.calculatePayout, payoutAt, ShuffledPayouts.getSlotValues.
    destruct (shuffleArray_permutation (ShuffledPayouts.BASE_SLOT_VALUES High Rows16)
                (ShuffledPayouts.generateSeed High Rows16)
                (generateSeed_nonneg High Rows16)) as [_ ->].
    reflexivity.
Qed.

Lemma payoutAt_out_of_range slots betAmount slotIndex :
  (slotIndex < 0)%Z \/ (Z.of_nat (length slots) <= slotIndex)%Z ->
  payoutAt slots betAmount slotIndex = 0.
Proof.
  intros H. unfold payoutAt.
  destruct (Z.ltb_spec slotIndex 0); [reflexivity|].
  destruct (Z.leb_spec (Z.of_nat (length slots)) slotIndex); [reflexivity | lia].
Qed.

Lemma payoutAt_in_range slots betAmount (i : nat) :
  (i < length slots)%nat ->
  payoutAt slots betAmount (Z.of_nat i) = betAmount * nth i slots 0.
Proof.
  intros H. unfold payoutAt.
  destruct (Z.ltb_spec (Z.of_nat i) 0); [lia|].
  destruct (Z.leb_spec (Z.of_nat (length slots)) (Z.of_nat i)); [lia|].
  rewrite Nat2Z.id. reflexivity.
Qed.

Lemma nonIncreasing_nth : forall l i j,
  nonIncreasing l = true -> (i <= j)%nat -> (j < length l)%nat -> nth j l 0 <= nth i l 0.
Proof.
  assert (Hstep : forall l j, nonIncreasing l = true -> (j < length l)%nat ->
                              nth j l 0 <= nth 0 l 0).
  { induction l as [|a l IH]; intros j Hn Hj; [simpl in Hj; lia|].
    destruct j as [|j]; [apply Qle_refl|].
    destruct l as [|b l]; [simpl in Hj; lia|].
    cbn [nonIncreasing] in Hn. apply andb_true_iff in Hn. destruct Hn as [Hba Hn].
    apply Qle_bool_iff in Hba.
    apply Qle_trans with b; [|exact Hba].
    apply (IH j Hn). simpl in Hj |- *. lia. }
  induction l as [|a l IH]; intros i j Hn Hij Hj; [simpl in Hj; lia|].
  destruct i as [|i]; [apply Hstep; assumption|].
  destruct j as [|j]; [lia|].
  simpl. apply IH; [|lia | simpl in Hj; lia].
  destruct l; [reflexivity|]. cbn [nonIncreasing] in Hn.
  apply andb_true_iff in Hn. apply Hn.
Qed.

Lemma mirrored_nth l i :
  mirrored l = true -> (i < length l)%nat -> nth (length l - 1 - i) l 0 == nth i l 0.
Proof.
  unfold mirrored. intros H Hi. rewrite forallb_forall in H.
  specialize (H i ltac:(apply in_seq; lia)). apply Qeq_bool_iff in H.
  symmetry. exact H.
Qed.

Lemma nth_firstn_lt (l : list Q) m j : (j < m)%nat -> nth j (firstn m l) 0 = nth j l 0.
Proof.
  revert m j. induction l as [|a l IH]; intros [|m] [|j] H; simpl; try reflexivity; try lia.
  apply IH. lia.
Qed.

(** X3.  With the table of [src/unnamed/part_003], for every risk mode and
    row count and every bet that is not negative: the payout of a slot equals
    the payout of its mirror slot, and between the left edge and the centre a
    slot nearer the edge never pays less than one nearer the centre. *)
Theorem EdgePayouts_edge_pays_most (riskMode : RiskMode) (rowCount : RowCount)
    (betAmount : Q) (i j : nat) :
  0 <= betAmount ->
  (i <= j)%nat ->
  (2 * j <= rowsOf rowCount)%nat ->
  EdgePayouts.calculatePayout betAmount (Z.of_nat j) riskMode rowCount
    <= EdgePayouts.calculatePayout betAmount (Z.of_nat i) riskMode rowCount /\
  EdgePayouts.calculatePayout betAmount (Z.of_nat (rowsOf rowCount - i)) riskMode rowCount
    == EdgePayouts.calculatePayout betAmount (Z.of_nat i) riskMode rowCount.
Proof.
  intros Hb Hij Hj.
  unfold EdgePayouts.calculatePayout, EdgePayouts.getSlotValues.
  set (l := EdgePayouts.SLOT_VALUES riskMode rowCount).
  assert (Hlen : length l = S (rowsOf rowCount)) by (destruct riskMode, rowCount; reflexivity).
  assert (Hmono : nonIncreasing (firstn (S (rowsOf rowCount / 2)) l) = true)
    by (destruct riskMode, rowCount; vm_compute; reflexivity).
  assert (Hmir : mirrored l = true) by (destruct riskMode, rowCount; vm_compute; reflexivity).
  assert (Hhalf : (j <= rowsOf rowCount / 2)%nat) by (apply Nat.div_le_lower_bound; lia).
  assert (Hhalf' : (rowsOf rowCount / 2 <= rowsOf rowCount)%nat)
    by (apply Nat.Div0.div_le_upper_bound; lia).
  rewrite !payoutAt_in_range by lia. split.
  - assert (Hle : nth j l 0 <= nth i l 0).
    { rewrite <- (nth_firstn_lt l (S (rowsOf rowCount / 2)) j) by lia.
      rewrite <- (nth_firstn_lt l (S (rowsOf rowCount / 2)) i) by lia.
      apply nonIncreasing_nth; [exact Hmono | exact Hij |].
      rewrite length_firstn. lia. }
    nra.
  - pose proof (mirrored_nth l i Hmir ltac:(lia)) as H. rewrite Hlen in H.
    replace (S (rowsOf rowCount) - 1 - i)%nat with (rowsOf rowCount - i)%nat in H by lia.
    rewrite H. reflexivity.
Qed.

Lemma EdgePayouts_edge_pays_most_witness :
  0 <= 100 /\ (1 <= 3)%nat /\ (2 * 3 <= rowsOf Rows12)%nat /\
  EdgePayouts.calculatePayout 100 (Z.of_nat 3) Balanced Rows12
    <= EdgePayouts.calculatePayout 100 (Z.of_nat 1) Balanced Rows12 /\
  EdgePayouts.calculatePayout 100 (Z.of_nat (rowsOf Rows12 - 1)) Balanced Rows12
    == EdgePayouts.calculatePayout 100 (Z.of_nat 1) Balanced Rows12.
Proof.
  assert (H1 : 0 <= 100) by discriminate.
  assert (H2 : (1 <= 3)%nat) by lia.
  assert (H3 : (2 * 3 <= rowsOf Rows12)%nat) by (simpl; lia).
  exact (conj H1 (conj H2 (conj H3
           (EdgePayouts_edge_pays_most Balanced Rows12 100 1 3 H1 H2 H3)))).
Defined.

Lemma peaksAt_nth c l i : peaksAt c l = true -> (i < length l)%nat -> nth i l 0 <= nth c l 0.
Proof.
  unfold peaksAt. intros H Hi. rewrite forallb_forall in H.
  apply Qle_bool_iff, H, nth_In, Hi.
Qed.

(** X4.  With the table of [src/unnamed/part_001], for every risk mode and
    row count and every bet that is not negative: no slot pays more than the
    centre slot, and a slot pays what its mirror slot pays. *)
Theorem CentrePayouts_centre_pays_most (riskMode : RiskMode) (rowCount : RowCount)
    (betAmount : Q) (i : nat) :
  0 <= betAmount ->
  (i <= rowsOf rowCount)%nat ->
  CentrePayouts.calculatePayout betAmount (Z.of_nat i) riskMode rowCount
    <= CentrePayouts.calculatePayout betAmount (Z.of_nat (rowsOf rowCount / 2)) riskMode rowCount /\
  CentrePayouts.calculatePayout betAmount (Z.of_nat (rowsOf rowCount - i)) riskMode rowCount
    == CentrePayouts.calculatePayout betAmount (Z.of_nat i) riskMode rowCount.
Proof.
  intros Hb Hi.
  unfold CentrePayouts.calculatePayout, CentrePayouts.getSlotValues.
  set (l := CentrePayouts.SLOT_VALUES riskMode rowCount).
  assert (Hlen : length l = S (rowsOf rowCount)) by (destruct riskMode, rowCount; reflexivity).
  assert (Hpeak : peaksAt (rowsOf rowCount / 2) l = true)
    by (destruct riskMode, rowCount; vm_compute; reflexivity).
  assert (Hmir : mirrored l = true) by (destruct riskMode, rowCount; vm_compute; reflexivity).
  assert (Hhalf : (rowsOf rowCount / 2 <= rowsOf rowCount)%nat)
    by (apply Nat.Div0.div_le_upper_bound; lia).
  rewrite !payoutAt_in_range by lia. split.
  - pose proof (peaksAt_nth _ l i Hpeak ltac:(lia)) as Hle. nra.
  - pose proof (mirrored_nth l i Hmir ltac:(lia)) as H. rewrite Hlen in H.
    replace (S (rowsOf rowCount) - 1 - i)%nat with (rowsOf rowCount - i)%nat in H by lia.
    rewrite H. reflexivity.
Qed.

Lemma CentrePayouts_centre_pays_most_witness :
  0 <= 100 /\ (0 <= rowsOf Rows12)%nat /\
  CentrePayouts.calculatePayout 100 (Z.of_nat 0) Balanced Rows12
    <= CentrePayouts.calculatePayout 100 (Z.of_nat (rowsOf Rows12 / 2)) Balanced Rows12 /\
  CentrePayouts.calculatePayout 100 (Z.of_nat (rowsOf Rows12 - 0)) Balanced Rows12
    == CentrePayouts.calculatePayout 100 (Z.of_nat 0) Balanced Rows12.
Proof.
  assert (H1 : 0 <= 100) by discriminate.
  assert (H2 : (0 <= rowsOf Rows12)%nat) by lia.
  exact (conj H1 (conj H2 (CentrePayouts_centre_pays_most Balanced Rows12 100 0 H1 H2))).
Defined.

(** ** Expected return *)

Lemma expectedReturn_fold (f : nat -> Q) : forall m acc,
  fold_left (fun ev i => ev + f i) (seq 0 m) acc == acc + sumQ (map f (seq 0 m)).
Proof.
  induction m as [|m IH]; intros acc.
  - unfold sumQ. simpl. ring.
  - rewrite sumQ_seq_S, seq_snoc, fold_left_app. simpl. rewrite IH. ring.
Qed.

(** X5.  [calculateExpectedReturn] is the binomial mean of the multipliers,
    the sum over the slots of C(n,i)/2^n times the multiplier of slot i.  Over
    the whole table of [src/unnamed/part_003] it lies above 1/4 and at most at
    647/640; it reaches 1 for low risk with 8 rows only, where it is 647/640. *)
Theorem calculateExpectedReturn_range (riskMode : RiskMode) (rowCount : RowCount) :
  EdgePayouts.calculateExpectedReturn riskMode rowCount
    == sumQ (map (fun i => binomialForm (rowsOf rowCount) i
                           * nth i (EdgePayouts.SLOT_VALUES riskMode rowCount) 0)
                 (seq 0 (rowsOf rowCount + 1))) /\
  1 # 4 < EdgePayouts.calculateExpectedReturn riskMode rowCount /\
  EdgePayouts.calculateExpectedReturn riskMode rowCount <= 647 # 640 /\
  (1 <= EdgePayouts.calculateExpectedReturn riskMode rowCount <->
   riskMode = Low /\ rowCount = Rows8).
Proof.
  split.
  - unfold EdgePayouts.calculateExpectedReturn.
    rewrite expectedReturn_fold, PayoutsBinomial_length. unfold getSlotCount.
    rewrite Qplus_0_l. apply sumQ_seq_ext. intros i Hi.
    rewrite PayoutsBinomial_nth by lia. reflexivity.
  - destruct riskMode, rowCount;
      (split; [vm_compute; reflexivity|]);
      (split; [vm_compute; discriminate|]);
      (split; [intros H; try (split; reflexivity); exfalso; vm_compute in H; apply H; reflexivity
              | intros [H1 H2]; try discriminate H1; try discriminate H2;
                vm_compute; discriminate]).
Qed.

(** ** [selectTargetSlot] *)

Lemma selectLoop_some : forall probs i c r k,
  selectLoop r probs i c = Some k ->
  c <= r ->
  (i <= k < i + length probs)%nat /\
  fold_left Qplus (firstn (k - i) probs) c <= r /\
  r < fold_left Qplus (firstn (S (k - i)) probs) c.
Proof.
  induction probs as [|p probs IH]; intros i c r k H Hc; [discriminate|].
  cbn [selectLoop] in H. destruct (Qltb r (c + p)) eqn:E.
  - injection H as <-. rewrite Nat.sub_diag. apply Qltb_lt in E. simpl.
    repeat split; try lia; assumption.
  - assert (Hc' : c + p <= r).
    { apply Qnot_lt_le. intros Hlt. apply Qltb_lt in Hlt. congruence. }
    destruct (IH (S i) (c + p) r k H Hc') as ([Hk1 Hk2] & Hlo & Hhi).
    replace (k - i)%nat with (S (k - S i)) by lia.
    simpl length. repeat split; try lia; assumption.
Qed.

Lemma selectLoop_none : forall probs i c r,
  selectLoop r probs i c = None -> c <= r -> fold_left Qplus probs c <= r.
Proof.
  induction probs as [|p probs IH]; intros i c r H Hc; cbn [selectLoop] in H.
  - exact Hc.
  - destruct (Qltb r (c + p)) eqn:E; [discriminate|]. simpl. eapply IH; [exact H|].
    apply Qnot_lt_le. intros Hlt. apply Qltb_lt in Hlt. congruence.
Qed.

Lemma sumQ_firstn_S (l : list Q) k :
  (k < length l)%nat -> sumQ (firstn (S k) l) = sumQ (firstn k l) + nth k l 0.
Proof.
  intros H. destruct (lookup_lt_is_Some_2 l k H) as [x Hx].
  change firstn with (@take Q). rewrite (take_S_r l k x Hx), sumQ_snoc.
  rewrite (nth_lookup_Some l k 0 x Hx). reflexivity.
Qed.

Lemma sumQ_firstn_mono (l : list Q) :
  (forall i, (i < length l)%nat -> 0 <= nth i l 0) ->
  forall a b, (a <= b)%nat -> sumQ (firstn a l) <= sumQ (firstn b l).
Proof.
  intros Hpos a b Hab. induction Hab as [|b Hab IH]; [apply Qle_refl|].
  destruct (Nat.lt_ge_cases b (length l)) as [Hb|Hb].
  - rewrite sumQ_firstn_S by exact Hb. specialize (Hpos b Hb). lra.
  - rewrite (firstn_all2 (n:=S b) l) by lia.
    rewrite (firstn_all2 (n:=b) l) in IH by lia. exact IH.
Qed.

Lemma flattenedForm_pos n i : 0 < flattenedForm n i.
Proof.
  unfold flattenedForm.
  assert (H1 : 0 <= ofNat (choose n i) / ofNat (2 ^ n)).
  { apply Qle_shift_div_l; [apply ofNat_pow2_pos|]. rewrite Qmult_0_l. apply ofNat_nonneg. }
  assert (H2 : 0 < 0.7 / ofNat (n + 1)).
  { apply Qlt_shift_div_l; [apply ofNat_pos; lia|]. rewrite Qmult_0_l. reflexivity. }
  lra.
Qed.

Lemma Payouts_laws n : distributionLaws n (Payouts.getSlotProbabilities n).
Proof.
  assert (Hs : 0 < ofNat (n + 1)) by (apply ofNat_pos; lia).
  apply (affine_binomial_laws _ _ 0.3 (0.7 / ofNat (n + 1))).
  - apply Payouts_length.
  - intros i Hi. rewrite Payouts_nth by exact Hi. reflexivity.
  - lra.
  - field. lra.
Qed.

Lemma Payouts_nonneg n i :
  (i < length (Payouts.getSlotProbabilities n))%nat ->
  0 <= nth i (Payouts.getSlotProbabilities n) 0.
Proof.
  rewrite Payouts_length. unfold getSlotCount. intros Hi.
  rewrite Payouts_nth by lia. apply Qlt_le_weak, flattenedForm_pos.
Qed.

(** Where the scan of [selectTargetSlot] stops, for a variate in [0, 1). *)
Lemma selectTargetSlot_bracket n r :
  0 <= r < 1 ->
  let k := Payouts.selectTargetSlot n r in
  (k <= n)%nat /\
  sumQ (firstn k (Payouts.getSlotProbabilities n)) <= r /\
  r < sumQ (firstn (S k) (Payouts.getSlotProbabilities n)).
Proof.
  intros [Hr0 Hr1]. cbv zeta. unfold Payouts.selectTargetSlot.
  destruct (selectLoop r (Payouts.getSlotProbabilities n) 0 0) as [k|] eqn:E.
  - destruct (selectLoop_some _ _ _ _ _ E Hr0) as ([_ Hk] & Hlo & Hhi).
    rewrite Payouts_length in Hk. unfold getSlotCount in Hk.
    rewrite Nat.sub_0_r in Hlo, Hhi. repeat split; try lia; assumption.
  - apply selectLoop_none in E; [|exact Hr0].
    pose proof (proj1 (proj2 (Payouts_laws n))) as Ht. unfold sumQ in Ht. lra.
Qed.

(** X6.  [selectTargetSlot] always returns a slot index of the board.  For a
    variate in [0, 1) it returns slot k exactly when the variate lies between
    the total probability of the slots before k and that total plus the
    probability of k: the returned slot is distributed like
    [getSlotProbabilities], and the fallback to the last index is never
    needed. *)
Theorem selectTargetSlot_inverse_cdf (rowCount : nat) (random : Q) (k : nat) :
  (Payouts.selectTargetSlot rowCount random <= rowCount)%nat /\
  (0 <= random < 1 ->
   (Payouts.selectTargetSlot rowCount random = k <->
    (k <= rowCount)%nat /\
    sumQ (firstn k (Payouts.getSlotProbabilities rowCount)) <= random /\
    random < sumQ (firstn (S k) (Payouts.getSlotProbabilities rowCount)))).
Proof.
  split.
  - unfold Payouts.selectTargetSlot.
    destruct (selectLoop random (Payouts.getSlotProbabilities rowCount) 0 0) as [j|] eqn:E.
    + destruct (Qlt_le_dec random 0) as [Hneg|Hpos].
      * (* a negative variate is below the first cumulative value *)
        pose proof (Payouts_length rowCount) as Hl.
        destruct (Payouts.getSlotProbabilities rowCount) as [|p rest] eqn:Ep;
          [discriminate|].
        pose proof (Payouts_nonneg rowCount 0) as Hp0. rewrite Ep in Hp0.
        specialize (Hp0 ltac:(simpl; lia)). simpl in Hp0.
        cbn [selectLoop] in E.
        assert (Ht : Qltb random (0 + p) = true) by (apply Qltb_lt; lra).
        rewrite Ht in E. injection E as <-. lia.
      * destruct (selectLoop_some _ _ _ _ _ E Hpos) as ([_ Hk] & _).
        rewrite Payouts_length in Hk. unfold getSlotCount in Hk. lia.
    + rewrite Payouts_length. unfold getSlotCount. lia.
  - intros Hr. pose proof (selectTargetSlot_bracket rowCount random Hr) as Hb.
    cbv zeta in Hb. destruct Hb as (Hk & Hlo & Hhi).
    pose proof (sumQ_firstn_mono _ (Payouts_nonneg rowCount)) as Hmono.
    split.
    + intros <-. repeat split; assumption.
    + intros (Hk' & Hlo' & Hhi').
      destruct (Nat.lt_trichotomy (Payouts.selectTargetSlot rowCount random) k)
        as [Hlt | [Heq | Hgt]]; [|exact Heq|].
      * specialize (Hmono (S (Payouts.selectTargetSlot rowCount random)) k ltac:(lia)). lra.
      * specialize (Hmono (S k) (Payouts.selectTargetSlot rowCount random) ltac:(lia)). lra.
Qed.

Lemma selectTargetSlot_inverse_cdf_witness :
  (Payouts.selectTargetSlot 8 0.5 <= 8)%nat /\
  (Payouts.selectTargetSlot 8 0.5 = 4%nat <->
   (4 <= 8)%nat /\
   sumQ (firstn 4 (Payouts.getSlotProbabilities 8)) <= 0.5 /\
   0.5 < sumQ (firstn 5 (Payouts.getSlotProbabilities 8))).
Proof.
  destruct (selectTargetSlot_inverse_cdf 8 0.5 4) as [H1 H2].
  split; [exact H1|]. apply H2. split; [discriminate | reflexivity].
Defined.

(** ** The peg lattice *)

Lemma pegsBefore_closed row : (2 * pegsBefore row = row * (row + 5))%nat.
Proof. induction row as [|r IH]; simpl; lia. Qed.

Lemma flat_map_snoc {A B} (f : A -> list B) l x :
  flat_map f (l ++ x :: nil) = flat_map f l ++ f x.
Proof. rewrite flat_map_app. simpl. rewrite app_nil_r. reflexivity. Qed.

Lemma createPegs_rows (row : nat -> list Body) : forall m,
  (forall r, length (row r) = (r + 3)%nat) ->
  length (flat_map row (seq 0 m)) = pegsBefore m /\
  forall r col d, (r < m)%nat -> (col < r + 3)%nat ->
    nth (pegsBefore r + col) (flat_map row (seq 0 m)) d = nth col (row r) d.
Proof.
  intros m Hlen. induction m as [|m [IHl IHn]].
  - split; [reflexivity | intros; lia].
  - rewrite seq_snoc, flat_map_snoc. split.
    + rewrite length_app, IHl, Hlen. reflexivity.
    + intros r col d Hr Hcol. destruct (Nat.eq_dec r m) as [->|Hne].
      * rewrite app_nth2 by lia. rewrite IHl. f_equal. lia.
      * rewrite app_nth1.
        -- apply IHn; lia.
        -- rewrite IHl. assert (pegsBefore (S r) <= pegsBefore m)%nat.
           { clear -Hr Hne. assert (S r <= m)%nat by lia.
             induction H; [lia | simpl in *; lia]. }
           simpl in H. lia.
Qed.

Lemma nth_map_seq_any {B} (f : nat -> B) m i d :
  (i < m)%nat -> nth i (map f (seq 0 m)) d = f i.
Proof.
  intros H. rewrite (nth_indep _ d (f O)) by (rewrite length_map, length_seq; exact H).
  rewrite map_nth, seq_nth by exact H. reflexivity.
Qed.

(** X7.  [createPegs] lays out rows(rows + 5)/2 pegs, row r holding r + 3 of
    them.  The peg in column col of row r is labelled "peg", lies at height
    pegSpacingY * (r + 1.5), and its mirror peg in the row (column r + 2 - col)
    lies as far right of the board's centre line as it lies left of it. *)
Theorem createPegs_lattice (e : Engine) (row col : nat) :
  (row < rows e)%nat ->
  (col < row + 3)%nat ->
  let peg := nth (pegsBefore row + col) (createPegs e) (staticBody "" 0 0) in
  let mirror := nth (pegsBefore row + (row + 2 - col)) (createPegs e) (staticBody "" 0 0) in
  length (createPegs e) = pegsBefore (rows e) /\
  (2 * length (createPegs e) = rows e * (rows e + 5))%nat /\
  label peg = "peg" /\
  vy (position peg) == pegSpacingY e * (ofNat row + 1.5) /\
  vx (position peg) == width e / 2 + (ofNat col - (ofNat row + 2) / 2) * pegSpacingX e /\
  vx (position peg) + vx (position mirror) == width e.
Proof.
  intros Hrow Hcol. cbv zeta. unfold createPegs.
  match goal with
  | |- context [flat_map ?f _] =>
      destruct (createPegs_rows f (rows e)) as [Hlen Hnth]
  end.
  { intros r. rewrite length_map, length_seq. reflexivity. }
  rewrite Hlen. split; [reflexivity|]. split; [apply pegsBefore_closed|].
  rewrite !Hnth by lia. rewrite !nth_map_seq_any by lia.
  pose proof (ofNat_add row 3) as H3. pose proof (ofNat_sub (row + 2) col ltac:(lia)) as Hs.
  pose proof (ofNat_add row 2) as H2.
  change (ofNat 3) with 3 in H3. change (ofNat 2) with 2 in H2.
  cbn [label position staticBody vx vy].
  split; [reflexivity|]. split; [ring|]. split.
  - rewrite H3. field.
  - rewrite Hs, H3, H2. field.
Qed.

Lemma createPegs_lattice_witness :
  let e := engine (PlinkoEngine_new 12 sampleRect) in
  let peg := nth (pegsBefore 11 + 0) (createPegs e) (staticBody "" 0 0) in
  let mirror := nth (pegsBefore 11 + (11 + 2 - 0)) (createPegs e) (staticBody "" 0 0) in
  length (createPegs e) = pegsBefore (rows e) /\
  (2 * length (createPegs e) = rows e * (rows e + 5))%nat /\
  label peg = "peg" /\
  vy (position peg) == pegSpacingY e * (ofNat 11 + 1.5) /\
  vx (position peg) == width e / 2 + (ofNat 0 - (ofNat 11 + 2) / 2) * pegSpacingX e /\
  vx (position peg) + vx (position mirror) == width e.
Proof.
  intros e.
  apply (createPegs_lattice e 11 0); [vm_compute; lia | lia].
Defined.

(** ** Slots: sensors, dividers and [getSlotPositions] *)

(** X8.  The slots of [getSlotPositions] tile the board between the two
    paddings: slot 0 starts at the left padding, the last divider stands at
    width minus padding.  For every slot i there is a sensor labelled
    "slot-i" centred on the slot, a divider on its left border and the next
    divider on its right border. *)
Theorem createSlots_geometry (e : Engine) (i : nat) (d : Body) :
  (i <= rows e)%nat ->
  let sensors := fst (createSlots e) in
  let dividers := snd (createSlots e) in
  let slot := nth i (getSlotPositions e) (mkSlotPosition 0 0) in
  length (getSlotPositions e) = (rows e + 1)%nat /\
  length sensors = (rows e + 1)%nat /\
  length dividers = (rows e + 2)%nat /\
  label (nth i sensors d) = slotLabel i /\
  vx (position (nth i sensors d)) == slotX slot + slotSpan slot / 2 /\
  vx (position (nth i dividers d)) == slotX slot /\
  vx (position (nth (S i) dividers d)) == slotX slot + slotSpan slot /\
  slotX (nth 0 (getSlotPositions e) (mkSlotPosition 0 0)) == boardPadding e /\
  vx (position (nth (rows e + 1) dividers d)) == width e - boardPadding e.
Proof.
  intros Hi. cbv zeta. unfold createSlots, getSlotPositions. cbn [fst snd].
  rewrite !length_map, !length_seq.
  rewrite !nth_map_seq_any by lia.
  cbn [label position staticBody vx slotX slotSpan].
  assert (Hn : 0 < ofNat (rows e + 1)) by (apply ofNat_pos; lia).
  pose proof (ofNat_S i) as HS.
  change (ofNat 0) with 0.
  repeat split; try lia;
    first [reflexivity | ring | (rewrite HS; ring) | (field; lra)].
Qed.

Lemma createSlots_geometry_witness :
  let e := engine (PlinkoEngine_new 12 sampleRect) in
  let d := staticBody "" 0 0 in
  let sensors := fst (createSlots e) in
  let dividers := snd (createSlots e) in
  let slot := nth 12 (getSlotPositions e) (mkSlotPosition 0 0) in
  length (getSlotPositions e) = (rows e + 1)%nat /\
  length sensors = (rows e + 1)%nat /\
  length dividers = (rows e + 2)%nat /\
  label (nth 12 sensors d) = slotLabel 12 /\
  vx (position (nth 12 sensors d)) == slotX slot + slotSpan slot / 2 /\
  vx (position (nth 12 dividers d)) == slotX slot /\
  vx (position (nth 13 dividers d)) == slotX slot + slotSpan slot /\
  slotX (nth 0 (getSlotPositions e) (mkSlotPosition 0 0)) == boardPadding e /\
  vx (position (nth (rows e + 1) dividers d)) == width e - boardPadding e.
Proof.
  intros e d.
  apply (createSlots_geometry e 12 d). vm_compute. lia.
Defined.

(** ** Sensor labels *)

Lemma parseDigits_string_of_uint : forall d acc,
  parseDigits (NilEmpty.string_of_uint d) acc = Nat.of_uint_acc d acc.
Proof.
  induction d as [|d IH|d IH|d IH|d IH|d IH|d IH|d IH|d IH|d IH|d IH]; intros acc;
    [reflexivity|..];
    cbn [NilEmpty.string_of_uint parseDigits Nat.of_uint_acc];
    (match goal with
     | |- context [digitOf ?c] =>
         let v := eval vm_compute in (digitOf c) in change (digitOf c) with v
     end);
    cbv iota; rewrite IH, Nat.tail_mul_spec; f_equal; lia.
Qed.

Lemma parseInt_showNat i : parseInt (showNat i) = Some i.
Proof.
  unfold showNat, parseInt.
  assert (Hnn : Nat.to_uint i <> Decimal.Nil).
  { pose proof (DecimalNat.Unsigned.to_of (Nat.to_uint i)) as H.
    rewrite DecimalNat.Unsigned.of_to in H. rewrite H.
    apply DecimalFacts.unorm_nonnil. }
  pose proof (parseDigits_string_of_uint (Nat.to_uint i) 0) as Hp.
  change (Nat.of_uint_acc (Nat.to_uint i) 0) with (Nat.of_uint (Nat.to_uint i)) in Hp.
  rewrite DecimalNat.Unsigned.of_to in Hp.
  destruct (Nat.to_uint i) as [|d|d|d|d|d|d|d|d|d|d]; [congruence|..];
    cbn [NilEmpty.string_of_uint] in *;
    (match goal with
     | |- context [digitOf ?c] =>
         let v := eval vm_compute in (digitOf c) in change (digitOf c) with v
     end);
    cbv iota; rewrite Hp; reflexivity.
Qed.

Lemma slotLabel_parse i : parseInt (removeFirst "slot-" (slotLabel i)) = Some i.
Proof. unfold slotLabel. rewrite removeFirst_append. apply parseInt_showNat. Qed.

Lemma startsWith_chipLabel id : startsWith (chipLabel id) "chip-" = true.
Proof. apply prefix_append. Qed.

Lemma startsWith_slotLabel i : startsWith (slotLabel i) "slot-" = true.
Proof. apply prefix_append. Qed.

(** The handler on one chip/sensor pair, for a registered chip in flight. *)
Lemma onCollisionStart_chip_sensor (i : nat) (id : string) (chipData : ChipData)
    (s : System) (r1 r2 r3 : Q) (sensorFirst : bool) :
  chips (engine s) !! id = Some chipData ->
  hasLanded chipData = false ->
  onCollisionStart
    ((if sensorFirst then mkPair (slotLabel i) (chipLabel id) r1 r2 r3
      else mkPair (chipLabel id) (slotLabel i) r1 r2 r3) :: nil) s
  = mkSystem (withChips (engine s) (<[id := markLanded chipData]> (chips (engine s))))
             (timeouts s ++ mkTimeout id (Some i) :: nil) (intervals s) (callbackLog s).
Proof.
  intros Hreg Hfly.
  assert (Hcs : startsWith (chipLabel id) "slot-" = false) by reflexivity.
  assert (Hsc : startsWith (slotLabel i) "chip-" = false) by reflexivity.
  assert (Hcp : String.eqb (chipLabel id) "peg" = false) by reflexivity.
  assert (Hsp : String.eqb (slotLabel i) "peg" = false) by reflexivity.
  unfold onCollisionStart. cbn [fold_left].
  destruct sensorFirst; unfold handlePegContact; cbn [bodyA bodyB];
    rewrite Hcp, Hsp; cbn [orb];
    unfold handleSlotContact, pickLabel; cbn [bodyA bodyB];
    rewrite ?Hcs, ?Hsc, ?startsWith_chipLabel, ?startsWith_slotLabel;
    rewrite removeFirst_chipLabel, Hreg, Hfly, slotLabel_parse; reflexivity.
Qed.

(** X9.  The label of sensor i decodes to i, and a contact between that
    sensor and the body of a registered chip in flight, reported in either
    order, schedules exactly one landing closure, for that chip and slot i. *)
Theorem sensor_contact_schedules_its_slot (i : nat) (id : string) (chipData : ChipData)
    (s : System) (r1 r2 r3 : Q) (sensorFirst : bool) :
  chips (engine s) !! id = Some chipData ->
  hasLanded chipData = false ->
  let p := if sensorFirst then mkPair (slotLabel i) (chipLabel id) r1 r2 r3
           else mkPair (chipLabel id) (slotLabel i) r1 r2 r3 in
  parseInt (removeFirst "slot-" (slotLabel i)) = Some i /\
  timeouts (onCollisionStart (p :: nil) s) = timeouts s ++ mkTimeout id (Some i) :: nil /\
  hasLanded <$> chips (engine (onCollisionStart (p :: nil) s)) !! id = Some true /\
  callbackLog (onCollisionStart (p :: nil) s) = callbackLog s.
Proof.
  intros Hreg Hfly. cbv zeta. split; [apply slotLabel_parse|].
  rewrite (onCollisionStart_chip_sensor i id chipData s r1 r2 r3 sensorFirst Hreg Hfly).
  cbn [timeouts engine chips withChips callbackLog].
  rewrite lookup_insert_eq. repeat split.
Qed.

Lemma sensor_contact_schedules_its_slot_witness :
  let s := run (PlinkoEngine_new 12 sampleRect)
               (EvDrop (sampleDrop "a") None Physics None :: nil) in
  let p := mkPair (slotLabel 7) (chipLabel "a") 0.5 0.5 0.5 in
  parseInt (removeFirst "slot-" (slotLabel 7)) = Some 7%nat /\
  timeouts (onCollisionStart (p :: nil) s) = timeouts s ++ mkTimeout "a" (Some 7%nat) :: nil /\
  hasLanded <$> chips (engine (onCollisionStart (p :: nil) s)) !! "a" = Some true /\
  callbackLog (onCollisionStart (p :: nil) s) = callbackLog s.
Proof.
  intros s p.
  apply (sensor_contact_schedules_its_slot 7 "a" (mkChipData "a" None false 1000 None None)
           s 0.5 0.5 0.5 true); [vm_compute; reflexivity | reflexivity].
Defined.

(** ** Drop zone *)

Lemma Math_min_spec a b : (a <= b /\ Math_min a b = a) \/ (b < a /\ Math_min a b = b).
Proof.
  unfold Math_min. destruct (Qle_bool a b) eqn:E.
  - left. split; [apply Qle_bool_iff, E | reflexivity].
  - right. split; [|reflexivity].
    apply Qnot_le_lt. intros H. apply Qle_bool_iff in H. congruence.
Qed.

Lemma Math_max_spec a b : (a <= b /\ Math_max a b = b) \/ (b < a /\ Math_max a b = a).
Proof.
  unfold Math_max. destruct (Qle_bool a b) eqn:E.
  - left. split; [apply Qle_bool_iff, E | reflexivity].
  - right. split; [|reflexivity].
    apply Qnot_le_lt. intros H. apply Qle_bool_iff in H. congruence.
Qed.

Lemma clamp_range lo hi x : lo <= hi -> lo <= clamp lo hi x /\ clamp lo hi x <= hi.
Proof.
  intros H. unfold clamp.
  destruct (Math_min_spec hi x) as [[H1 ->]|[H1 ->]];
    [destruct (Math_max_spec lo hi) as [[H2 ->]|[H2 ->]]
    |destruct (Math_max_spec lo x) as [[H2 ->]|[H2 ->]]]; split; lra.
Qed.



(** X11.  After [calculateDimensions] on a board of at least 8 rows in a
    container at least 38 pixels wide the drop zone is not empty, and its left
    end keeps chipRadius + pegRadius + 10 clear of the padding. *)
Theorem getDropZone_not_empty (rect : Rect) (e : Engine) :
  (8 <= rows e)%nat ->
  38 <= rectWidth rect ->
  let e' := calculateDimensions rect e in
  0 <= zoneWidth (getDropZone e') /\
  zoneX (getDropZone e') == boardPadding e' + chipRadius e' + pegRadius e' + 10.
Proof.
  intros Hrows Hw. cbv zeta. unfold getDropZone. cbn [zoneWidth zoneX].
  unfold calculateDimensions.
  cbn [width boardPadding chipRadius pegRadius].
  set (w := rectWidth rect) in *. set (h := rectHeight rect).
  set (m := Math_min w h).
  assert (Hr : 8 <= ofNat (rows e)) by (change 8 with (ofNat 8); apply ofNat_le, Hrows).
  assert (Hm : m <= w).
  { unfold m. destruct (Math_min_spec w h) as [[_ ->]|[H ->]]; lra. }
  assert (Hq : m / (ofNat (rows e) * 4) * (ofNat (rows e) * 4) == m) by (field; lra).
  set (q := m / (ofNat (rows e) * 4)) in *.
  split; [|ring].
  destruct (Math_max_spec 3 q) as [[H1 ->]|[H1 ->]]; [nra | lra].
Qed.

Lemma getDropZone_not_empty_witness :
  let e' := calculateDimensions sampleRect (engine (PlinkoEngine_new 8 sampleRect)) in
  0 <= zoneWidth (getDropZone e') /\
  zoneX (getDropZone e') == boardPadding e' + chipRadius e' + pegRadius e' + 10.
Proof.
  apply (getDropZone_not_empty sampleRect (engine (PlinkoEngine_new 8 sampleRect)));
    [vm_compute; lia | vm_compute; discriminate].
Defined.

(** ** From drop to removal *)

Lemma removeBody_snoc_absent lbl chip : forall w,
  findBody lbl w = None -> label chip = lbl -> removeBody lbl (w ++ chip :: nil) = w.
Proof.
  unfold findBody. induction w as [|b w IH]; intros Hf Hl; simpl in *.
  - rewrite Hl, String.eqb_refl. reflexivity.
  - destruct (String.eqb (label b) lbl); [discriminate|]. rewrite IH by assumption. reflexivity.
Qed.

Lemma nth_error_snoc {A} (l : list A) x : nth_error (l ++ x :: nil) (length l) = Some x.
Proof. rewrite nth_error_app2, Nat.sub_diag by lia. reflexivity. Qed.

Lemma removeNth_snoc {A} (l : list A) x : removeNth (length l) (l ++ x :: nil) = l.
Proof. induction l as [|y l IH]; simpl; [reflexivity | rewrite IH; reflexivity]. Qed.

Lemma engine_eta e :
  mkEngine (rows e) (width e) (height e) (pegRadius e) (chipRadius e) (pegSpacingX e)
    (pegSpacingY e) (boardPadding e) (slotHeight e) (world e) (pegs e) (walls e)
    (slotSensors e) (slotDividers e) (chips e) (runnerActive e) (isDestroyed e) = e.
Proof. destruct e; reflexivity. Qed.

(** X12.  For a fresh identifier on a running engine, a physics-mode drop,
    the contact of the new chip with sensor i and the firing of the closure
    that contact scheduled bring the engine back to exactly the state before
    the drop (same registry, same world, same pending timers and intervals); the
    callbacks delivered are [onChipCreated(id)] then [onSlotLanded(id, i)]. *)
Theorem drop_land_remove_round_trip (d : DropDraws) (xPosition : option Q)
    (target : option nat) (i : nat) (r1 r2 r3 : Q) (s : System) :
  chips (engine s) !! dropId d = None ->
  findBody (chipLabel (dropId d)) (world (engine s)) = None ->
  runnerActive (engine s) = true ->
  let s' := run s (EvDrop d xPosition Physics target
                   :: EvCollision (mkPair (chipLabel (dropId d)) (slotLabel i) r1 r2 r3 :: nil)
                   :: EvTimeout (length (timeouts s)) :: nil) in
  engine s' = engine s /\
  timeouts s' = timeouts s /\
  intervals s' = intervals s /\
  callbackLog s' = callbackLog s ++ OnChipCreated (dropId d) :: OnSlotLanded (dropId d) (Some i) :: nil.
Proof.
  intros Hfresh Hbody Hrun. cbv zeta. unfold run. cbn [fold_left].
  set (s1 := step s (EvDrop d xPosition Physics target)).
  assert (Hs1 : exists chip chipData,
             label chip = chipLabel (dropId d) /\ hasLanded chipData = false /\
             s1 = mkSystem
                    (withWorld (withChips (engine s) (<[dropId d := chipData]> (chips (engine s))))
                               (world (engine s) ++ chip :: nil))
                    (timeouts s) (intervals s) (callbackLog s ++ OnChipCreated (dropId d) :: nil)).
  { unfold s1. cbn [step]. unfold dropChip. cbn [fst].
    eexists _, _. split; [|split]; [| |rewrite app_nil_r; reflexivity]; reflexivity. }
  destruct Hs1 as (chip & chipData & Hlabel & Hfly & ->).
  cbn [step engine withWorld withChips runnerActive]. rewrite Hrun.
  rewrite (onCollisionStart_chip_sensor i (dropId d) chipData _ r1 r2 r3 false)
    by first [apply lookup_insert_eq | exact Hfly].
  cbn [timeouts engine intervals callbackLog].
  rewrite nth_error_snoc, removeNth_snoc.
  unfold fireTimeout, removeChip.
  cbn [toChipId toSlotIndex emit withEngine engine timeouts intervals callbackLog
       withWorld withChips world chips rows width height pegRadius chipRadius pegSpacingX
       pegSpacingY boardPadding slotHeight pegs walls slotSensors slotDividers runnerActive
       isDestroyed].
  rewrite (removeBody_snoc_absent _ chip _ Hbody Hlabel).
  rewrite insert_insert_eq, delete_insert_eq, (delete_id _ _ Hfresh) by reflexivity.
  rewrite engine_eta, <- app_assoc. repeat split.
Qed.

Lemma drop_land_remove_round_trip_witness :
  let s := PlinkoEngine_new 8 sampleRect in
  let s' := run s (EvDrop (sampleDrop "a") None Physics None
                   :: EvCollision (mkPair (chipLabel "a") (slotLabel 3) 0.5 0.5 0.5 :: nil)
                   :: EvTimeout (length (timeouts s)) :: nil) in
  engine s' = engine s /\
  timeouts s' = timeouts s /\
  intervals s' = intervals s /\
  callbackLog s' = callbackLog s ++ OnChipCreated "a" :: OnSlotLanded "a" (Some 3%nat) :: nil.
Proof.
  intros s.
  apply (drop_land_remove_round_trip (sampleDrop "a") None None 3 0.5 0.5 0.5 s);
    vm_compute; reflexivity.
Defined.

(** ** Peg bounces *)



(** ** Stuck-chip recovery, the other direction *)

(** The only branch of the recovery step that returns another body. *)
Lemma unstickChip_body_changed (now : Z) (d : UnstickDraws)
    (chipData : ChipData) (chip : Body) :
  snd (unstickChip now d chipData chip) <> chip ->
  exists last t,
    lastPosition chipData = Some last /\
    stuckCheckTime chipData = Some t /\ t <> 0%Z /\ (500 < now - t)%Z /\
    squaredNorm (vx (position chip) - vx last) (vy (position chip) - vy last) < 1.5 * 1.5 /\
    squaredNorm (vx (velocity chip)) (vy (velocity chip)) < 0.2 * 0.2 /\
    fst (unstickChip now d chipData chip)
    = setStuckCheck chipData (Some (position chip)) (Some now).
Proof.
  unfold unstickChip.
  destruct (lastPosition chipData) as [last|] eqn:Hlast;
    [|cbn [fst snd]; intros H; exfalso; apply H; reflexivity].
  destruct (Qltb _ (minMovement * minMovement)) eqn:Hmove;
    [|cbn [fst snd]; intros H; exfalso; apply H; reflexivity].
  destruct (stuckCheckTime chipData) as [t|] eqn:Ht;
    [|cbn [fst snd]; intros H; exfalso; apply H; reflexivity].
  cbn [truthyTime default from_option id].
  destruct (t =? 0)%Z eqn:Hz;
    [cbn [negb fst snd]; intros H; exfalso; apply H; reflexivity|].
  cbn [negb].
  destruct (stuckThreshold <? now - t)%Z eqn:Hold;
    [|cbn [fst snd]; intros H; exfalso; apply H; reflexivity].
  destruct (Qltb _ (0.2 * 0.2)) eqn:Hslow;
    [|cbn [fst snd]; intros H; exfalso; apply H; reflexivity].
  cbn [fst snd]. intros _.
  exists last, t. apply Qltb_lt in Hmove, Hslow.
  apply Z.eqb_neq in Hz. apply Z.ltb_lt in Hold. unfold stuckThreshold in Hold.
  repeat split; assumption.
Qed.

Lemma unstickChip_position now d chipData chip :
  position (snd (unstickChip now d chipData chip)) = position chip.
Proof.
  unfold unstickChip.
  repeat match goal with
         | |- context [match ?x with _ => _ end] => destruct x
         end; reflexivity.
Qed.

(** X14.  The recovery step changes a chip's body only in the intervention
    branch: the chip has a recorded position less than 1.5 px away, a truthy
    stuck timer more than 500 ms old, and a speed below 0.2; the bookkeeping
    is then reset to the current position and time.  Label and position of the
    body are never changed. *)
Theorem unstickChip_changes_body_only_when_stuck (now : Z) (d : UnstickDraws)
    (chipData : ChipData) (chip : Body) :
  label (snd (unstickChip now d chipData chip)) = label chip /\
  position (snd (unstickChip now d chipData chip)) = position chip /\
  (snd (unstickChip now d chipData chip) <> chip ->
   exists last t,
     lastPosition chipData = Some last /\
     stuckCheckTime chipData = Some t /\ t <> 0%Z /\ (500 < now - t)%Z /\
     squaredNorm (vx (position chip) - vx last) (vy (position chip) - vy last) < 1.5 * 1.5 /\
     squaredNorm (vx (velocity chip)) (vy (velocity chip)) < 0.2 * 0.2 /\
     fst (unstickChip now d chipData chip)
     = setStuckCheck chipData (Some (position chip)) (Some now)).
Proof.
  split; [apply unstickChip_frame|]. split; [apply unstickChip_position|].
  apply unstickChip_body_changed.
Qed.

Lemma unstickChip_changes_body_only_when_stuck_witness :
  exists last t,
    lastPosition sampleStuckData = Some last /\
    stuckCheckTime sampleStuckData = Some t /\ t <> 0%Z /\ (500 < 2000 - t)%Z /\
    squaredNorm (vx (position sampleStuckBody) - vx last)
                (vy (position sampleStuckBody) - vy last) < 1.5 * 1.5 /\
    squaredNorm (vx (velocity sampleStuckBody)) (vy (velocity sampleStuckBody)) < 0.2 * 0.2 /\
    fst (unstickChip 2000 sampleUnstickDraws sampleStuckData sampleStuckBody)
    = setStuckCheck sampleStuckData (Some (position sampleStuckBody)) (Some 2000%Z).
Proof.
  apply (unstickChip_changes_body_only_when_stuck 2000 sampleUnstickDraws
           sampleStuckData sampleStuckBody).
  vm_compute. intros H. discriminate H.
Defined.

(** X15.  After an intervention at time [now] the same chip is left alone by
    every recovery step up to [now + 500], wherever the body is by then and
    however slow it is. *)
Theorem unstickChip_cooldown (now now' : Z) (d d' : UnstickDraws)
    (chipData : ChipData) (chip chip' : Body) :
  snd (unstickChip now d chipData chip) <> chip ->
  (now' - now <= 500)%Z ->
  snd (unstickChip now' d' (fst (unstickChip now d chipData chip)) chip') = chip'.
Proof.
  intros Hkick Hsoon.
  destruct (unstickChip_body_changed now d chipData chip Hkick) as (last & t & _ & _ & _ & _ & _ & _ & ->).
  unfold unstickChip at 1. cbn [setStuckCheck lastPosition stuckCheckTime].
  destruct (Qltb _ (minMovement * minMovement)); [|reflexivity].
  cbn [truthyTime default from_option id].
  destruct (now =? 0)%Z; cbn [negb]; [reflexivity|].
  assert (Hold : (stuckThreshold <? now' - now)%Z = false)
    by (apply Z.ltb_ge; unfold stuckThreshold; lia).
  rewrite Hold. reflexivity.
Qed.

Lemma unstickChip_cooldown_witness :
  snd (unstickChip 2500 sampleUnstickDraws
         (fst (unstickChip 2000 sampleUnstickDraws sampleStuckData sampleStuckBody))
         sampleStuckBody) = sampleStuckBody.
Proof.
  apply (unstickChip_cooldown 2000 2500 sampleUnstickDraws sampleUnstickDraws
           sampleStuckData sampleStuckBody sampleStuckBody).
  - vm_compute. intros H. discriminate H.
  - lia.
Defined.

(** ** What the recovery pass leaves alone *)

Lemma updateBody_positions lbl chip chip' : forall w,
  findBody lbl w = Some chip -> position chip' = position chip ->
  map position (updateBody lbl (fun _ => chip') w) = map position w.
Proof.
  unfold findBody. induction w as [|b w IH]; intros Hf Hp; simpl in *; [reflexivity|].
  destruct (String.eqb (label b) lbl); simpl.
  - injection Hf as Hf. subst b. rewrite Hp. reflexivity.
  - rewrite IH by assumption. reflexivity.
Qed.

Lemma updateBody_In_other lbl f b : forall w,
  In b w -> label b <> lbl -> In b (updateBody lbl f w).
Proof.
  induction w as [|x w IH]; intros Hin Hne; simpl in *; [contradiction|].
  destruct (String.eqb_spec (label x) lbl) as [E|_].
  - destruct Hin as [->|Hin]; [contradiction | right; exact Hin].
  - destruct Hin as [->|Hin]; [left; reflexivity | right; apply IH; assumption].
Qed.

Lemma unstickStep_preserves now draws e k :
  dom (chips (unstickStep now draws e k)) = dom (chips e) /\
  map position (world (unstickStep now draws e k)) = map position (world e) /\
  (forall b, In b (world e) -> outOfPlay e b -> In b (world (unstickStep now draws e k))) /\
  getDimensions (unstickStep now draws e k) = getDimensions e.
Proof.
  unfold unstickStep.
  destruct (chips e !! k) as [chipData|] eqn:Hreg; [|auto].
  destruct (hasLanded chipData) eqn:Hl; [auto|].
  destruct (findBody (chipLabel k) (world e)) as [chip|] eqn:Hbody; [|auto].
  pose proof (unstickChip_position now (draws k) chipData chip) as Hpos.
  destruct (unstickChip now (draws k) chipData chip) as [chipData' chip'].
  cbn [snd] in Hpos. cbn [chips world withWorld withChips].
  split; [|split; [|split]].
  - rewrite dom_insert_L. apply elem_of_dom_2 in Hreg. set_solver.
  - apply (updateBody_positions _ chip); assumption.
  - intros b Hin Hout. apply updateBody_In_other; [exact Hin|].
    exact (Hout k chipData Hreg Hl).
  - reflexivity.
Qed.

Lemma outOfPlay_unstickStep now draws e k b :
  outOfPlay e b -> outOfPlay (unstickStep now draws e k) b.
Proof.
  intros Hout id chipData Hreg Hl.
  destruct (unstickStep_frame now draws e k) as (H & _).
  specialize (H id). rewrite Hreg in H. cbn in H.
  destruct (chips e !! id) as [old|] eqn:Hold; [|discriminate].
  cbn in H. apply (Hout id old Hold). congruence.
Qed.

(** X16.  One pass of [checkAndUnstickBalls] neither registers nor
    deregisters a chip, moves no body, leaves the board dimensions alone, and
    leaves every body untouched that is not the body of a registered chip
    in flight: pegs, walls, sensors, dividers and the bodies of landed chips. *)
Theorem checkAndUnstickBalls_preserves (now : Z) (draws : string -> UnstickDraws)
    (e : Engine) :
  let e' := checkAndUnstickBalls now draws e in
  dom (chips e') = dom (chips e) /\
  getActiveChipCount e' = getActiveChipCount e /\
  map position (world e') = map position (world e) /\
  map label (world e') = map label (world e) /\
  getDimensions e' = getDimensions e /\
  (forall b, In b (world e) -> outOfPlay e b -> In b (world e')).
Proof.
  cbv zeta.
  assert (H : dom (chips (checkAndUnstickBalls now draws e)) = dom (chips e) /\
              map position (world (checkAndUnstickBalls now draws e)) = map position (world e) /\
              getDimensions (checkAndUnstickBalls now draws e) = getDimensions e /\
              (forall b, In b (world e) -> outOfPlay e b ->
                         In b (world (checkAndUnstickBalls now draws e)))).
  { unfold checkAndUnstickBalls. generalize (map fst (map_to_list (chips e))) as keys.
    intros keys. revert e. induction keys as [|k keys IH]; intros e; simpl; [auto|].
    destruct (IH (unstickStep now draws e k)) as (H1 & H2 & H3 & H4).
    destruct (unstickStep_preserves now draws e k) as (H5 & H6 & H7 & H8).
    split; [congruence|]. split; [congruence|]. split; [congruence|].
    intros b Hin Hout. apply H4; [apply H7; assumption|].
    apply outOfPlay_unstickStep, Hout. }
  destruct H as (H1 & H2 & H3 & H4).
  repeat split; try assumption.
  - unfold getActiveChipCount. rewrite <- !size_dom, H1. reflexivity.
  - apply checkAndUnstickBalls_frame.
Qed.

(** ** Steering force *)

(** X17.  A steering force, when one is applied, points from the chip toward
    the target column and its size lies between 0.00001 and 0.00003 times the
    remaining horizontal distance, for a [Math.random()] value in [0, 1). *)
Theorem nudge_force_toward_target (e : Engine) (chip : Body) (random : Q)
    (t : NudgeTask) (fx : Q) :
  0 <= random < 1 ->
  snd (nudgeTick e chip random t) = Some fx ->
  let diff := nTargetX t - vx (position chip) in
  (0 <= diff -> 0.00001 * diff <= fx /\ fx <= 0.00003 * diff) /\
  (diff <= 0 -> 0.00003 * diff <= fx /\ fx <= 0.00001 * diff) /\
  (0 <= nSlotWidth t -> 0 < fx * diff).
Proof.
  intros [Hr0 Hr1] Hfx. cbv zeta. unfold nudgeTick in Hfx.
  destruct (isDestroyed e || (nMaxNudges t <=? nNudgeCount t)%nat); [discriminate|].
  destruct (negb (chipInFlight e t)); [discriminate|].
  cbn [snd] in Hfx.
  destruct (Qltb 0.3 (nudgeProgress e chip) && Qltb (nudgeProgress e chip) 0.85);
    [|discriminate].
  destruct (Qltb (nSlotWidth t * 0.3) (Math_abs (nTargetX t - vx (position chip)))) eqn:Hfar;
    [|discriminate].
  injection Hfx as <-. apply Qltb_lt in Hfar.
  set (diff := nTargetX t - vx (position chip)) in *.
  split; [|split].
  - intros Hd. split; nra.
  - intros Hd. split; nra.
  - intros Hw. destruct (Math_abs_spec diff) as [[H1 H2]|[H1 H2]]; rewrite H2 in Hfar.
    + assert (0 < diff) by lra. assert (0 < diff * diff) by nra. nra.
    + assert (0 < diff * diff) by nra. nra.
Qed.

Lemma nudge_force_toward_target_witness :
  let e := engine (step (PlinkoEngine_new 8 sampleRect)
                        (EvDrop (sampleDrop "a") None Deterministic (Some 6%nat))) in
  let chip := mkBody (chipLabel "a") (mkVec 300 400) (mkVec 0 1) (mkVec 0 0) 0 in
  let t := applyDeterministicNudges e chip 6 in
  exists fx,
    snd (nudgeTick e chip 0.5 t) = Some fx /\
    0.00001 * (nTargetX t - vx (position chip)) <= fx /\
    fx <= 0.00003 * (nTargetX t - vx (position chip)).
Proof.
  intros e chip t.
  assert (Hfx : exists fx, snd (nudgeTick e chip 0.5 t) = Some fx).
  { eexists. vm_compute. reflexivity. }
  destruct Hfx as [fx Hfx]. exists fx. split; [exact Hfx|].
  apply (nudge_force_toward_target e chip 0.5 t fx ltac:(lra) Hfx).
  vm_compute. congruence.
Defined.

(** ** A destroyed engine *)

Lemma withWorld_same e : withWorld e (world e) = e.
Proof. destruct e; reflexivity. Qed.

Lemma replaceNth_counts t : forall k l,
  nth_error l k = Some t ->
  map nNudgeCount (replaceNth k (clearInterval t) l) = map nNudgeCount l.
Proof.
  induction k as [|k IH]; intros [|x l] H; simpl in *; try discriminate.
  - injection H as ->. reflexivity.
  - rewrite IH by assumption. reflexivity.
Qed.

Lemma destroyed_step s ev :
  isDestroyed (engine s) = true ->
  isGuardedCallback ev = true ->
  engine (step s ev) = engine s /\
  timeouts (step s ev) = timeouts s /\
  callbackLog (step s ev) = callbackLog s /\
  map nNudgeCount (intervals (step s ev)) = map nNudgeCount (intervals s).
Proof.
  intros Hd Hg. destruct ev; try discriminate; cbn [step].
  - unfold fireInterval.
    destruct (nth_error (intervals s) k) as [t|] eqn:Hk; [|auto].
    destruct (nCleared t); [auto|].
    unfold nudgeTick. rewrite Hd. cbn [orb].
    cbn [engine timeouts callbackLog intervals].
    rewrite withWorld_same, (replaceNth_counts t k _ Hk). auto.
  - rewrite Hd. auto.
Qed.

(** X18.  The two host callbacks that check [isDestroyed] are inert on a
    destroyed engine: over any sequence of frames and interval firings the
    engine is unchanged, no callback is delivered, no timer is scheduled and no
    steering counter advances. *)
Theorem destroyed_engine_ignores_frames_and_intervals (s : System) (trace : list Event) :
  isDestroyed (engine s) = true ->
  forallb isGuardedCallback trace = true ->
  engine (run s trace) = engine s /\
  timeouts (run s trace) = timeouts s /\
  callbackLog (run s trace) = callbackLog s /\
  map nNudgeCount (intervals (run s trace)) = map nNudgeCount (intervals s).
Proof.
  unfold run. revert s. induction trace as [|ev trace IH]; intros s Hd Hg; [auto|].
  cbn [forallb] in Hg. apply andb_prop in Hg. destruct Hg as [Hev Hg].
  destruct (destroyed_step s ev Hd Hev) as (H1 & H2 & H3 & H4).
  cbn [fold_left].
  destruct (IH (step s ev)) as (H5 & H6 & H7 & H8); [congruence | exact Hg |].
  repeat split; congruence.
Qed.

Lemma destroyed_engine_ignores_frames_and_intervals_witness :
  let s := run (PlinkoEngine_new 8 sampleRect)
               (EvDrop (sampleDrop "a") None Deterministic (Some 6%nat) :: EvDestroy :: nil) in
  let trace := EvFrame 2000 (fun _ => sampleUnstickDraws)
               :: EvInterval 0 (mkVec 300 400) 0.5 :: nil in
  engine (run s trace) = engine s /\
  timeouts (run s trace) = timeouts s /\
  callbackLog (run s trace) = callbackLog s /\
  map nNudgeCount (intervals (run s trace)) = map nNudgeCount (intervals s).
Proof.
  intros s trace.
  apply (destroyed_engine_ignores_frames_and_intervals s trace); reflexivity.
Defined.

(** ** Rebuilds *)


(** ** The world after a rebuild *)

Lemma slotLabel_inj : Finite.Injective slotLabel.
Proof.
  intros i j H. pose proof (slotLabel_parse i) as Hi. rewrite H, slotLabel_parse in Hi.
  congruence.
Qed.

Lemma filter_none {A} (f : A -> bool) : forall l,
  Forall (fun x => f x = false) l -> List.filter f l = nil.
Proof. induction 1 as [|x l Hx _ IH]; simpl; [|rewrite Hx]; auto. Qed.

Lemma filter_all {A} (f : A -> bool) : forall l,
  Forall (fun x => f x = true) l -> List.filter f l = l.
Proof. induction 1 as [|x l Hx _ IH]; simpl; [|rewrite Hx, IH]; auto. Qed.

(** X20.  The world that [buildWorld] leaves: with r rows it holds
    r(r+5)/2 pegs, four walls, r + 1 sensors and r + 2 dividers and no chip
    body; the sensors carry the labels slot-0 .. slot-r, pairwise
    distinct, and are the only bodies whose label starts with "slot-". *)
Theorem buildWorld_census (e : Engine) :
  let e' := buildWorld e in
  length (world e') = (pegsBefore (rows e) + 4 + (rows e + 1) + (rows e + 2))%nat /\
  map label (slotSensors e') = map slotLabel (seq 0 (rows e + 1)) /\
  List.NoDup (map label (slotSensors e')) /\
  List.filter (fun b => startsWith (label b) "slot-") (world e') = slotSensors e' /\
  List.filter (fun b => startsWith (label b) "chip-") (world e') = nil.
Proof.
  cbv zeta. unfold buildWorld, createSlots. cbn [world slotSensors].
  assert (Hlabels : forall m,
            map label (map (fun i => staticBody (slotLabel i)
                                       (boardPadding e
                                        + (width e - boardPadding e * 2) / ofNat (rows e + 1) / 2
                                        + ofNat i * ((width e - boardPadding e * 2)
                                                     / ofNat (rows e + 1)))
                                       (height e - slotHeight e / 2)) m)
            = map slotLabel m).
  { intros m. rewrite map_map. reflexivity. }
  split; [|split; [|split; [|split]]].
  - rewrite !length_app, !length_map, !length_seq.
    match goal with
    | |- context [length (createPegs e)] =>
        unfold createPegs;
        match goal with
        | |- context [flat_map ?f _] =>
            destruct (createPegs_rows f (rows e)) as [-> _];
            [intros r; rewrite length_map, length_seq; reflexivity|]
        end
    end.
    simpl. lia.
  - apply Hlabels.
  - rewrite Hlabels. apply Finite.Injective_map_NoDup; [apply slotLabel_inj | apply seq_NoDup].
  - rewrite !List.filter_app.
    rewrite (filter_none _ (createPegs e)), (filter_all _ (map _ (seq 0 (rows e + 1)))).
    + rewrite (filter_none _ (map _ (seq 0 (rows e + 1 + 1)))).
      * rewrite app_nil_r. reflexivity.
      * apply List.Forall_forall. intros b Hb. apply in_map_iff in Hb.
        destruct Hb as (i & <- & _). reflexivity.
    + apply List.Forall_forall. intros b Hb. apply in_map_iff in Hb.
      destruct Hb as (i & <- & _). apply startsWith_slotLabel.
    + apply List.Forall_forall. intros b Hb. unfold createPegs in Hb.
      apply in_flat_map in Hb. destruct Hb as (row & _ & Hb).
      apply in_map_iff in Hb. destruct Hb as (col & <- & _). reflexivity.
  - pose proof (buildWorld_notChip e) as H. unfold buildWorld, createSlots in H.
    cbn [world] in H. apply filter_none. exact H.
Qed.

(** ** Chip material *)

(** X21.  For [Math.random()] values in [0, 1) the clamps of
    [getRandomizedChipPhysics] never bind: the restitution is
    0.65 + (r1 - 0.5) * 0.3, in [0.5, 0.8), and the friction is
    0.08 + (r2 - 0.5) * 0.08, in [0.04, 0.12). *)
Theorem getRandomizedChipPhysics_clamps_never_bind (r1 r2 : Q) :
  0 <= r1 < 1 ->
  0 <= r2 < 1 ->
  let '(restitution, friction) := getRandomizedChipPhysics r1 r2 in
  restitution == 0.65 + (r1 - 0.5) * 0.3 /\ 0.5 <= restitution < 0.8 /\
  friction == 0.08 + (r2 - 0.5) * 0.08 /\ 0.04 <= friction < 0.12.
Proof.
  intros [H1 H2] [H3 H4]. unfold getRandomizedChipPhysics.
  destruct (Math_min_spec 0.9 (0.65 + (r1 - 0.5) * 2 * 0.15)) as [[Ha ->]|[Ha ->]];
    destruct (Math_min_spec 0.15 (0.08 + (r2 - 0.5) * 2 * 0.04)) as [[Hb ->]|[Hb ->]];
    try lra.
  destruct (Math_max_spec 0.3 (0.65 + (r1 - 0.5) * 2 * 0.15)) as [[Hc ->]|[Hc ->]];
    destruct (Math_max_spec 0.02 (0.08 + (r2 - 0.5) * 2 * 0.04)) as [[Hd ->]|[Hd ->]];
    lra.
Qed.

Lemma getRandomizedChipPhysics_clamps_never_bind_witness :
  let '(restitution, friction) := getRandomizedChipPhysics 0.25 0.75 in
  restitution == 0.65 + (0.25 - 0.5) * 0.3 /\ 0.5 <= restitution < 0.8 /\
  friction == 0.08 + (0.75 - 0.5) * 0.08 /\ 0.04 <= friction < 0.12.
Proof.
  apply (getRandomizedChipPhysics_clamps_never_bind 0.25 0.75); split; lra.
Defined.

(** ** Game store *)

Import GameStore.

Lemma payoutAt_nonneg slots betAmount slotIndex :
  forallb (Qle_bool 0) slots = true -> 0 <= betAmount ->
  0 <= payoutAt slots betAmount slotIndex.
Proof.
  intros Hs Hb. unfold payoutAt.
  destruct ((slotIndex <? 0)%Z || (Z.of_nat (length slots) <=? slotIndex)%Z) eqn:E; [lra|].
  apply orb_false_iff in E. destruct E as [E1 E2].
  apply Z.ltb_ge in E1. apply Z.leb_gt in E2.
  assert (Hin : In (nth (Z.to_nat slotIndex) slots 0) slots) by (apply nth_In; lia).
  rewrite forallb_forall in Hs. apply Hs, Qle_bool_iff in Hin.
  apply Qmult_le_0_compat; assumption.
Qed.

Lemma calculatePayout_nonneg betAmount slotIndex riskMode rowCount :
  0 <= betAmount ->
  0 <= ShuffledPayouts.calculatePayout betAmount slotIndex riskMode rowCount /\
  0 <= EdgePayouts.calculatePayout betAmount slotIndex riskMode rowCount /\
  0 <= CentrePayouts.calculatePayout betAmount slotIndex riskMode rowCount.
Proof.
  intros Hb. repeat split; apply payoutAt_nonneg; try assumption;
    destruct riskMode, rowCount; vm_compute; reflexivity.
Qed.

Lemma sumNat_app l1 l2 : sumNat (l1 ++ l2) = (sumNat l1 + sumNat l2)%nat.
Proof. induction l1 as [|x l1 IH]; simpl; [reflexivity | rewrite IH; lia]. Qed.

Lemma sumNat_repeat_0 n : sumNat (repeat O n) = O.
Proof. induction n; simpl; auto. Qed.

Lemma sumNat_insert : forall (l : list nat) i v,
  (i < length l)%nat -> (sumNat (<[i := v]> l) + nth i l O = sumNat l + v)%nat.
Proof.
  induction l as [|x l IH]; intros [|i] v Hi; simpl in *; try lia.
  specialize (IH i v ltac:(lia)). lia.
Qed.

Lemma nth_insert_eq : forall (l : list nat) i v,
  (i < length l)%nat -> nth i (<[i := v]> l) O = v.
Proof. induction l as [|x l IH]; intros [|i] v Hi; simpl in *; try lia; auto with arith. Qed.

Lemma nth_insert_ne : forall (l : list nat) i j v,
  i <> j -> nth j (<[i := v]> l) O = nth j l O.
Proof.
  induction l as [|x l IH]; intros [|i] [|j] v Hne; simpl; try reflexivity; try lia.
  apply IH. lia.
Qed.

Lemma nth_padded (l : list nat) n j : nth j (l ++ repeat O n) O = nth j l O.
Proof.
  destruct (Nat.lt_ge_cases j (length l)) as [H|H].
  - apply app_nth1, H.
  - rewrite app_nth2 by exact H. rewrite (nth_overflow l) by exact H.
    apply nth_repeat.
Qed.

(** X22.  The tally that [recordResult] keeps per slot: the array grows to
    reach the slot if it is too short and never shrinks, the entry of the slot
    goes up by one, every other entry keeps its value, and so the entries sum
    to one more than before. *)
Theorem recordResult_slot_tally (calculatePayout : Q -> Z -> RiskMode -> RowCount -> Q)
    (d : ResultDraws) (slotIdx : nat) (s : GameState) :
  let before := slotHistory (stats s) in
  let after := slotHistory (stats (fst (recordResult calculatePayout d slotIdx s))) in
  length after = Nat.max (length before) (S slotIdx) /\
  nth slotIdx after O = S (nth slotIdx before O) /\
  (forall j, j <> slotIdx -> nth j after O = nth j before O) /\
  sumNat after = S (sumNat before) /\
  totalDrops (stats (fst (recordResult calculatePayout d slotIdx s))) = S (totalDrops (stats s)).
Proof.
  cbv zeta. unfold recordResult. cbn [fst stats slotHistory totalDrops]. unfold bumpSlot.
  set (l := slotHistory (stats s)).
  set (padded := l ++ repeat O (S slotIdx - length l)).
  assert (Hlen : length padded = Nat.max (length l) (S slotIdx))
    by (unfold padded; rewrite length_app, repeat_length; lia).
  assert (Hi : (slotIdx < length padded)%nat) by lia.
  assert (Hnth : forall j, nth j padded O = nth j l O) by (intros j; apply nth_padded).
  split; [rewrite length_insert; exact Hlen|].
  split; [rewrite nth_insert_eq by exact Hi; rewrite Hnth; reflexivity|].
  split; [intros j Hj; rewrite nth_insert_ne by congruence; apply Hnth|].
  split; [|reflexivity].
  pose proof (sumNat_insert padded slotIdx (S (nth slotIdx padded O)) Hi) as H.
  assert (Hsum : sumNat padded = sumNat l)
    by (unfold padded; rewrite sumNat_app, sumNat_repeat_0; lia).
  lia.
Qed.

Lemma recordResult_sum calc d i s :
  sumNat (slotHistory (stats (fst (recordResult calc d i s))))
  = S (sumNat (slotHistory (stats s))).
Proof.
  unfold recordResult. cbn [fst stats slotHistory]. unfold bumpSlot.
  set (l := slotHistory (stats s)).
  set (padded := l ++ repeat O (S i - length l)).
  assert (Hi : (i < length padded)%nat)
    by (unfold padded; rewrite length_app, repeat_length; lia).
  pose proof (sumNat_insert padded i (S (nth i padded O)) Hi) as H.
  assert (Hsum : sumNat padded = sumNat l)
    by (unfold padded; rewrite sumNat_app, sumNat_repeat_0; lia).
  lia.
Qed.

Lemma recordResult_totalDrops calc d i s :
  totalDrops (stats (fst (recordResult calc d i s))) = S (totalDrops (stats s)).
Proof. reflexivity. Qed.

Lemma placeBet_cases s :
  (placeBet s = (s, false) /\
   (balance s < betAmount s \/ (MAX_ACTIVE_CHIPS <= activeChips s)%nat)) \/
  (placeBet s = (withBalance s (balance s - betAmount s), true) /\
   betAmount s <= balance s /\ (activeChips s < MAX_ACTIVE_CHIPS)%nat).
Proof.
  unfold placeBet. destruct (Qltb (balance s) (betAmount s)) eqn:E.
  - left. split; [reflexivity|]. left. apply Qltb_lt, E.
  - destruct (Nat.leb_spec MAX_ACTIVE_CHIPS (activeChips s)) as [Hfull|Hroom].
    + left. split; [reflexivity|]. right. assumption.
    + right. split; [reflexivity|]. split; [|assumption].
      apply Qnot_lt_le. intros H. apply Qltb_lt in H. congruence.
Qed.

(** The tally and the drop counter, one action at a time. *)
Lemma dispatch_tally calc s a :
  (isSetRowCount a = false ->
   sumNat (slotHistory (stats s)) = totalDrops (stats s) ->
   sumNat (slotHistory (stats (dispatch calc s a)))
   = totalDrops (stats (dispatch calc s a))) /\
  ((sumNat (slotHistory (stats s)) <= totalDrops (stats s))%nat ->
   (sumNat (slotHistory (stats (dispatch calc s a)))
    <= totalDrops (stats (dispatch calc s a)))%nat).
Proof.
  destruct a; cbn [dispatch isSetRowCount];
    try (split; [intros _ H; exact H | intros H; exact H]).
  - split; [discriminate|]. intros _.
    cbn [setRowCount stats slotHistory totalDrops]. rewrite sumNat_repeat_0. lia.
  - destruct (placeBet_cases s) as [[-> _]|[-> _]];
      (split; [intros _ H; exact H | intros H; exact H]).
  - rewrite recordResult_sum, recordResult_totalDrops. split; intros; lia.
  - cbn [resetStats withStats stats slotHistory totalDrops].
    rewrite sumNat_repeat_0. split; intros; lia.
  - unfold panelDropChip. destruct (negb (Qle_bool (betAmount s) (balance s))); [split; [intros _ H; exact H | auto]|].
    destruct (placeBet_cases (fst (startNewSession newId 1 s))) as [[-> _]|[-> _]];
      (split; [intros _ H; exact H | intros H; exact H]).
  - unfold panelDropNext.
    destruct (placeBet_cases s) as [[-> _]|[-> _]];
      (split; [intros _ H; exact H | intros H; exact H]).
  - cbn [setHighlightedSlot decrementActiveChips withActiveChips stats].
    rewrite recordResult_sum, recordResult_totalDrops. split; intros; lia.
Qed.

(** X23.  Over any sequence of store actions and handler runs the slot
    tallies never sum to more than [totalDrops]; they sum to exactly
    [totalDrops] as long as [setRowCount] is not called, which resets the
    tallies and keeps the counter. *)
Theorem store_tally_matches_totalDrops (calculatePayout : Q -> Z -> RiskMode -> RowCount -> Q)
    (trace : list Action) (s : GameState) :
  let s' := runStore calculatePayout s trace in
  ((sumNat (slotHistory (stats s)) <= totalDrops (stats s))%nat ->
   (sumNat (slotHistory (stats s')) <= totalDrops (stats s'))%nat) /\
  (sumNat (slotHistory (stats s)) = totalDrops (stats s) ->
   forallb (fun a => negb (isSetRowCount a)) trace = true ->
   sumNat (slotHistory (stats s')) = totalDrops (stats s')) /\
  (let reset := setRowCount Rows8 (fst (recordResult calculatePayout sampleDraws 0 initialState)) in
   sumNat (slotHistory (stats reset)) = 0%nat /\ totalDrops (stats reset) = 1%nat).
Proof.
  cbv zeta. unfold runStore. split; [|split].
  - revert s. induction trace as [|a trace IH]; intros s H; [exact H|].
    cbn [fold_left]. apply IH, (dispatch_tally calculatePayout s a), H.
  - revert s. induction trace as [|a trace IH]; intros s H Hn; [exact H|].
    cbn [fold_left forallb] in *. apply andb_prop in Hn. destruct Hn as [Ha Hn].
    apply IH; [|exact Hn].
    destruct (dispatch_tally calculatePayout s a) as [H1 _].
    apply negb_true_iff in Ha. exact (H1 Ha H).
  - split; reflexivity.
Qed.

(** X24.  The history holds at most 50 results, newest first: a recorded
    result goes to the front, becomes [lastResult], and the list is cut to 50
    entries; no other action adds an entry. *)
Theorem store_history_capped (calculatePayout : Q -> Z -> RiskMode -> RowCount -> Q)
    (trace : list Action) (s : GameState) (d : ResultDraws) (slotIdx : nat) :
  (length (history s) <= MAX_HISTORY_LENGTH)%nat ->
  (length (history (runStore calculatePayout s trace)) <= MAX_HISTORY_LENGTH)%nat /\
  let '(s1, result) := recordResult calculatePayout d slotIdx s in
  history s1 = result :: firstn 49 (history s) /\
  lastResult s1 = Some result.
Proof.
  intros H. split.
  - unfold runStore. revert s H. induction trace as [|a trace IH]; intros s H; [exact H|].
    cbn [fold_left]. apply IH.
    assert (Hrec : forall d' i,
              (length (history (fst (recordResult calculatePayout d' i s)))
               <= MAX_HISTORY_LENGTH)%nat).
    { intros d' i. unfold recordResult. cbn [fst history]. apply firstn_le_length. }
    destruct a; cbn [dispatch]; try exact H; try apply Hrec.
    + destruct (placeBet_cases s) as [[-> _]|[-> _]]; exact H.
    + cbn. lia.
    + unfold panelDropChip. destruct (negb (Qle_bool (betAmount s) (balance s))); [exact H|].
      destruct (placeBet_cases (fst (startNewSession newId 1 s))) as [[-> _]|[-> _]]; exact H.
    + unfold panelDropNext. destruct (placeBet_cases s) as [[-> _]|[-> _]]; exact H.
  - unfold recordResult. cbn [history lastResult]. split; reflexivity.
Qed.

Lemma store_history_capped_witness :
  (length (history (runStore EdgePayouts.calculatePayout initialState
                      (PanelDropChip "s1" :: BoardSlotLanded sampleDraws 3 :: nil)))
   <= MAX_HISTORY_LENGTH)%nat.
Proof.
  apply (store_history_capped EdgePayouts.calculatePayout
           (PanelDropChip "s1" :: BoardSlotLanded sampleDraws 3 :: nil)
           initialState sampleDraws 3).
  unfold MAX_HISTORY_LENGTH. cbn. lia.
Defined.

Lemma Math_max_ge_1 amount : 0 <= Math_max 1 amount.
Proof. pose proof (Math_max_lower 1 amount). lra. Qed.

(** X25.  With payouts that are never negative (true of the three payout
    tables for a non-negative bet) the balance cannot become negative: over any
    sequence of store actions and handler runs other than [setBalance], a
    non-negative balance and bet stay non-negative; [placeBet] accepts exactly
    when the bet is covered and fewer than 200 chips are active, and then takes
    exactly the bet. *)
Theorem store_balance_never_negative
    (calculatePayout : Q -> Z -> RiskMode -> RowCount -> Q)
    (trace : list Action) (s : GameState) :
  (forall bet i mode count, 0 <= bet -> 0 <= calculatePayout bet i mode count) ->
  0 <= balance s ->
  0 <= betAmount s ->
  forallb (fun a => negb (isSetBalance a)) trace = true ->
  0 <= balance (runStore calculatePayout s trace) /\
  0 <= betAmount (runStore calculatePayout s trace) /\
  (snd (placeBet s) = true <->
   betAmount s <= balance s /\ (activeChips s < MAX_ACTIVE_CHIPS)%nat) /\
  balance (fst (placeBet s))
  == balance s - (if snd (placeBet s) then betAmount s else 0).
Proof.
  intros Hpay Hb Hbet Htrace.
  assert (Hinv : 0 <= balance (runStore calculatePayout s trace) /\
                 0 <= betAmount (runStore calculatePayout s trace)).
  { unfold runStore. revert s Hb Hbet Htrace.
    induction trace as [|a trace IH]; intros s Hb Hbet Htrace; [split; assumption|].
    cbn [fold_left forallb] in *. apply andb_prop in Htrace. destruct Htrace as [Ha Htrace].
    assert (Hrec : forall d i,
              0 <= balance (fst (recordResult calculatePayout d i s)) /\
              0 <= betAmount (fst (recordResult calculatePayout d i s))).
    { intros d i. unfold recordResult. cbn [fst balance betAmount].
      pose proof (Hpay (betAmount s) (Z.of_nat i) (riskMode s) (rowCount s) Hbet).
      split; lra. }
    assert (Hplace : forall s0, 0 <= balance s0 -> 0 <= betAmount s0 ->
              0 <= balance (fst (placeBet s0)) /\ 0 <= betAmount (fst (placeBet s0))).
    { intros s0 H0 H1. destruct (placeBet_cases s0) as [[-> _]|[-> [H2 _]]];
        cbn [fst withBalance balance betAmount]; split; lra. }
    assert (Hstep : 0 <= balance (dispatch calculatePayout s a) /\
                    0 <= betAmount (dispatch calculatePayout s a)).
    { destruct a; try discriminate Ha; cbn [dispatch];
        try (split; assumption); try apply Hrec; try (apply Hplace; assumption).
      - split; [assumption | apply Math_max_ge_1].
      - unfold panelDropChip. destruct (negb (Qle_bool (betAmount s) (balance s))); [split; assumption|].
        pose proof (Hplace (fst (startNewSession newId 1 s)) Hb Hbet) as Hp.
        destruct (placeBet (fst (startNewSession newId 1 s))) as [s2 [|]]; exact Hp.
      - unfold panelDropNext. pose proof (Hplace s Hb Hbet) as Hp.
        destruct (placeBet s) as [s1 [|]]; exact Hp. }
    destruct Hstep as [H1 H2]. apply IH; assumption. }
  destruct Hinv as [H1 H2]. split; [exact H1|]. split; [exact H2|].
  destruct (placeBet_cases s) as [[-> Hno]|[-> [Hyes1 Hyes2]]]; cbn [fst snd].
  - split; [|lra]. split; [discriminate|]. intros [H3 H4].
    destruct Hno as [Hno|Hno]; [lra | lia].
  - split; [|cbn [withBalance balance]; lra]. split; [intros _; split; assumption | reflexivity].
Qed.

Lemma store_balance_never_negative_witness :
  0 <= balance (runStore EdgePayouts.calculatePayout initialState
                  (PanelDropChip "s1" :: BoardSlotLanded sampleDraws 3 :: nil)).
Proof.
  refine (proj1 (store_balance_never_negative EdgePayouts.calculatePayout
                   (PanelDropChip "s1" :: BoardSlotLanded sampleDraws 3 :: nil) initialState
                   _ _ _ _)).
  - intros bet i mode count Hbet. apply (calculatePayout_nonneg bet i mode count Hbet).
  - vm_compute. congruence.
  - vm_compute. congruence.
  - reflexivity.
Defined.

Lemma recordAll_session calc sid : forall landings m s,
  sid <> EmptyString ->
  currentSessionId s = Some sid ->
  sessionChipCount s = Z.of_nat m ->
  (length landings <= m)%nat ->
  Forall (fun r => sessionId r = sid) (snd (recordAll calc landings s)) /\
  length (snd (recordAll calc landings s)) = length landings /\
  sessionChipCount (fst (recordAll calc landings s)) = Z.of_nat (m - length landings) /\
  currentSessionId (fst (recordAll calc landings s))
  = (if (length landings =? 0)%nat then Some sid
     else if (length landings =? m)%nat then None else Some sid).
Proof.
  induction landings as [|[d i] landings IH]; intros m s Hsid Hcur Hcount Hlen.
  - cbn. rewrite Nat.sub_0_r. repeat split; [constructor | assumption..].
  - cbn [length] in Hlen. cbn [recordAll].
    destruct (recordResult calc d i s) as [s1 r] eqn:Hrec.
    assert (Hr : sessionId r = sid /\
                 sessionChipCount s1 = Z.of_nat (m - 1) /\
                 currentSessionId s1 = if (m =? 1)%nat then None else Some sid).
    { unfold recordResult in Hrec. injection Hrec as <- <-.
      cbn [sessionId sessionChipCount currentSessionId]. rewrite Hcur, Hcount.
      split; [destruct sid; [contradiction | reflexivity]|].
      split; [lia|].
      destruct (Nat.eqb_spec m 1) as [->|Hne]; [reflexivity|].
      destruct (Z.eqb_spec (Z.max 0 (Z.of_nat m - 1)) 0); [lia | reflexivity]. }
    destruct Hr as (Hr1 & Hr2 & Hr3).
    destruct landings as [|l2 landings].
    + cbn [recordAll fst snd length Nat.eqb].
      split; [constructor; [exact Hr1 | constructor]|]. split; [reflexivity|].
      split; [exact Hr2|]. rewrite Hr3, Nat.eqb_sym. reflexivity.
    + assert (Hm : (m =? 1)%nat = false) by (apply Nat.eqb_neq; cbn [length] in Hlen; lia).
      rewrite Hm in Hr3.
      destruct (IH (m - 1)%nat s1 Hsid Hr3 Hr2 ltac:(cbn [length] in *; lia))
        as (H1 & H2 & H3 & H4).
      destruct (recordAll calc (l2 :: landings) s1) as [s2 rs]. cbn [fst snd] in *.
      split; [constructor; assumption|]. split; [cbn [length] in *; lia|].
      split; [rewrite H3; f_equal; cbn [length]; lia|].
      rewrite H4. cbn [length Nat.eqb].
      destruct (Nat.eqb_spec (S (length landings)) (m - 1)) as [E|E];
        destruct m as [|[|m]]; try reflexivity; cbn [Nat.eqb];
        destruct (Nat.eqb_spec (length landings) m) as [E'|E']; try reflexivity;
        cbn in E; lia.
Qed.

(** X26.  After [startNewSession(n)] with n >= 1, the next n recorded
    results all carry the identifier of that session, whatever was current
    before; the n-th of them clears the session, and the result after that
    gets a freshly generated identifier. *)
Theorem session_results_carry_id (calculatePayout : Q -> Z -> RiskMode -> RowCount -> Q)
    (sid : string) (landings : list (ResultDraws * nat)) (d : ResultDraws) (slotIdx : nat)
    (s : GameState) :
  sid <> EmptyString ->
  (1 <= length landings)%nat ->
  let s0 := fst (startNewSession sid (Z.of_nat (length landings)) s) in
  let '(s1, rs) := recordAll calculatePayout landings s0 in
  Forall (fun r => sessionId r = sid) rs /\
  length rs = length landings /\
  currentSessionId s1 = None /\
  sessionChipCount s1 = 0%Z /\
  sessionId (snd (recordResult calculatePayout d slotIdx s1)) = drawSessionId d.
Proof.
  intros Hsid Hlen. cbv zeta.
  destruct (recordAll_session calculatePayout sid landings (length landings)
              (fst (startNewSession sid (Z.of_nat (length landings)) s)) Hsid
              eq_refl eq_refl (le_n _)) as (H1 & H2 & H3 & H4).
  destruct (recordAll calculatePayout landings _) as [s1 rs]. cbn [fst snd] in *.
  rewrite Nat.eqb_refl in H4.
  assert (Hz : (length landings =? 0)%nat = false) by (apply Nat.eqb_neq; lia).
  rewrite Hz in H4. rewrite Nat.sub_diag in H3.
  split; [exact H1|]. split; [exact H2|]. split; [exact H4|]. split; [exact H3|].
  unfold recordResult. cbn [snd sessionId]. rewrite H4. reflexivity.
Qed.

Lemma session_results_carry_id_witness :
  let s0 := fst (startNewSession "s1" 2 initialState) in
  let '(s1, rs) := recordAll EdgePayouts.calculatePayout
                     ((sampleDraws, 3%nat) :: (sampleDraws, 5%nat) :: nil) s0 in
  Forall (fun r => sessionId r = "s1") rs /\
  length rs = 2%nat /\
  currentSessionId s1 = None /\
  sessionChipCount s1 = 0%Z /\
  sessionId (snd (recordResult EdgePayouts.calculatePayout sampleDraws 0 s1))
  = drawSessionId sampleDraws.
Proof.
  apply (session_results_carry_id EdgePayouts.calculatePayout "s1"
           ((sampleDraws, 3%nat) :: (sampleDraws, 5%nat) :: nil) sampleDraws 0 initialState).
  - discriminate.
  - cbn. lia.
Defined.

(** X27.  As the control panel and the board use the store (an increment
    only after an accepted bet, a decrement on every landing) the number of
    active chips never exceeds 200: the bound is kept by every action and
    handler except a bare [incrementActiveChips], and the counter never goes
    below zero on a decrement. *)
Theorem store_activeChips_bounded (calculatePayout : Q -> Z -> RiskMode -> RowCount -> Q)
    (trace : list Action) (s : GameState) :
  (activeChips s <= MAX_ACTIVE_CHIPS)%nat ->
  forallb (fun a => negb (isIncrement a)) trace = true ->
  (activeChips (runStore calculatePayout s trace) <= MAX_ACTIVE_CHIPS)%nat /\
  activeChips (decrementActiveChips s) = Nat.pred (activeChips s).
Proof.
  intros Hb Htrace. split; [|cbn; lia].
  unfold runStore. revert s Hb Htrace.
  induction trace as [|a trace IH]; intros s Hb Htrace; [exact Hb|].
  cbn [fold_left forallb] in *. apply andb_prop in Htrace. destruct Htrace as [Ha Htrace].
  apply IH; [|exact Htrace].
  assert (Hplace : forall s0, (activeChips s0 <= MAX_ACTIVE_CHIPS)%nat ->
            (activeChips (fst (placeBet s0)) <= MAX_ACTIVE_CHIPS)%nat /\
            (snd (placeBet s0) = true ->
             (activeChips (fst (placeBet s0)) < MAX_ACTIVE_CHIPS)%nat)).
  { intros s0 H0. destruct (placeBet_cases s0) as [[-> _]|[-> [_ H2]]];
      cbn [fst snd withBalance activeChips]; split; [exact H0 | discriminate | exact H0 | auto]. }
  destruct a; try discriminate Ha; cbn [dispatch]; try exact Hb.
  - apply Hplace, Hb.
  - cbn. lia.
  - unfold panelDropChip. destruct (negb (Qle_bool (betAmount s) (balance s))); [exact Hb|].
    destruct (Hplace (fst (startNewSession newId 1 s)) Hb) as [H1 H2].
    destruct (placeBet (fst (startNewSession newId 1 s))) as [s2 [|]]; cbn [fst snd] in *.
    + specialize (H2 eq_refl). cbn. lia.
    + exact H1.
  - unfold panelDropNext. destruct (Hplace s Hb) as [H1 H2].
    destruct (placeBet s) as [s1 [|]]; cbn [fst snd] in *.
    + specialize (H2 eq_refl). cbn. lia.
    + exact H1.
  - cbn. lia.
Qed.

Lemma store_activeChips_bounded_witness :
  (activeChips (runStore EdgePayouts.calculatePayout initialState
                  (PanelDropChip "s1" :: PanelDropNext :: BoardSlotLanded sampleDraws 3 :: nil))
   <= MAX_ACTIVE_CHIPS)%nat.
Proof.
  apply (store_activeChips_bounded EdgePayouts.calculatePayout
           (PanelDropChip "s1" :: PanelDropNext :: BoardSlotLanded sampleDraws 3 :: nil)
           initialState).
  - unfold MAX_ACTIVE_CHIPS. cbn. lia.
  - reflexivity.
Defined.
